(** * lwie-dashboard: authentication, sessions, rate limiting and the audit log

    A shallow embedding of the server-side core of the dashboard backend.
    The functions embedded, the module each is imported from, and where
    its text is under [src/]:

    - [createRateLimiter], [loginRateLimiter], [passwordResetRateLimiter],
      [apiRateLimiter]: middleware/rateLimiter.js
      ([src/middleware/rateLimiter.js]);
    - [createAuditLog]: utils/auditLogger.js (the second file in
      [src/utils/ssr-helpers.ts]);
    - [sessionManager]: utils/sessionManager.js ([src/unnamed/part_002]);
    - [socketAuthMiddleware]: middleware/socketAuth.js
      ([src/middleware/socketAuth.js]);
    - [authenticateRefreshToken]: middleware/auth.js
      ([src/unnamed/part_013]);
    - POST /api/auth/login and /api/auth/refresh-token: the auth routes
      (in [src/routes/items.js]);
    - POST /api/manager/auth/login and /api/manager/auth/refresh-token:
      routes/manager-auth.js ([src/routes/manager-auth.js]).

    A handler is a program ([prog]) over the commands it sends to its
    environment: Redis commands through [redisClient], SQL statements
    through [pool.query].  A program is run against a [world] holding
    the Redis keyspace, the tables, and a clock.  Modelling choices:

    - The clock counts whole seconds, the resolution of both the [exp]
      claim of a token and the [EX] option of [SET].
    - Every command on a connection may be rejected; which ones are is
      given by a schedule in the world, so a statement over all worlds
      is a statement over all patterns of failure.  A rejected command
      has no effect.
    - A token is kept as the secret that signed it and its claims
      ([jwt]); texts that do not verify under either secret are
      [Malformed].
    - [redisClient] is an ioredis client.  [redisClient.set(k, v, "EX", n)]
      is the command [SET k v EX n].  [redisClient.set(k, v, { EX: n })]
      is not: ioredis has no options object for [SET] and sends an
      argument that is neither a string nor a buffer as its [String()],
      so the command on the wire is [SET k v "[object Object]"], which
      the server refuses with a syntax error ([SET_options]).
    - A call whose promise is not awaited ([createAuditLog(...).catch(...)])
      is run in place, before the caller's next command. *)

From Stdlib Require Import ZArith Lia List Bool Ascii String.
From stdpp Require Import base option list gmap strings.

Local Open Scope string_scope.
Local Open Scope Z_scope.

(** ** The JavaScript runtime functions the handlers call *)

Module JS.

(** [digit_in radix a]: the value of the character [a] as a digit in
    [radix] (10 or 16), if it is one. *)
Definition digit_in (radix : Z) (a : ascii) : option Z :=
  let n := Z.of_N (N_of_ascii a) in
  if (48 <=? n) && (n <=? 57) then Some (n - 48)
  else if (radix =? 16) && (97 <=? n) && (n <=? 102) then Some (n - 87)
  else if (radix =? 16) && (65 <=? n) && (n <=? 70) then Some (n - 55)
  else None.

Definition digit_char (d : Z) : ascii := ascii_of_N (Z.to_N (48 + d)).

(** White space skipped by [parseInt] (the ASCII part of StrWhiteSpaceChar). *)
Definition is_space (a : ascii) : bool :=
  let n := Z.of_N (N_of_ascii a) in
  ((9 <=? n) && (n <=? 13)) || (n =? 32).

Fixpoint trimStart (s : string) : string :=
  match s with
  | String a s' => if is_space a then trimStart s' else s
  | EmptyString => s
  end.

(** The longest prefix of digits, read from the left; [None] when there
    is no digit at all. *)
Fixpoint digits_prefix (radix : Z) (s : string) (acc : option Z) : option Z :=
  match s with
  | String a s' =>
      match digit_in radix a with
      | Some d => digits_prefix radix s' (Some (default 0 acc * radix + d))
      | None => acc
      end
  | EmptyString => acc
  end.

(** [Number.parseInt(s)] with no radix argument; [None] is [NaN].
    Values are exact integers (the doubles of JavaScript are exact up to
    2^53, far above any counter here). *)
Definition parseInt (s : string) : option Z :=
  let s1 := trimStart s in
  let '(sign, s2) :=
    match s1 with
    | String a r =>
        if Ascii.eqb a "-" then (-1, r)
        else if Ascii.eqb a "+" then (1, r) else (1, s1)
    | EmptyString => (1, s1)
    end in
  let '(radix, s3) :=
    match s2 with
    | String a (String x r) =>
        if Ascii.eqb a "0" && (Ascii.eqb x "x" || Ascii.eqb x "X")
        then (16, r) else (10, s2)
    | _ => (10, s2)
    end in
  Z.mul sign <$> digits_prefix radix s3 None.

(** Decimal text of a non-negative integer, least significant digit
    first onto [acc]; [fuel] bounds the number of digits. *)
Fixpoint print_digits (fuel : nat) (n : Z) (acc : string) : string :=
  match fuel with
  | O => acc
  | S f =>
      let acc' := String (digit_char (n mod 10)) acc in
      if n <? 10 then acc' else print_digits f (n / 10) acc'
  end.

Definition is_digit (a : ascii) : bool :=
  match digit_in 10 a with Some _ => true | None => false end.

Fixpoint all_digits (s : string) : bool :=
  match s with
  | String a s' => is_digit a && all_digits s'
  | EmptyString => true
  end.

(** [String(z)] / [`${z}`] for an integer. *)
Definition Z_to_string (z : Z) : string :=
  if z <? 0
  then String "-" (print_digits (S (Z.to_nat (Z.log2 (- z)))) (- z) "")
  else print_digits (S (Z.to_nat (Z.log2 z))) z "".

(** A string is truthy unless it is empty. *)
Definition truthy (s : string) : bool :=
  match s with EmptyString => false | _ => true end.

(** [Math.ceil(ms / 1000)] for an integer number of milliseconds. *)
Definition ceil_div_1000 (ms : Z) : Z := - ((- ms) / 1000).

Definition lower_char (a : ascii) : ascii :=
  let n := Z.of_N (N_of_ascii a) in
  if (65 <=? n) && (n <=? 90) then ascii_of_N (Z.to_N (n + 32)) else a.

(** [String.prototype.toLowerCase] on ASCII text. *)
Fixpoint toLowerCase (s : string) : string :=
  match s with
  | String a s' => String (lower_char a) (toLowerCase s')
  | EmptyString => EmptyString
  end.

End JS.

(** ** JSON text *)

#[warnings="-register-all"]
Inductive Json :=
| JNull
| JBool (b : bool)
| JNum (z : Z)
| JStr (s : string)
| JArr (items : list Json)
| JObj (fields : list (string * Json)).

Module JSON.

Definition dquote : ascii := ascii_of_N 34.
Definition backslash : ascii := ascii_of_N 92.

Definition hex_char (d : Z) : ascii :=
  if d <? 10 then ascii_of_N (Z.to_N (48 + d)) else ascii_of_N (Z.to_N (87 + d)).

Definition escape_char (a : ascii) : string :=
  let n := Z.of_N (N_of_ascii a) in
  if n =? 34 then String backslash (String dquote "")
  else if n =? 92 then String backslash (String backslash "")
  else if n =? 8 then String backslash "b"
  else if n =? 9 then String backslash "t"
  else if n =? 10 then String backslash "n"
  else if n =? 12 then String backslash "f"
  else if n =? 13 then String backslash "r"
  else if n <? 32
  then String backslash ("u00" +:+ String (hex_char (n / 16)) (String (hex_char (n mod 16)) ""))
  else String a "".

Fixpoint escape (s : string) : string :=
  match s with
  | String a s' => escape_char a +:+ escape s'
  | EmptyString => EmptyString
  end.

Definition quote (s : string) : string :=
  String dquote (escape s +:+ String dquote "").

(** [JSON.stringify] on a value without cycles, functions or [undefined]. *)
Fixpoint stringify (j : Json) : string :=
  match j with
  | JNull => "null"
  | JBool b => if b then "true" else "false"
  | JNum z => JS.Z_to_string z
  | JStr s => quote s
  | JArr items =>
      "[" +:+
      (fix elems (l : list Json) : string :=
         match l with
         | [] => ""
         | x :: l' =>
             match l' with
             | [] => stringify x
             | _ => stringify x +:+ "," +:+ elems l'
             end
         end) items +:+ "]"
  | JObj fields =>
      "{" +:+
      (fix members (l : list (string * Json)) : string :=
         match l with
         | [] => ""
         | (k, v) :: l' =>
             match l' with
             | [] => quote k +:+ ":" +:+ stringify v
             | _ => quote k +:+ ":" +:+ stringify v +:+ "," +:+ members l'
             end
         end) fields +:+ "}"
  end.

(** A property whose value is [undefined] is left out of the text. *)
Definition field (k : string) (v : option Json) : list (string * Json) :=
  match v with Some j => [(k, j)] | None => [] end.

End JSON.

(** ** [Date.prototype.toISOString] *)

Module Date.

Definition pad (width : nat) (z : Z) : string :=
  let s := JS.Z_to_string z in
  String.concat "" (replicate (width - String.length s) "0") +:+ s.

(** The civil date of a day count since 1970-01-01 (proleptic Gregorian). *)
Definition civil_from_days (days : Z) : Z * Z * Z :=
  let z := days + 719468 in
  let era := z / 146097 in
  let doe := z - era * 146097 in
  let yoe := (doe - doe / 1460 + doe / 36524 - doe / 146096) / 365 in
  let doy := doe - (365 * yoe + yoe / 4 - yoe / 100) in
  let mp := (5 * doy + 2) / 153 in
  let d := doy - (153 * mp + 2) / 5 + 1 in
  let m := if mp <? 10 then mp + 3 else mp - 9 in
  let y := yoe + era * 400 + (if m <=? 2 then 1 else 0) in
  (y, m, d).

(** The ISO text of an instant given in whole seconds since the epoch
    (years 0000 to 9999). *)
Definition toISOString (t : Z) : string :=
  let '(y, m, d) := civil_from_days (t / 86400) in
  let s := t mod 86400 in
  pad 4 y +:+ "-" +:+ pad 2 m +:+ "-" +:+ pad 2 d +:+ "T" +:+
  pad 2 (s / 3600) +:+ ":" +:+ pad 2 (s mod 3600 / 60) +:+ ":" +:+ pad 2 (s mod 60) +:+
  ".000Z".

End Date.

Arguments JSON.stringify : simpl never.
Arguments Date.toISOString : simpl never.
Arguments JS.Z_to_string : simpl never.
Arguments JS.parseInt : simpl never.

(** ** Signed assertions ([jsonwebtoken])

    An assertion is kept as what its text carries: the secret it was
    signed with and its claims.  [Malformed] stands for any text that is
    not a token with a valid signature.  The two secrets are taken to be
    different, and signatures not to be forged. *)

Inductive secret := JWT_SECRET | JWT_REFRESH_SECRET.

Record claims := Claims {
  userId : Z;
  role : option string;
  iat : Z;
  exp : Z;
}.

Inductive jwt :=
| Signed (k : secret) (c : claims)
| Malformed (text : string).

#[global] Instance secret_eq_dec : EqDecision secret.
Proof. solve_decision. Defined.
#[global] Instance claims_eq_dec : EqDecision claims.
Proof. solve_decision. Defined.
#[global] Instance jwt_eq_dec : EqDecision jwt.
Proof. solve_decision. Defined.

Inductive error :=
| RedisError (msg : string)
| DatabaseError (msg : string)
| JsonWebTokenError (msg : string)
| TokenExpiredError (msg : string)
| SyntaxError (msg : string)
| Error (msg : string).

Module Jwt.

(** [jwt.sign(payload, secret, { expiresIn })] at time [now]; [expiresIn]
    in seconds ("15m" is 900, "7d" is 604800). *)
Definition sign (uid : Z) (r : option string) (k : secret) (expiresIn now : Z) : jwt :=
  Signed k {| userId := uid; role := r; iat := now; exp := now + expiresIn |}.

(** [jwt.verify(token, secret)] at time [now]: the decoded claims, or
    the error it throws. *)
Definition verify (t : jwt) (k : secret) (now : Z) : error + claims :=
  match t with
  | Malformed _ => inl (JsonWebTokenError "jwt malformed")
  | Signed k' c =>
      if decide (k' = k)
      then if exp c <=? now then inl (TokenExpiredError "jwt expired") else inr c
      else inl (JsonWebTokenError "invalid signature")
  end.

(** The text of a token, as it appears inside a cache key. *)
Definition text (t : jwt) : string :=
  match t with
  | Malformed s => s
  | Signed k c =>
      (match k with JWT_SECRET => "access" | JWT_REFRESH_SECRET => "refresh" end)
      +:+ "." +:+ JS.Z_to_string (userId c)
      +:+ "." +:+ default "" (role c)
      +:+ "." +:+ JS.Z_to_string (iat c)
      +:+ "." +:+ JS.Z_to_string (exp c)
  end.

Definition m15 : Z := 900.
Definition d7 : Z := 604800.

End Jwt.

(** ** The stores *)

(** A Redis value is a string or a list of strings; a key may carry an
    absolute expiry time. *)
Inductive rvalue :=
| RString (s : string)
| RList (l : list string).

Record entry := Entry {
  value : rvalue;
  expiry : option Z;
}.

Record user := User {
  u_id : Z;
  u_email : string;
  u_password : string;
  u_first_name : string;
  u_last_name : string;
  u_role : string;
  u_mfa_enabled : bool;
  u_is_active : bool;
  u_is_approved : bool;
}.

Record audit_log := AuditLog {
  log_id : Z;
  log_action : string;
  log_user_id : option Z;
  log_details : string;
  log_ip_address : option string;
  log_created_at : Z;
}.

Record refresh_token := RefreshToken {
  rt_user_id : Z;
  rt_token : jwt;
  rt_expires_at : Z;
}.

(** The state the handlers run against.  [redis_faults] and [pg_faults]
    say, for the commands still to come on each connection, which ones
    fail (a missing entry means the command goes through). *)
Record world := World {
  clock : Z;
  redis : gmap string entry;
  published : list (string * string);
  audit_logs : list audit_log;
  refresh_tokens : list refresh_token;
  users : list user;
  bcrypt_compare : string -> string -> bool;
  console : list string;
  redis_faults : list bool;
  pg_faults : list bool;
}.

Definition set_clock (t : Z) (w : world) : world :=
  World t (redis w) (published w) (audit_logs w) (refresh_tokens w) (users w)
        (bcrypt_compare w) (console w) (redis_faults w) (pg_faults w).
Definition set_redis (m : gmap string entry) (w : world) : world :=
  World (clock w) m (published w) (audit_logs w) (refresh_tokens w) (users w)
        (bcrypt_compare w) (console w) (redis_faults w) (pg_faults w).
Definition set_published (l : list (string * string)) (w : world) : world :=
  World (clock w) (redis w) l (audit_logs w) (refresh_tokens w) (users w)
        (bcrypt_compare w) (console w) (redis_faults w) (pg_faults w).
Definition set_audit_logs (l : list audit_log) (w : world) : world :=
  World (clock w) (redis w) (published w) l (refresh_tokens w) (users w)
        (bcrypt_compare w) (console w) (redis_faults w) (pg_faults w).
Definition set_refresh_tokens (l : list refresh_token) (w : world) : world :=
  World (clock w) (redis w) (published w) (audit_logs w) l (users w)
        (bcrypt_compare w) (console w) (redis_faults w) (pg_faults w).
Definition set_console (l : list string) (w : world) : world :=
  World (clock w) (redis w) (published w) (audit_logs w) (refresh_tokens w) (users w)
        (bcrypt_compare w) l (redis_faults w) (pg_faults w).
Definition set_redis_faults (l : list bool) (w : world) : world :=
  World (clock w) (redis w) (published w) (audit_logs w) (refresh_tokens w) (users w)
        (bcrypt_compare w) (console w) l (pg_faults w).
Definition set_pg_faults (l : list bool) (w : world) : world :=
  World (clock w) (redis w) (published w) (audit_logs w) (refresh_tokens w) (users w)
        (bcrypt_compare w) (console w) (redis_faults w) l.

(** The outcome of an awaited promise. *)
Inductive settled (X : Type) :=
| Fulfilled (x : X)
| Rejected (e : error).
Arguments Fulfilled {X} x.
Arguments Rejected {X} e.

(** ** Redis commands on a keyspace *)

Module Redis.

Definition live (now : Z) (e : entry) : bool :=
  match expiry e with
  | Some t => now <? t
  | None => true
  end.

(** The entry under [k] as the server sees it at time [now]: an entry
    past its expiry is gone. *)
Definition lookup (now : Z) (m : gmap string entry) (k : string) : option entry :=
  match m !! k with
  | Some e => if live now e then Some e else None
  | None => None
  end.

(** The seconds a live key still has ([TTL k]). *)
Definition ttl (now : Z) (m : gmap string entry) (k : string) : option Z :=
  match lookup now m k with
  | Some e => (fun t => t - now) <$> expiry e
  | None => None
  end.

Definition wrongtype : error :=
  RedisError "WRONGTYPE Operation against a key holding the wrong kind of value".

Definition int64_max : Z := 9223372036854775807.
Definition int64_min : Z := -9223372036854775808.

(** The integer a string value stands for, as [INCR] reads it: only the
    canonical decimal text of a 64-bit integer counts. *)
Definition string2ll (s : string) : option Z :=
  match JS.parseInt s with
  | Some z =>
      if String.eqb (JS.Z_to_string z) s && (int64_min <=? z) && (z <=? int64_max)
      then Some z else None
  | None => None
  end.

Definition get (now : Z) (m : gmap string entry) (k : string)
  : settled (option string) * gmap string entry :=
  match lookup now m k with
  | None => (Fulfilled None, m)
  | Some (Entry (RString s) _) => (Fulfilled (Some s), m)
  | Some (Entry (RList _) _) => (Rejected wrongtype, m)
  end.

Definition syntax_error : error := RedisError "ERR syntax error".

(** [SET k v] and [SET k v EX seconds]. *)
Definition set (now : Z) (m : gmap string entry) (k v : string) (ex : option Z)
  : settled unit * gmap string entry :=
  match ex with
  | None => (Fulfilled tt, <[k := Entry (RString v) None]> m)
  | Some seconds =>
      if seconds <=? 0
      then (Rejected (RedisError "ERR invalid expire time in 'set' command"), m)
      else (Fulfilled tt, <[k := Entry (RString v) (Some (now + seconds))]> m)
  end.

(** [INCR k]: a missing key counts as 0 and is created without expiry;
    an existing key keeps its expiry. *)
Definition incr (now : Z) (m : gmap string entry) (k : string)
  : settled Z * gmap string entry :=
  match lookup now m k with
  | None => (Fulfilled 1, <[k := Entry (RString "1") None]> m)
  | Some (Entry (RString s) t) =>
      match string2ll s with
      | Some n =>
          if n <? int64_max
          then (Fulfilled (n + 1), <[k := Entry (RString (JS.Z_to_string (n + 1))) t]> m)
          else (Rejected (RedisError "ERR increment or decrement would overflow"), m)
      | None => (Rejected (RedisError "ERR value is not an integer or out of range"), m)
      end
  | Some (Entry (RList _) _) => (Rejected wrongtype, m)
  end.

Definition del (now : Z) (m : gmap string entry) (k : string)
  : settled Z * gmap string entry :=
  match lookup now m k with
  | None => (Fulfilled 0, delete k m)
  | Some _ => (Fulfilled 1, delete k m)
  end.

Definition lpush (now : Z) (m : gmap string entry) (k v : string)
  : settled Z * gmap string entry :=
  match lookup now m k with
  | None => (Fulfilled 1, <[k := Entry (RList [v]) None]> m)
  | Some (Entry (RList l) t) =>
      (Fulfilled (Z.of_nat (S (length l))), <[k := Entry (RList (v :: l)) t]> m)
  | Some (Entry (RString _) _) => (Rejected wrongtype, m)
  end.

(** The elements of [l] from index [start] to index [stop], both
    included; a negative index counts from the end. *)
Definition range {A} (l : list A) (start stop : Z) : list A :=
  let len := Z.of_nat (length l) in
  let start' := if start <? 0 then Z.max 0 (len + start) else start in
  let stop' := if stop <? 0 then len + stop else stop in
  if (stop' <? start') || (len <=? start') then []
  else take (Z.to_nat (Z.min stop' (len - 1) - start' + 1)) (drop (Z.to_nat start') l).

(** [LTRIM k start stop]; a list trimmed to nothing is removed. *)
Definition ltrim (now : Z) (m : gmap string entry) (k : string) (start stop : Z)
  : settled unit * gmap string entry :=
  match lookup now m k with
  | None => (Fulfilled tt, m)
  | Some (Entry (RList l) t) =>
      match range l start stop with
      | [] => (Fulfilled tt, delete k m)
      | l' => (Fulfilled tt, <[k := Entry (RList l') t]> m)
      end
  | Some (Entry (RString _) _) => (Rejected wrongtype, m)
  end.

(** The list under [k] ([LRANGE k 0 -1]); no list is the empty list. *)
Definition list_at (now : Z) (m : gmap string entry) (k : string) : list string :=
  match lookup now m k with
  | Some (Entry (RList l) _) => l
  | _ => []
  end.

End Redis.

(** ** Commands and programs *)

(** What a handler can ask of its environment.  The Redis commands go
    through [redisClient], the SQL statements through [pool.query]. *)
Inductive cmd : Type -> Type :=
| Now : cmd Z
| ConsoleError (msg : string) : cmd unit
| BcryptCompare (plain hash : string) : cmd bool
| GET (k : string) : cmd (option string)
| SET (k v : string) (ex : option Z) : cmd unit
(* redisClient.set(k, v, { ... }): SET k v "[object Object]" on the wire *)
| SET_options (k v : string) (options : list (string * Json)) : cmd unit
| INCR (k : string) : cmd Z
| DEL (k : string) : cmd Z
| LPUSH (k v : string) : cmd Z
| LTRIM (k : string) (start stop : Z) : cmd unit
| PUBLISH (channel msg : string) : cmd Z
(* INSERT INTO audit_logs (action, user_id, details, ip_address)
   VALUES ($1, $2, $3, $4) RETURNING id *)
| InsertAuditLog (action : string) (user_id : option Z) (details : string)
                 (ip : option string) : cmd Z
(* SELECT ... FROM users WHERE email = $1 *)
| SelectUserByEmail (e : string) : cmd (list user)
(* SELECT * FROM users WHERE email = $1 AND role = $2 *)
| SelectUserByEmailRole (e r : string) : cmd (list user)
(* SELECT ... FROM users WHERE id = $1 AND is_active = true AND is_approved = true *)
| SelectActiveApprovedUser (uid : Z) : cmd (list user)
(* SELECT * FROM refresh_tokens WHERE token = $1 AND expires_at > NOW() *)
| SelectValidRefreshToken (t : jwt) : cmd (list refresh_token)
(* SELECT ... FROM users WHERE id = $1 AND role = $2
   AND is_active = true AND is_approved = true *)
| SelectActiveApprovedUserRole (uid : Z) (r : string) : cmd (list user)
(* INSERT INTO refresh_tokens (user_id, token, expires_at)
   VALUES ($1, $2, NOW() + INTERVAL ...) *)
| InsertRefreshToken (uid : Z) (t : jwt) (lifetime : Z) : cmd unit
(* DELETE FROM refresh_tokens WHERE token = $1 *)
| DeleteRefreshToken (t : jwt) : cmd unit.

(** The commands that are awaited: the handler yields to the event loop
    while they are in flight. *)
Definition asynchronous {X} (c : cmd X) : bool :=
  match c with
  | Now | ConsoleError _ => false
  | _ => true
  end.

Definition on_redis {X} (w : world)
    (f : gmap string entry -> settled X * gmap string entry) : settled X * world :=
  match redis_faults w with
  | true :: fs => (Rejected (RedisError "Connection is closed."), set_redis_faults fs w)
  | false :: fs => let '(r, m) := f (redis w) in (r, set_redis m (set_redis_faults fs w))
  | [] => let '(r, m) := f (redis w) in (r, set_redis m w)
  end.

Definition on_pg {X} (w : world) (f : world -> X * world) : settled X * world :=
  match pg_faults w with
  | true :: fs => (Rejected (DatabaseError "connection terminated"), set_pg_faults fs w)
  | false :: fs => let '(x, w') := f (set_pg_faults fs w) in (Fulfilled x, w')
  | [] => let '(x, w') := f w in (Fulfilled x, w')
  end.

Definition exec {X} (c : cmd X) (w : world) : settled X * world :=
  match c in cmd X return settled X * world with
  | Now => (Fulfilled (clock w), w)
  | ConsoleError msg => (Fulfilled tt, set_console (msg :: console w) w)
  | BcryptCompare plain hash => (Fulfilled (bcrypt_compare w plain hash), w)
  | GET k => on_redis w (fun m => Redis.get (clock w) m k)
  | SET k v ex => on_redis w (fun m => Redis.set (clock w) m k v ex)
  | SET_options k v options => on_redis w (fun m => (Rejected Redis.syntax_error, m))
  | INCR k => on_redis w (fun m => Redis.incr (clock w) m k)
  | DEL k => on_redis w (fun m => Redis.del (clock w) m k)
  | LPUSH k v => on_redis w (fun m => Redis.lpush (clock w) m k v)
  | LTRIM k start stop => on_redis w (fun m => Redis.ltrim (clock w) m k start stop)
  | PUBLISH channel msg =>
      match redis_faults w with
      | true :: fs =>
          (Rejected (RedisError "Connection is closed."), set_redis_faults fs w)
      | fs =>
          (Fulfilled 0,
           set_published ((channel, msg) :: published w) (set_redis_faults (tail fs) w))
      end
  | InsertAuditLog action user_id details ip =>
      on_pg w (fun w =>
        let new_id := Z.of_nat (S (length (audit_logs w))) in
        (new_id,
         set_audit_logs
           (audit_logs w ++ [AuditLog new_id action user_id details ip (clock w)]) w))
  | SelectUserByEmail e =>
      on_pg w (fun w => (filter (fun u => u_email u = e) (users w), w))
  | SelectUserByEmailRole e r =>
      on_pg w (fun w => (filter (fun u => u_email u = e /\ u_role u = r) (users w), w))
  | SelectActiveApprovedUser uid =>
      on_pg w (fun w =>
        (filter (fun u => u_id u = uid /\ u_is_active u = true /\ u_is_approved u = true)
                (users w), w))
  | SelectActiveApprovedUserRole uid r =>
      on_pg w (fun w =>
        (filter (fun u => u_id u = uid /\ u_role u = r /\ u_is_active u = true
                          /\ u_is_approved u = true)
                (users w), w))
  | SelectValidRefreshToken t =>
      on_pg w (fun w =>
        (filter (fun r => rt_token r = t /\ clock w < rt_expires_at r) (refresh_tokens w), w))
  | InsertRefreshToken uid t lifetime =>
      on_pg w (fun w =>
        (tt, set_refresh_tokens
               (refresh_tokens w ++ [RefreshToken uid t (clock w + lifetime)]) w))
  | DeleteRefreshToken t =>
      on_pg w (fun w =>
        (tt, set_refresh_tokens (filter (fun r => rt_token r <> t) (refresh_tokens w)) w))
  end.

(** A handler: it returns, throws, or performs a command and goes on
    from how the command settled. *)
Inductive prog (A : Type) : Type :=
| Ret (a : A)
| Throw (e : error)
| Perform {X : Type} (c : cmd X) (k : settled X -> prog A).
Arguments Ret {A} a.
Arguments Throw {A} e.
Arguments Perform {A X} c k.

Fixpoint bind {A B} (p : prog A) (f : A -> prog B) : prog B :=
  match p with
  | Ret a => f a
  | Throw e => Throw e
  | Perform c k => Perform c (fun r => bind (k r) f)
  end.

#[global] Instance prog_ret : MRet prog := @Ret.
#[global] Instance prog_bind : MBind prog := fun A B f p => bind p f.

(** [try { p } catch (error) { h error }] *)
Fixpoint try_catch {A} (p : prog A) (h : error -> prog A) : prog A :=
  match p with
  | Ret a => Ret a
  | Throw e => h e
  | Perform c k => Perform c (fun r => try_catch (k r) h)
  end.

(** [await c]: a rejected promise is thrown at the [await]. *)
Definition await {X} (c : cmd X) : prog X :=
  Perform c (fun r => match r with Fulfilled x => Ret x | Rejected e => Throw e end).

(** Lift a synchronous call that may throw. *)
Definition of_sum {A} (r : error + A) : prog A :=
  match r with inl e => Throw e | inr a => Ret a end.

(** Run a handler to its end, one command after the other. *)
Fixpoint run {A} (p : prog A) (w : world) : settled A * world :=
  match p with
  | Ret a => (Fulfilled a, w)
  | Throw e => (Rejected e, w)
  | Perform c k => let '(r, w') := exec c w in run (k r) w'
  end.

(** The commands a handler issues when run from [w], in order. *)
Fixpoint trace {A} (p : prog A) (w : world) : list { X : Type & cmd X } :=
  match p with
  | Ret _ | Throw _ => []
  | Perform c k => let '(r, w') := exec c w in existT _ c :: trace (k r) w'
  end.

(** Run [p] up to and including its next awaited command. *)
Fixpoint advance {A} (p : prog A) (w : world) : prog A * world :=
  match p with
  | Perform c k =>
      let '(r, w') := exec c w in
      if asynchronous c then (k r, w') else advance (k r) w'
  | _ => (p, w)
  end.

(** Two handlers in flight on the one event loop: the schedule says
    whose awaited command reaches the stores next ([true] for [p]); when
    it is used up, [p] and then [q] run to their ends. *)
Fixpoint interleave {A B} (schedule : list bool) (p : prog A) (q : prog B) (w : world)
  : settled A * settled B * world :=
  match schedule with
  | [] =>
      let '(a, w1) := run p w in
      let '(b, w2) := run q w1 in
      (a, b, w2)
  | true :: s => let '(p', w') := advance p w in interleave s p' q w'
  | false :: s => let '(q', w') := advance q w in interleave s p q' w'
  end.

(** [p.catch(h)] on a promise nobody awaits.  The call is run in place:
    its commands reach the stores before those the caller issues next. *)
Definition detached {A} (p : prog A) (h : error -> prog unit) : prog unit :=
  try_catch (p ;; Ret tt) h.

Definition console_error (msg : string) : prog unit := await (ConsoleError msg).

(** How an Express or socket.io middleware ends: [next()] with what it
    attached to the request, [next(error)], or a response. *)
Inductive outcome (R : Type) :=
| next (req : R)
| next_error (e : error)
| respond (status : Z) (body : Json).
Arguments next {R} req.
Arguments next_error {R} e.
Arguments respond {R} status body.

Definition message_body (msg : string) : Json := JObj [("message", JStr msg)].

(** [o[k]] on a JSON object. *)
Fixpoint assoc (k : string) (fields : list (string * Json)) : option Json :=
  match fields with
  | [] => None
  | (k', v) :: rest => if String.eqb k' k then Some v else assoc k rest
  end.

Definition prop (k : string) (j : Json) : option Json :=
  match j with
  | JObj fields => assoc k fields
  | _ => None
  end.

(** ** middleware/rateLimiter.js *)

Record options := Options {
  windowMs : Z;
  max : Z;
  keyPrefix : string;
  message : string;
}.

Definition default_options : options :=
  Options (60 * 1000) 10 "rl:" "Too many requests, please try again later".

(** [currentCount && Number.parseInt(currentCount) >= max] *)
Definition at_limit (currentCount : option string) (max : Z) : bool :=
  match currentCount with
  | Some s =>
      JS.truthy s &&
      match JS.parseInt s with
      | Some n => max <=? n
      | None => false
      end
  | None => false
  end.

Definition truthy_reply (currentCount : option string) : bool :=
  match currentCount with
  | Some s => JS.truthy s
  | None => false
  end.

Definition createRateLimiter (o : options) (ip : string) : prog (outcome unit) :=
  try_catch
    (let key := keyPrefix o +:+ ip in
     currentCount ← await (GET key);
     if at_limit currentCount (max o)
     then Ret (respond 429 (JObj [("message", JStr (message o));
                                  ("retryAfter", JNum (JS.ceil_div_1000 (windowMs o)))]))
     else
       (if truthy_reply currentCount
        then await (INCR key) ;; Ret tt
        else await (SET_options key "1"
                                [("EX", JNum (JS.ceil_div_1000 (windowMs o)))])) ;;
       Ret (next tt))
    (fun error =>
       console_error "Rate limiter error:" ;;
       Ret (next tt)).

(** The pre-configured limiters and the options each is created with. *)
Definition loginRateLimiter_options : options :=
  Options (5 * 60 * 1000) 5 "rl:login:"
          "Too many login attempts, please try again after 5 minutes".

Definition passwordResetRateLimiter_options : options :=
  Options (60 * 60 * 1000) 3 "rl:pwreset:"
          "Too many password reset attempts, please try again after an hour".

Definition apiRateLimiter_options : options :=
  Options (60 * 1000) 60 "rl:api:"
          "Too many API requests, please try again later".

Definition loginRateLimiter : string -> prog (outcome unit) :=
  createRateLimiter loginRateLimiter_options.

Definition passwordResetRateLimiter : string -> prog (outcome unit) :=
  createRateLimiter passwordResetRateLimiter_options.

Definition apiRateLimiter : string -> prog (outcome unit) :=
  createRateLimiter apiRateLimiter_options.

(** The options of the [express-rate-limit] limiter that
    routes/manager-auth.js puts before its own login route. *)
Definition manager_loginLimiter : options :=
  Options (15 * 60 * 1000) 5 ""
          "Too many login attempts from this IP, please try again after 15 minutes".

(** ** utils/auditLogger.js *)

(** The key of the Recent Significant Events list, and the name of the
    channel. *)
Definition notifications : string := "admin:notifications".

Definition significantActions : list string :=
  [ "LOGIN_FAILED";
    "MFA_FAILED";
    "UNAUTHORIZED_ACCESS";
    "USER_ROLE_CHANGED";
    "USER_APPROVED";
    "USER_DEACTIVATED";
    "ITEM_REJECTED";
    "SECURITY_ALERT" ].

(** [Array.prototype.includes] on strings. *)
Definition includes (l : list string) (x : string) : bool :=
  existsb (String.eqb x) l.

Definition notification (event_id : Z) (action : string) (user_id : option Z)
    (details : Json) (now : Z) : string :=
  JSON.stringify
    (JObj ([("id", JNum event_id); ("action", JStr action)]
           ++ JSON.field "userId" (JNum <$> user_id)
           ++ [("details", details); ("timestamp", JStr (Date.toISOString now))])).

Definition createAuditLog (action : string) (user_id : option Z) (details : Json)
    (ip : option string) : prog (option Z) :=
  try_catch
    (result ← await (InsertAuditLog action user_id (JSON.stringify details) ip);
     (if includes significantActions action
      then
        t1 ← await Now;
        await (LPUSH "admin:notifications" (notification result action user_id details t1)) ;;
        await (LTRIM "admin:notifications" 0 99) ;;
        t2 ← await Now;
        await (PUBLISH "admin:notifications"
                       (notification result action user_id details t2)) ;;
        Ret tt
      else Ret tt) ;;
     Ret (Some result))
    (fun error =>
       console_error "Error creating audit log:" ;;
       Ret None).

(** ** utils/sessionManager.js *)

Definition jwt_sign (uid : Z) (r : option string) (k : secret) (expiresIn : Z) : prog jwt :=
  now ← await Now;
  Ret (Jwt.sign uid r k expiresIn now).

Definition jwt_verify (t : jwt) (k : secret) : prog claims :=
  now ← await Now;
  of_sum (Jwt.verify t k now).

Definition session_key (accessToken : jwt) : string :=
  "session:" +:+ Jwt.text accessToken.

Record user_data := UserData {
  ud_role : string;
  ud_email : string;
  ud_firstName : string;
  ud_lastName : string;
  ud_mfaEnabled : bool;
}.

Definition profile_fields (d : user_data) : list (string * Json) :=
  [ ("email", JStr (ud_email d));
    ("firstName", JStr (ud_firstName d));
    ("lastName", JStr (ud_lastName d));
    ("mfaEnabled", JBool (ud_mfaEnabled d)) ].

Module sessionManager.

Definition createSession (uid : Z) (r : string) (additionalData : list (string * Json))
  : prog (jwt * jwt) :=
  accessToken ← jwt_sign uid None JWT_SECRET Jwt.m15;
  refreshToken ← jwt_sign uid None JWT_REFRESH_SECRET Jwt.d7;
  await (SET_options (session_key accessToken)
                     (JSON.stringify (JObj ([("userId", JNum uid); ("role", JStr r)]
                                            ++ additionalData)))
                     [("EX", JNum 900)]) ;;
  Ret (accessToken, refreshToken).

Definition invalidateSession (accessToken : jwt) : prog unit :=
  await (DEL (session_key accessToken)) ;; Ret tt.

Definition refreshSession (refreshToken : jwt) (userData : user_data) : prog (jwt * jwt) :=
  try_catch
    (decoded ← jwt_verify refreshToken JWT_REFRESH_SECRET;
     createSession (userId decoded) (ud_role userData) (profile_fields userData))
    (fun error => Throw (Error "Invalid refresh token")).

End sessionManager.

(** ** middleware/socketAuth.js *)

(** [!token] *)
Definition no_token (token : option jwt) : bool :=
  match token with
  | None | Some (Malformed "") => true
  | _ => false
  end.

Record socket_user := SocketUser {
  su_id : option Json;
  su_role : option Json;
}.

Definition as_id (j : option Json) : option Z :=
  match j with
  | Some (JNum z) => Some z
  | _ => None
  end.

Definition socket_details (socketId address : string) : Json :=
  JObj [("socketId", JStr socketId); ("ip", JStr address)].

Definition socketAuthMiddleware (JSON_parse : string -> error + Json)
    (token : option jwt) (socketId address : string) : prog (outcome socket_user) :=
  try_catch
    (match (if no_token token then None else token) with
     | None => Ret (next_error (Error "Authentication error: No token provided"))
     | Some token =>
         cachedSession ← await (GET (session_key token));
         if truthy_reply cachedSession
         then
           session ← of_sum (JSON_parse (default "" cachedSession));
           match session with
           | JNull => Throw (Error "Cannot read properties of null (reading 'userId')")
           | _ =>
               detached
                 (createAuditLog "SOCKET_CONNECT" (as_id (prop "userId" session))
                                 (socket_details socketId address) None)
                 (fun err => console_error "Error logging socket connection:") ;;
               Ret (next (SocketUser (prop "userId" session) (prop "role" session)))
           end
         else
           try_catch
             (decoded ← jwt_verify token JWT_SECRET;
              await (SET (session_key token)
                         (JSON.stringify
                            (JObj ([("userId", JNum (userId decoded))]
                                   ++ JSON.field "role" (JStr <$> role decoded))))
                         (Some 900)) ;;
              detached
                (createAuditLog "SOCKET_CONNECT" (Some (userId decoded))
                                (socket_details socketId address) None)
                (fun err => console_error "Error logging socket connection:") ;;
              Ret (next (SocketUser (Some (JNum (userId decoded)))
                                    (JStr <$> role decoded))))
             (fun jwtError =>
                Ret (next_error (Error "Authentication error: Invalid token")))
     end)
    (fun error => Ret (next_error (Error "Internal server error"))).

(** ** middleware/auth.js *)

Definition authenticateRefreshToken (refreshToken : option jwt) : prog (outcome user) :=
  try_catch
    (match (if no_token refreshToken then None else refreshToken) with
     | None => Ret (respond 401 (message_body "Refresh token is required."))
     | Some refreshToken =>
         tokenResult ← await (SelectValidRefreshToken refreshToken);
         match tokenResult with
         | [] => Ret (respond 401 (message_body "Invalid or expired refresh token."))
         | _ =>
             try_catch
               (decoded ← jwt_verify refreshToken JWT_REFRESH_SECRET;
                userResult ← await (SelectActiveApprovedUser (userId decoded));
                match userResult with
                | [] =>
                    Ret (respond 401
                           (message_body "User not found, inactive, or not approved."))
                | u :: _ => Ret (next u)
                end)
               (fun jwtError =>
                  await (DeleteRefreshToken refreshToken) ;;
                  Ret (respond 401 (message_body "Invalid refresh token.")))
         end
     end)
    (fun error => Ret (respond 500 (message_body "Internal server error."))).

(** ** routes/auth.js *)

Definition user_json (u : user) : Json :=
  JObj [ ("id", JNum (u_id u));
         ("email", JStr (u_email u));
         ("firstName", JStr (u_first_name u));
         ("lastName", JStr (u_last_name u));
         ("role", JStr (u_role u));
         ("mfaEnabled", JBool (u_mfa_enabled u)) ].

Definition user_data_of (u : user) : user_data :=
  UserData (u_role u) (u_email u) (u_first_name u) (u_last_name u) (u_mfa_enabled u).

(** [!email || !password] on the fields of the request body. *)
Definition missing (field : option string) : bool := negb (truthy_reply field).

(** POST /api/auth/login, behind [loginRateLimiter]. *)
Definition auth_login (body_email body_password : option string) (ip : string)
  : prog (outcome unit) :=
  try_catch
    (if missing body_email || missing body_password
     then Ret (respond 400 (message_body "Email and password are required"))
     else
       let email := default "" body_email in
       let password := default "" body_password in
       userResult ← await (SelectUserByEmail (JS.toLowerCase email));
       match userResult with
       | [] =>
           detached
             (createAuditLog "FAILED_LOGIN" None
                (JObj [("email", JStr email); ("reason", JStr "User not found");
                       ("ip", JStr ip)]) None)
             (fun err => console_error "Error logging failed login:") ;;
           Ret (respond 401 (message_body "Invalid credentials"))
       | u :: _ =>
           if negb (u_is_active u) || negb (u_is_approved u)
           then
             detached
               (createAuditLog "FAILED_LOGIN" (Some (u_id u))
                  (JObj [("reason", JStr (if negb (u_is_active u) then "User inactive"
                                          else "User not approved"));
                         ("ip", JStr ip)]) None)
               (fun err => console_error "Error logging failed login:") ;;
             Ret (respond 401
                    (message_body
                       (if negb (u_is_active u)
                        then "Your account has been deactivated. Please contact an administrator."
                        else "Your account is pending approval. Please contact an administrator.")))
           else
             isPasswordValid ← await (BcryptCompare password (u_password u));
             if negb isPasswordValid
             then
               detached
                 (createAuditLog "FAILED_LOGIN" (Some (u_id u))
                    (JObj [("reason", JStr "Invalid password"); ("ip", JStr ip)]) None)
                 (fun err => console_error "Error logging failed login:") ;;
               Ret (respond 401 (message_body "Invalid credentials"))
             else
               '(accessToken, refreshToken) ←
                 sessionManager.createSession (u_id u) (u_role u)
                   (profile_fields (user_data_of u));
               await (InsertRefreshToken (u_id u) refreshToken Jwt.d7) ;;
               detached
                 (createAuditLog "LOGIN" (Some (u_id u)) (JObj [("ip", JStr ip)]) None)
                 (fun err => console_error "Error logging login:") ;;
               Ret (respond 200
                      (JObj [ ("accessToken", JStr (Jwt.text accessToken));
                              ("refreshToken", JStr (Jwt.text refreshToken));
                              ("user", user_json u) ]))
       end)
    (fun error =>
       console_error "Login error:" ;;
       Ret (respond 500 (message_body "Internal server error"))).

(** A route: the middleware, then the handler when the middleware calls
    [next()]. *)
Definition route {R} (middleware : prog (outcome R)) (handler : R -> prog (outcome unit))
  : prog (outcome unit) :=
  o ← middleware;
  match o with
  | next req => handler req
  | next_error e => Ret (next_error e)
  | respond status body => Ret (respond status body)
  end.

Definition post_auth_login (body_email body_password : option string) (ip : string)
  : prog (outcome unit) :=
  route (loginRateLimiter ip) (fun _ => auth_login body_email body_password ip).

(** POST /api/auth/refresh-token, behind [authenticateRefreshToken]. *)
Definition auth_refresh_token (refreshToken : jwt) (ip : string) (u : user)
  : prog (outcome unit) :=
  try_catch
    ('(accessToken, _) ← sessionManager.refreshSession refreshToken (user_data_of u);
     detached
       (createAuditLog "TOKEN_REFRESH" (Some (u_id u)) (JObj [("ip", JStr ip)]) None)
       (fun err => console_error "Error logging token refresh:") ;;
     Ret (respond 200
            (JObj [("accessToken", JStr (Jwt.text accessToken)); ("user", user_json u)])))
    (fun error =>
       console_error "Refresh token error:" ;;
       Ret (respond 500 (message_body "Internal server error"))).

Definition post_auth_refresh_token (refreshToken : option jwt) (ip : string)
  : prog (outcome unit) :=
  route (authenticateRefreshToken refreshToken)
        (auth_refresh_token (default (Malformed "") refreshToken) ip).

(** ** routes/manager-auth.js *)

(** POST /api/manager/auth/login.  (The [ip_address] and [user_agent]
    columns of the refresh-token row and the [profileImage] field of the
    response are left out: nothing here reads them.) *)
Definition manager_login (body_email body_password : option string) (ip userAgent : string)
  : prog (outcome unit) :=
  try_catch
    (if missing body_email || missing body_password
     then Ret (respond 400 (message_body "Email and password are required"))
     else
       let email := default "" body_email in
       let password := default "" body_password in
       userResult ← await (SelectUserByEmailRole email "manager");
       match userResult with
       | [] => Ret (respond 401 (message_body "Invalid email or password"))
       | u :: _ =>
           if negb (u_is_active u)
           then Ret (respond 401
                       (message_body "Account is inactive. Please contact an administrator."))
           else if negb (u_is_approved u)
           then Ret (respond 401
                       (message_body
                          "Account is pending approval. Please wait for admin approval."))
           else
             validPassword ← await (BcryptCompare password (u_password u));
             if negb validPassword
             then
               createAuditLog "MANAGER_LOGIN_FAILED" (Some (u_id u))
                 (JObj [("reason", JStr "Invalid password"); ("ip", JStr ip)]) None ;;
               Ret (respond 401 (message_body "Invalid email or password"))
             else
               accessToken ← jwt_sign (u_id u) (Some "manager") JWT_SECRET Jwt.m15;
               refreshToken ← jwt_sign (u_id u) (Some "manager") JWT_REFRESH_SECRET Jwt.d7;
               await (InsertRefreshToken (u_id u) refreshToken (7 * 86400)) ;;
               await (SET (session_key accessToken)
                          (JSON.stringify
                             (JObj [("userId", JNum (u_id u)); ("role", JStr "manager")]))
                          (Some 900)) ;;
               createAuditLog "MANAGER_LOGIN_SUCCESS" (Some (u_id u))
                 (JObj [("ip", JStr ip); ("userAgent", JStr userAgent)]) None ;;
               Ret (respond 200
                      (JObj [ ("message", JStr "Login successful");
                              ("accessToken", JStr (Jwt.text accessToken));
                              ("refreshToken", JStr (Jwt.text refreshToken));
                              ("user", JObj [ ("id", JNum (u_id u));
                                              ("email", JStr (u_email u));
                                              ("firstName", JStr (u_first_name u));
                                              ("lastName", JStr (u_last_name u));
                                              ("role", JStr (u_role u)) ]) ]))
       end)
    (fun error => Ret (next_error error)).

(** POST /api/manager/auth/refresh-token. *)
Definition manager_refresh_token (refreshToken : option jwt) : prog (outcome unit) :=
  try_catch
    (match (if no_token refreshToken then None else refreshToken) with
     | None => Ret (respond 400 (message_body "Refresh token is required"))
     | Some refreshToken =>
         tokenResult ← await (SelectValidRefreshToken refreshToken);
         match tokenResult with
         | [] => Ret (respond 401 (message_body "Invalid or expired refresh token"))
         | _ =>
             try_catch
               (decoded ← jwt_verify refreshToken JWT_REFRESH_SECRET;
                userResult ← await (SelectActiveApprovedUserRole (userId decoded) "manager");
                match userResult with
                | [] =>
                    Ret (respond 401
                           (message_body "User not found, inactive, or not a manager"))
                | u :: _ =>
                    accessToken ← jwt_sign (u_id u) (Some "manager") JWT_SECRET Jwt.m15;
                    await (SET (session_key accessToken)
                               (JSON.stringify
                                  (JObj [("userId", JNum (u_id u));
                                         ("role", JStr "manager")]))
                               (Some 900)) ;;
                    Ret (respond 200
                           (JObj [ ("message", JStr "Token refreshed successfully");
                                   ("accessToken", JStr (Jwt.text accessToken)) ]))
                end)
               (fun jwtError =>
                  await (DeleteRefreshToken refreshToken) ;;
                  Ret (respond 401 (message_body "Invalid refresh token")))
         end
     end)
    (fun error => Ret (next_error error)).

(** ** Requests one after the other *)

(** What happens between two requests: the clock moves on, and the
    connections get a new schedule of faults. *)
Definition later (seconds : Z) (redis_faults' pg_faults' : list bool) (w : world) : world :=
  set_pg_faults pg_faults' (set_redis_faults redis_faults' (set_clock (clock w + seconds) w)).

(** A request to a limited route, [seconds] after the one before. *)
Record request := Request {
  req_after : Z;
  req_ip : string;
  req_redis_faults : list bool;
}.

(** The limiter serving the requests in turn, each to its end before the
    next starts; the outcomes come out in the same order. *)
Fixpoint serve (o : options) (reqs : list request) (w : world)
  : list (settled (outcome unit)) * world :=
  match reqs with
  | [] => ([], w)
  | r :: rest =>
      let '(out, w1) :=
        run (createRateLimiter o (req_ip r))
            (later (req_after r) (req_redis_faults r) (pg_faults w) w) in
      let '(outs, w2) := serve o rest w1 in
      (out :: outs, w2)
  end.

(** The Redis commands among the commands a handler issues. *)
Definition is_redis (c : { X : Type & cmd X }) : bool :=
  match projT2 c with
  | GET _ | SET _ _ _ | SET_options _ _ _ | INCR _ | DEL _ | LPUSH _ _ | LTRIM _ _ _
  | PUBLISH _ _ => true
  | _ => false
  end.


(** The errors of the commands that were rejected while [p] ran. *)
Fixpoint rejections {A} (p : prog A) (w : world) : list error :=
  match p with
  | Ret _ | Throw _ => []
  | Perform c k =>
      let '(r, w') := exec c w in
      match r with
      | Rejected e => e :: rejections (k r) w'
      | Fulfilled _ => rejections (k r) w'
      end
  end.

(** A world with nothing in it, at time [t]. *)
Definition empty_world (t : Z) : world :=
  World t ∅ [] [] [] [] (fun plain hash => String.eqb plain hash) [] [] [].

(** ** Notions used to state the properties *)

(** The counter key of a client under a limiter. *)
Definition limiter_key (o : options) (ip : string) : string := keyPrefix o +:+ ip.

(** The options object a limiter passes to [set]. *)
Definition window_options (o : options) : list (string * Json) :=
  [("EX", JNum (JS.ceil_div_1000 (windowMs o)))].

(** The 429 response of a limiter. *)
Definition denial (o : options) : outcome unit :=
  respond 429 (JObj [("message", JStr (message o));
                     ("retryAfter", JNum (JS.ceil_div_1000 (windowMs o)))]).

(** The world after a line on the error console. *)
Definition logged (msg : string) (w : world) : world :=
  set_console (msg :: console w) w.

(** The count a live counter key holds, as the limiter reads it. *)
Definition stored_count (now : Z) (m : gmap string entry) (k : string) : option Z :=
  match Redis.lookup now m k with
  | Some (Entry (RString s) _) => JS.parseInt s
  | _ => None
  end.

(** No counter of the limiter, live or past its expiry, reads as a
    count above the maximum. *)
Definition counts_within (o : options) (m : gmap string entry) : Prop :=
  forall ip e s n,
    m !! limiter_key o ip = Some e -> value e = RString s ->
    JS.parseInt s = Some n -> n <= max o.

(** The Recent Significant Events list, when the key holds a list (or
    nothing). *)
Definition ring_buffer (w : world) : option (list string) :=
  match Redis.lookup (clock w) (redis w) "admin:notifications" with
  | None => Some []
  | Some (Entry (RList l) _) => Some l
  | Some (Entry (RString _) _) => None
  end.

(** The next statement on the database connection is rejected. *)
Definition pg_down (w : world) : bool :=
  match pg_faults w with
  | true :: _ => true
  | _ => false
  end.

(** None of the next [n] commands on the Redis connection is rejected
    for want of a connection. *)
Definition redis_up (n : nat) (w : world) : bool :=
  forallb negb (take n (redis_faults w)).

(** The row [createAuditLog] inserts, and the id it gets. *)
Definition next_log_id (w : world) : Z := Z.of_nat (S (length (audit_logs w))).

Definition new_log (action : string) (user_id : option Z) (details : Json)
    (ip : option string) (w : world) : audit_log :=
  AuditLog (next_log_id w) action user_id (JSON.stringify details) ip (clock w).

(** A handler that never publishes and never touches the Recent
    Significant Events list. *)
Definition silent {A} (p : prog A) : Prop :=
  forall w, published (snd (run p w)) = published w
            /\ redis (snd (run p w)) !! "admin:notifications"
               = redis w !! "admin:notifications"
            /\ clock (snd (run p w)) = clock w.

(** The seconds an assertion still has before its embedded expiry. *)
Definition remaining (t : jwt) (now : Z) : option Z :=
  match t with
  | Signed _ c => Some (exp c - now)
  | Malformed _ => None
  end.

(** The commands that publish, or that write under the key of the
    Recent Significant Events list. *)
Definition notifies {X} (c : cmd X) : bool :=
  match c with
  | PUBLISH _ _ => true
  | SET k _ _ | SET_options k _ _ | INCR k | DEL k | LPUSH k _ | LTRIM k _ _ =>
      String.eqb k notifications
  | _ => false
  end.

(** A world with three accounts: an active and approved one, a
    deactivated one, and a manager.  Passwords compare by equality. *)
Definition sample_world : world :=
  World 1000 ∅ [] [] []
        [ User 7 "ada@example.org" "correct horse" "Ada" "Lovelace" "admin" false true true;
          User 8 "bob@example.org" "battery staple" "Bob" "Babbage" "user" false false true;
          User 9 "eve@example.org" "tr0ub4dor" "Eve" "Hopper" "manager" false true true ]
        (fun plain hash => String.eqb plain hash) [] [] [].

(** * More of the same files

    The rest of utils/sessionManager.js and middleware/auth.js, the
    logout routes, the socket authentication of server.js, and the pure
    parts of utils/auditLogger.js ([getAuditLogs]) and
    utils/ssr-helpers.ts ([checkAuthSSR]). *)

(** ** More of the JavaScript runtime *)

(** [!v] on a JSON value. *)
Definition falsy (v : Json) : bool :=
  match v with
  | JNull | JBool false | JNum 0 | JStr "" => true
  | _ => false
  end.

(** The Number nearest to the integer [z], ties to the even one: [z]
    itself up to 2^53 in size, beyond that a multiple of the power of two
    that leaves 53 bits. *)
Definition round53 (z : Z) : Z :=
  let a := Z.abs z in
  let e := Z.log2 a - 52 in
  if e <=? 0 then z
  else
    let q := Z.shiftr a e in
    let r := a - Z.shiftl q e in
    let half := Z.shiftl 1 (e - 1) in
    let q' := if (half <? r) || ((half =? r) && Z.odd q) then q + 1 else q in
    Z.sgn z * Z.shiftl q' e.

(** The integer [z] as a Number; [None] is an infinity. *)
Definition to_Number (z : Z) : option Z :=
  let x := round53 z in
  if Z.abs x <? 2 ^ 1024 then Some x else None.

(** The digits [Number::toString] prints for the Number [x > 0], as the
    integer they spell: the multiple of the largest power of ten [p] that
    is read back as [x], the closest one when there are two.  The search
    starts at the power of ten above [x] and ends at [p = 1], where [x]
    itself is found. *)
Fixpoint shortest (fuel : nat) (x p : Z) : Z :=
  match fuel with
  | O => x
  | S f =>
      let lo := x / p * p in
      let hi := lo + p in
      let ok_lo := (0 <? lo) && (round53 lo =? x) in
      let ok_hi := round53 hi =? x in
      if ok_lo && ok_hi
      then if x - lo <? hi - x then lo
           else if hi - x <? x - lo then hi
           else if Z.even (x / p) then lo else hi
      else if ok_lo then lo
      else if ok_hi then hi
      else shortest f x (p / 10)
  end.

Fixpoint strip_zeros (fuel : nat) (s : Z) : Z :=
  match fuel with
  | O => s
  | S f => if (s mod 10 =? 0) && negb (s =? 0) then strip_zeros f (s / 10) else s
  end.

(** [String(x)] for a Number [x] that is whole: the shortest digits that
    are read back as [x], written out in full below 10^21 and as
    [d.ddde+n] from there on. *)
Definition Number_toString (x : Z) : string :=
  if x =? 0 then "0"
  else
    let a := Z.abs x in
    let n := String.length (JS.Z_to_string a) in
    let c := shortest (S n) a (10 ^ Z.of_nat n) in
    let text :=
      if c <? 10 ^ 21 then JS.Z_to_string c
      else
        let digits := String.length (JS.Z_to_string c) in
        match JS.Z_to_string (strip_zeros digits c) with
        | String d EmptyString => String d EmptyString
        | String d rest => String d ("." +:+ rest)
        | EmptyString => EmptyString
        end +:+ "e+" +:+ JS.Z_to_string (Z.of_nat digits - 1) in
    if x <? 0 then "-" +:+ text else text.

(** [String(v)] on a JSON value ([undefined] is [None]).  The numbers of
    [Json] are whole; [JNum z] is the Number that the digits of [z] are
    parsed to. *)
Fixpoint to_String (v : Json) : string :=
  match v with
  | JNull => "null"
  | JBool b => if b then "true" else "false"
  | JNum z =>
      match to_Number z with
      | Some x => Number_toString x
      | None => if z <? 0 then "-Infinity" else "Infinity"
      end
  | JStr s => s
  | JArr items =>
      (fix join (l : list Json) : string :=
         match l with
         | [] => ""
         | x :: l' =>
             let piece := match x with JNull => "" | _ => to_String x end in
             match l' with
             | [] => piece
             | _ => piece +:+ "," +:+ join l'
             end
         end) items
  | JObj _ => "[object Object]"
  end.

Definition String_of (v : option Json) : string :=
  match v with
  | Some j => to_String j
  | None => "undefined"
  end.

(** [a || b] where [a] is a string or [undefined] and [b] any value. *)
Definition or_else (a : option string) (b : option Json) : option Json :=
  match a with
  | Some s => if JS.truthy s then Some (JStr s) else b
  | None => b
  end.

(** ** utils/sessionManager.js: [validateSession] *)

(** The result is the session object, or [JNull] for [null]. *)
Definition validateSession (JSON_parse : string -> error + Json) (accessToken : jwt)
  : prog Json :=
  try_catch
    (sessionData ← await (GET (session_key accessToken));
     if negb (truthy_reply sessionData)
     then
       decoded ← jwt_verify accessToken JWT_SECRET;
       Ret (JObj [("userId", JNum (userId decoded))])
     else of_sum (JSON_parse (default "" sessionData)))
    (fun error => Ret JNull).

(** ** middleware/auth.js: the role checks *)

(** What [authenticateToken] attaches as [req.user]. *)
Record req_user := ReqUser {
  ru_id : Z;
  ru_email : string;
  ru_first_name : string;
  ru_last_name : string;
  ru_role : string;
  ru_mfa_enabled : bool;
}.

Definition req_user_of (u : user) : req_user :=
  ReqUser (u_id u) (u_email u) (u_first_name u) (u_last_name u) (u_role u)
          (u_mfa_enabled u).

(** The part of the request the role checks read besides [req.user]. *)
Record req_line := ReqLine {
  originalUrl : string;
  method : string;
  ip : string;
}.

Definition no_user {A} : prog A :=
  Throw (Error "TypeError: Cannot read properties of undefined (reading 'id')").

Definition access_details (requiredRole userRole : string) (r : req_line) : Json :=
  JObj [ ("requiredRole", JStr requiredRole);
         ("userRole", JStr userRole);
         ("endpoint", JStr (originalUrl r));
         ("method", JStr (method r));
         ("ip", JStr (ip r)) ].

Definition log_unauthorized (u : req_user) (details : Json) : prog unit :=
  detached (createAuditLog "UNAUTHORIZED_ACCESS" (Some (ru_id u)) details None)
           (fun err => console_error "Error logging unauthorized access:").

Definition isAdmin (user : option req_user) (r : req_line) : prog (outcome unit) :=
  match user with
  | Some u =>
      if String.eqb (ru_role u) "admin" then Ret (next tt)
      else
        log_unauthorized u (access_details "admin" (ru_role u) r) ;;
        Ret (respond 403 (message_body "Access denied. Admin role required."))
  | None => no_user
  end.

Definition isManager (user : option req_user) (r : req_line) : prog (outcome unit) :=
  match user with
  | Some u =>
      if String.eqb (ru_role u) "manager" then Ret (next tt)
      else
        log_unauthorized u (access_details "manager" (ru_role u) r) ;;
        Ret (respond 403 (message_body "Access denied. Manager role required."))
  | None => no_user
  end.

Definition isAdminOrManager (user : option req_user) (r : req_line)
  : prog (outcome unit) :=
  match user with
  | Some u =>
      if String.eqb (ru_role u) "admin" || String.eqb (ru_role u) "manager"
      then Ret (next tt)
      else
        log_unauthorized u (access_details "admin or manager" (ru_role u) r) ;;
        Ret (respond 403 (message_body "Access denied. Admin or Manager role required."))
  | None => no_user
  end.

(** [Number.parseInt(req.params.userId || req.body.userId)]: the digits
    at the head of the text of the value, as a Number.  [None] is [NaN]
    or an infinity: neither is equal to an id, and both are written as
    [null] in the details of an audit row.  (The two routes that use
    [isResourceOwner], GET and PUT /:id in routes/items.js, have no
    [userId] in their path: there [params_userId] is [None].) *)
Definition resourceUserId (params_userId : option string) (body_userId : option Json)
  : option Z :=
  JS.parseInt (String_of (or_else params_userId body_userId)) ≫= to_Number.

Definition isResourceOwner (user : option req_user) (params_userId : option string)
    (body_userId : option Json) (r : req_line) : prog (outcome unit) :=
  let resourceUserId := resourceUserId params_userId body_userId in
  match user with
  | Some u =>
      if bool_decide (Some (ru_id u) = resourceUserId) || String.eqb (ru_role u) "admin"
      then Ret (next tt)
      else
        log_unauthorized u
          (JObj [ ("requiredUserId", from_option JNum JNull resourceUserId);
                  ("endpoint", JStr (originalUrl r));
                  ("method", JStr (method r));
                  ("ip", JStr (ip r)) ]) ;;
        Ret (respond 403
               (message_body "Access denied. You can only access your own resources."))
  | None => no_user
  end.

(** ** The logout routes *)

(** A token field of the request, when it is there and not empty. *)
Definition given (token : option jwt) : option jwt :=
  if no_token token then None else token.

(** POST /api/auth/logout, behind [authenticateToken]. *)
Definition auth_logout (refreshToken accessToken : option jwt) (user : req_user)
    (ip : string) : prog (outcome unit) :=
  try_catch
    (match given refreshToken with
     | Some t => await (DeleteRefreshToken t)
     | None => Ret tt
     end ;;
     match given accessToken with
     | Some t => sessionManager.invalidateSession t
     | None => Ret tt
     end ;;
     detached (createAuditLog "LOGOUT" (Some (ru_id user)) (JObj [("ip", JStr ip)]) None)
              (fun err => console_error "Error logging logout:") ;;
     Ret (respond 200 (message_body "Logout successful")))
    (fun error =>
       console_error "Logout error:" ;;
       Ret (respond 500 (message_body "Internal server error"))).

(** POST /api/manager/auth/logout, behind [authenticateToken] and
    [isManager]. *)
Definition manager_logout (refreshToken accessToken : option jwt) (user : req_user)
    (ip : string) : prog (outcome unit) :=
  try_catch
    (match given accessToken with
     | None => Ret (respond 400 (message_body "Access token is required"))
     | Some accessToken =>
         await (DEL (session_key accessToken)) ;;
         match given refreshToken with
         | Some t => await (DeleteRefreshToken t)
         | None => Ret tt
         end ;;
         createAuditLog "MANAGER_LOGOUT" (Some (ru_id user)) (JObj [("ip", JStr ip)]) None ;;
         Ret (respond 200 (message_body "Logout successful"))
     end)
    (fun error => Ret (next_error error)).

(** ** server.js: the socket authentication of [io.use] *)

Definition io_use (JSON_parse : string -> error + Json) (token : option jwt)
  : prog (outcome Json) :=
  try_catch
    (match given token with
     | None => Ret (next_error (Error "Authentication error"))
     | Some token =>
         sessionData ← await (GET (session_key token));
         if negb (truthy_reply sessionData)
         then Ret (next_error (Error "Invalid token"))
         else
           session ← of_sum (JSON_parse (default "" sessionData));
           Ret (next session)
     end)
    (fun error => Ret (next_error (Error "Authentication error"))).

(** ** middleware/auth.js: [authenticateToken] *)

(** SELECT id, email, first_name, last_name, role, mfa_enabled
    FROM users WHERE id = $1 AND is_active = true

    The parameter is [sessionData.userId], which may be any JSON value
    or [undefined]; [read_id] is how the driver and the database read
    it against the id column: as NULL, as an integer, or with an error
    that rejects the statement. *)
Definition select_active_user (read_id : option Json -> error + option Z)
    (param : option Json) (w : world) : settled (list user) * world :=
  match on_pg w (fun w => (read_id param, w)) with
  | (Fulfilled (inr uid), w') =>
      (Fulfilled (filter (fun u => Some (u_id u) = uid /\ u_is_active u = true) (users w')),
       w')
  | (Fulfilled (inl e), w') => (Rejected e, w')
  | (Rejected e, w') => (Rejected e, w')
  end.

(** The middleware as a function on the world; [token] is the second
    word of the Authorization header. *)
Definition authenticateToken (JSON_parse : string -> error + Json)
    (read_id : option Json -> error + option Z) (token : option jwt) (w : world)
  : settled (outcome req_user) * world :=
  let caught (w : world) : settled (outcome req_user) * world :=
    (Fulfilled (respond 401 (message_body "Invalid or expired token")),
     logged "Authentication error:" w) in
  match given token with
  | None => (Fulfilled (respond 401 (message_body "Access token is required")), w)
  | Some token =>
      match run (validateSession JSON_parse token) w with
      | (Rejected error, w1) => caught w1
      | (Fulfilled sessionData, w1) =>
          if falsy sessionData
          then (Fulfilled (respond 401 (message_body "Invalid or expired token")), w1)
          else
            match select_active_user read_id (prop "userId" sessionData) w1 with
            | (Rejected error, w2) => caught w2
            | (Fulfilled [], w2) =>
                (Fulfilled (respond 401 (message_body "User not found or inactive")), w2)
            | (Fulfilled (user :: _), w2) => (Fulfilled (next (req_user_of user)), w2)
            end
      end
  end.

(** ** utils/auditLogger.js: the query of [getAuditLogs] *)

(** A query parameter: a filter value as it was passed, or
    [new Date(v)] of it. *)
Inductive sql_param :=
| PValue (v : Json)
| PDate (v : Json).

(** [conditions], [params] and [paramIndex] while the query is built. *)
Record audit_query := AuditQuery {
  conditions : list string;
  params : list sql_param;
  paramIndex : Z;
}.

(** One of the four blocks
    [if (v) { conditions.push(`<column> <op> $${paramIndex}`);
              params.push(...); paramIndex++ }]. *)
Definition add_filter (column_op : string) (param : Json -> sql_param) (v : Json)
    (q : audit_query) : audit_query :=
  if falsy v then q
  else AuditQuery (conditions q ++ [column_op +:+ "$" +:+ JS.Z_to_string (paramIndex q)])
                  (params q ++ [param v])
                  (paramIndex q + 1).

(** The filters of [getAuditLogs]; a filter that was not passed is
    [null]. *)
Definition audit_filters (userId action startDate endDate : Json) : audit_query :=
  add_filter "created_at <= " PDate endDate
    (add_filter "created_at >= " PDate startDate
       (add_filter "action = " PValue action
          (add_filter "user_id = " PValue userId (AuditQuery [] [] 1)))).

(** [conditions.join(" AND ")] *)
Fixpoint join_and (l : list string) : string :=
  match l with
  | [] => ""
  | [c] => c
  | c :: rest => c +:+ " AND " +:+ join_and rest
  end.

Definition whereClause (q : audit_query) : string :=
  match conditions q with
  | [] => ""
  | _ => "WHERE " +:+ join_and (conditions q)
  end.

Definition countQuery (q : audit_query) : string :=
  "SELECT COUNT(*) FROM audit_logs " +:+ whereClause q.

(** The end of the second query, [LIMIT $${paramIndex} OFFSET
    $${paramIndex + 1}], and its parameters, [[...params, limit,
    offset]]. *)
Definition limit_offset (q : audit_query) : string :=
  "LIMIT $" +:+ JS.Z_to_string (paramIndex q)
  +:+ " OFFSET $" +:+ JS.Z_to_string (paramIndex q + 1).

Definition page_params (q : audit_query) (limit offset : Json) : list sql_param :=
  (params q ++ [PValue limit; PValue offset])%list.

(** ** utils/ssr-helpers.ts: [checkAuthSSR] *)

(** What [fetch] gives for the verification request: it rejects, or
    there is a response, with its [ok] flag and what [response.json()]
    gives. *)
Inductive fetched :=
| FetchFailed (e : error)
| Response (ok : bool) (json : error + Json).

Inductive ssr_result :=
| Redirect (destination : string)
| Props (user : Json).

(** The result, the Set-Cookie header put on the response (if any), and
    the lines on the error console. *)
Record ssr := Ssr {
  ssr_result_of : ssr_result;
  ssr_set_cookie : list string;
  ssr_console : list string;
}.

(** [v.k]: reading a property of [undefined] or [null] throws. *)
Definition member (k : string) (v : option Json) : error + option Json :=
  match v with
  | None => inl (Error "TypeError: Cannot read properties of undefined")
  | Some JNull => inl (Error "TypeError: Cannot read properties of null")
  | Some j => inr (prop k j)
  end.

(** [role === r] *)
Definition is_role (r : string) (role : option Json) : bool :=
  match role with
  | Some (JStr s) => String.eqb s r
  | _ => false
  end.

(** [fetch] is given the Authorization header of the request to
    /api/auth/verify. *)
Definition checkAuthSSR (authCookie : option string) (fetch : string -> fetched)
    (resolvedUrl : string) : ssr :=
  let caught := Ssr (Redirect "/login") [] ["Auth check error:"] in
  if negb (truthy_reply authCookie) then Ssr (Redirect "/login") [] []
  else
    match fetch ("Bearer " +:+ default "" authCookie) with
    | FetchFailed error => caught
    | Response ok json =>
        if negb ok
        then Ssr (Redirect "/login")
                 ["auth-token=; Path=/; Max-Age=0"; "refresh-token=; Path=/; Max-Age=0"] []
        else
          match json with
          | inl error => caught
          | inr data =>
              match member "user" (Some data) with
              | inl error => caught
              | inr user =>
                  match member "role" user with
                  | inl error => caught
                  | inr role =>
                      let path := resolvedUrl in
                      let isAdmin := is_role "admin" role in
                      let isManager := is_role "manager" role in
                      if String.prefix "/admin" path && negb isAdmin
                      then Ssr (Redirect (if isManager then "/manager" else "/login")) [] []
                      else if String.prefix "/manager" path && negb isManager
                              && negb isAdmin
                      then Ssr (Redirect "/login") [] []
                      else Ssr (Props (default JNull user)) [] []
                  end
              end
          end
    end.

(** ** Notions used to state the further properties *)

(** The end of [authenticateRefreshToken] once the assertion, or the
    user lookup, has failed: the row is deleted and the answer is 401,
    or 500 when the deletion fails too. *)
Definition deleted_or_500 (t : jwt) (w : world) : settled (outcome user) * world :=
  match exec (DeleteRefreshToken t) w with
  | (Fulfilled _, w') => (Fulfilled (respond 401 (message_body "Invalid refresh token.")), w')
  | (Rejected _, w') =>
      (Fulfilled (respond 500 (message_body "Internal server error.")), w')
  end.

(** [w'] differs from [w] at most in the fault schedules and the
    console. *)
Definition same_data (w w' : world) : Prop :=
  clock w' = clock w /\ redis w' = redis w /\ published w' = published w
  /\ audit_logs w' = audit_logs w /\ refresh_tokens w' = refresh_tokens w
  /\ users w' = users w.


(** What a role check does when it refuses: the 403 with message [msg],
    and, when the database and the cache are up, the attempt as a
    significant event with [details]. *)
Definition recorded_denial (p : prog (outcome unit)) (u : req_user) (details : Json)
    (msg : string) (w : world) : Prop :=
  fst (run p w) = Fulfilled (respond 403 (message_body msg))
  /\ forall l : list string,
       pg_down w = false -> redis_up 3 w = true -> ring_buffer w = Some l ->
       let event := notification (next_log_id w) "UNAUTHORIZED_ACCESS" (Some (ru_id u))
                                 details (clock w) in
       ring_buffer (snd (run p w)) = Some (event :: take 99 l)
       /\ published (snd (run p w)) = (notifications, event) :: published w
       /\ audit_logs (snd (run p w))
          = (audit_logs w
             ++ [new_log "UNAUTHORIZED_ACCESS" (Some (ru_id u)) details None w])%list.

(** The requests of one client while the cache is reachable, each one
    so many seconds after the one before. *)
Definition from_client (ip : string) (delays : list Z) : list request :=
  map (fun d => Request d ip []) delays.


(** Two states that differ at most in the key [k] of the cache (and in
    the console and the faults still to come on the connection to the
    cache). *)
Definition same_but (k : string) (w w' : world) : Prop :=
  clock w' = clock w /\ published w' = published w /\ audit_logs w' = audit_logs w
  /\ refresh_tokens w' = refresh_tokens w /\ users w' = users w
  /\ bcrypt_compare w' = bcrypt_compare w /\ pg_faults w' = pg_faults w
  /\ forall k', k' <> k -> redis w' !! k' = redis w !! k'.
(** * Properties *)

(** ** The runtime functions on examples *)

Example parseInt_examples :
  JS.parseInt "5" = Some 5 /\ JS.parseInt "  -12abc" = Some (-12)
  /\ JS.parseInt "0x1f" = Some 31 /\ JS.parseInt "abc" = None
  /\ JS.parseInt "" = None.
Proof. repeat split. Qed.

Example Z_to_string_examples :
  JS.Z_to_string 1024 = "1024" /\ JS.Z_to_string 0 = "0" /\ JS.Z_to_string (-70) = "-70".
Proof. repeat split. Qed.

Example ceil_div_1000_examples :
  JS.ceil_div_1000 1500 = 2 /\ JS.ceil_div_1000 60000 = 60 /\ JS.ceil_div_1000 (-1500) = -1.
Proof. repeat split. Qed.

Example toISOString_examples :
  Date.toISOString 0 = "1970-01-01T00:00:00.000Z"
  /\ Date.toISOString 951868799 = "2000-02-29T23:59:59.000Z"
  /\ Date.toISOString 1000000000 = "2001-09-09T01:46:40.000Z".
Proof. vm_compute. repeat split. Qed.

Example stringify_example :
  JSON.stringify (JArr [JNull; JBool true; JNum (-3); JArr []; JObj []])
  = "[null,true,-3,[],{}]".
Proof. vm_compute. reflexivity. Qed.

Example string2ll_examples :
  Redis.string2ll "12" = Some 12 /\ Redis.string2ll "012" = None
  /\ Redis.string2ll " 1" = None /\ Redis.string2ll "-0" = None
  /\ Redis.string2ll "9223372036854775808" = None.
Proof. vm_compute. repeat split. Qed.

Example range_examples :
  Redis.range [1; 2; 3; 4; 5] 0 2 = [1; 2; 3]
  /\ Redis.range [1; 2; 3; 4; 5] 1 (-1) = [2; 3; 4; 5]
  /\ Redis.range [1; 2; 3; 4; 5] (-2) 99 = [4; 5]
  /\ Redis.range [1; 2; 3; 4; 5] 5 9 = [].
Proof. vm_compute. repeat split. Qed.

(** ** Decimal text and [parseInt] *)

Section Decimal.

Import JS.

Lemma digit_in_digit_char (d : Z) :
  0 <= d < 10 -> digit_in 10 (digit_char d) = Some d.
Proof.
  intros Hd.
  assert (d = 0 \/ d = 1 \/ d = 2 \/ d = 3 \/ d = 4 \/ d = 5 \/ d = 6 \/ d = 7
          \/ d = 8 \/ d = 9) as Hcases by lia.
  repeat (destruct Hcases as [-> | Hcases]; [reflexivity |]).
  subst d. reflexivity.
Qed.

Lemma digit_not_space (a : ascii) :
  is_digit a = true ->
  is_space a = false /\ Ascii.eqb a "-" = false /\ Ascii.eqb a "+" = false
  /\ Ascii.eqb a "x" = false /\ Ascii.eqb a "X" = false.
Proof.
  destruct a as [[] [] [] [] [] [] [] []]; vm_compute; intros H;
    first [discriminate H | repeat split].
Qed.

Lemma print_digits_step (f : nat) (n : Z) (suffix : string) :
  print_digits (S f) n suffix =
  if n <? 10 then String (digit_char (n mod 10)) suffix
  else print_digits f (n / 10) (String (digit_char (n mod 10)) suffix).
Proof. reflexivity. Qed.

Lemma print_digits_all_digits (f : nat) :
  forall n suffix, 0 <= n -> all_digits suffix = true ->
                   all_digits (print_digits f n suffix) = true.
Proof.
  induction f as [|f IH]; intros n suffix Hn Hs; [exact Hs |].
  rewrite print_digits_step.
  assert (all_digits (String (digit_char (n mod 10)) suffix) = true) as Hacc.
  { simpl. unfold is_digit.
    rewrite digit_in_digit_char by (apply Z.mod_pos_bound; lia). exact Hs. }
  destruct (n <? 10); [exact Hacc |].
  apply IH; [apply Z.div_pos; lia | exact Hacc].
Qed.

Lemma print_digits_nonempty (f : nat) :
  forall n suffix, suffix <> "" -> print_digits f n suffix <> "".
Proof.
  induction f as [|f IH]; intros n suffix Hs; [exact Hs |].
  rewrite print_digits_step. destruct (n <? 10); [discriminate |].
  apply IH. discriminate.
Qed.

Lemma print_digits_S_nonempty (f : nat) (n : Z) :
  print_digits (S f) n "" <> "".
Proof.
  rewrite print_digits_step. destruct (n <? 10); [discriminate |].
  apply print_digits_nonempty. discriminate.
Qed.

(** Reading back what was printed: the digits of [n] extend the number
    read so far. *)
Lemma digits_prefix_print_digits (f : nat) :
  forall n suffix, 0 <= n < 2 ^ Z.of_nat (S f) ->
  exists m, forall acc,
      digits_prefix 10 (print_digits (S f) n suffix) acc =
      digits_prefix 10 suffix (Some (default 0 acc * m + n)).
Proof.
  induction f as [|f IH]; intros n suffix Hn.
  - exists 10. intros acc. rewrite print_digits_step.
    change (2 ^ Z.of_nat 1) with 2 in Hn.
    replace (n <? 10) with true by (symmetry; apply Z.ltb_lt; lia).
    simpl. rewrite digit_in_digit_char by (apply Z.mod_pos_bound; lia).
    rewrite Z.mod_small by lia. reflexivity.
  - rewrite print_digits_step. destruct (Z.ltb_spec n 10) as [Hlt | Hge].
    + exists 10. intros acc. simpl.
      rewrite digit_in_digit_char by (apply Z.mod_pos_bound; lia).
      rewrite Z.mod_small by lia. reflexivity.
    + destruct (IH (n / 10) (String (digit_char (n mod 10)) suffix)) as [m Hm].
      { split; [apply Z.div_pos; lia |].
        apply Z.div_lt_upper_bound; [lia |].
        replace (Z.of_nat (S (S f))) with (Z.succ (Z.of_nat (S f))) in Hn by lia.
        rewrite Z.pow_succ_r in Hn by lia. lia. }
      exists (m * 10). intros acc. rewrite Hm. simpl.
      rewrite digit_in_digit_char by (apply Z.mod_pos_bound; lia).
      do 2 f_equal. simpl.
      pose proof (Z.div_mod n 10 ltac:(lia)). lia.
Qed.

Lemma parseInt_all_digits (s : string) :
  s <> "" -> all_digits s = true -> parseInt s = digits_prefix 10 s None.
Proof.
  intros Hne Hall. destruct s as [|a s]; [congruence |].
  simpl in Hall. apply andb_true_iff in Hall as [Ha Hs].
  destruct (digit_not_space a Ha) as (Hsp & Hm & Hp & _).
  unfold parseInt. simpl trimStart. rewrite Hsp, Hm, Hp.
  assert ((let '(radix, s3) :=
             match String a s with
             | String a0 (String x r) =>
                 if Ascii.eqb a0 "0" && (Ascii.eqb x "x" || Ascii.eqb x "X")
                 then (16, r) else (10, String a s)
             | _ => (10, String a s)
             end in Z.mul 1 <$> digits_prefix radix s3 None)
          = Z.mul 1 <$> digits_prefix 10 (String a s) None) as ->.
  { destruct s as [|x r]; [reflexivity |].
    simpl in Hs. apply andb_true_iff in Hs as [Hx _].
    destruct (digit_not_space x Hx) as (_ & _ & _ & Hx1 & Hx2).
    rewrite Hx1, Hx2, andb_false_r. reflexivity. }
  destruct (digits_prefix 10 (String a s) None) as [v|]; simpl; [|reflexivity].
  f_equal. lia.
Qed.

Lemma parseInt_minus_all_digits (s : string) :
  s <> "" -> all_digits s = true ->
  parseInt (String "-" s) = Z.mul (-1) <$> digits_prefix 10 s None.
Proof.
  intros Hne Hall. unfold parseInt. simpl trimStart.
  change (is_space "-") with false. cbv iota. change (Ascii.eqb "-" "-") with true.
  cbv iota. destruct s as [|a s]; [congruence |].
  destruct s as [|x r]; [reflexivity |].
  simpl in Hall. apply andb_true_iff in Hall as [_ Hs].
  apply andb_true_iff in Hs as [Hx _].
  destruct (digit_not_space x Hx) as (_ & _ & _ & Hx1 & Hx2).
  rewrite Hx1, Hx2, andb_false_r. reflexivity.
Qed.

Lemma fuel_enough (n : Z) :
  0 <= n -> 0 <= n < 2 ^ Z.of_nat (S (Z.to_nat (Z.log2 n))).
Proof.
  intros Hn. split; [exact Hn |].
  replace (Z.of_nat (S (Z.to_nat (Z.log2 n)))) with (Z.succ (Z.log2 n))
    by (pose proof (Z.log2_nonneg n); lia).
  destruct (Z.eq_dec n 0) as [-> | Hnz]; [reflexivity |].
  apply Z.log2_spec. lia.
Qed.

(** [parseInt] reads back the decimal text of any integer. *)
Lemma parseInt_Z_to_string (z : Z) : parseInt (Z_to_string z) = Some z.
Proof.
  unfold Z_to_string. destruct (Z.ltb_spec z 0) as [Hneg | Hpos].
  - rewrite parseInt_minus_all_digits.
    + destruct (digits_prefix_print_digits (Z.to_nat (Z.log2 (- z))) (- z) "")
        as [m Hm]; [apply fuel_enough; lia |].
      rewrite Hm. simpl. f_equal. lia.
    + apply print_digits_S_nonempty.
    + apply print_digits_all_digits; [lia | reflexivity].
  - rewrite parseInt_all_digits.
    + destruct (digits_prefix_print_digits (Z.to_nat (Z.log2 z)) z "")
        as [m Hm]; [apply fuel_enough; lia |].
      rewrite Hm. simpl. reflexivity.
    + apply print_digits_S_nonempty.
    + apply print_digits_all_digits; [lia | reflexivity].
Qed.



(** What [INCR] accepts is the canonical text of the number it reads,
    and [parseInt] reads the same number from it. *)
Lemma string2ll_canonical (s : string) (n : Z) :
  Redis.string2ll s = Some n ->
  s = Z_to_string n /\ parseInt s = Some n /\ Redis.int64_min <= n <= Redis.int64_max.
Proof.
  unfold Redis.string2ll. destruct (parseInt s) as [z|]; [|discriminate].
  destruct (String.eqb_spec (Z_to_string z) s) as [Heq | Hne]; simpl; [|discriminate].
  destruct (Z.leb_spec Redis.int64_min z); simpl; [|discriminate].
  destruct (Z.leb_spec z Redis.int64_max); simpl; [|discriminate].
  intros [= <-]. repeat split; auto.
Qed.

End Decimal.

(** ** Running programs *)

Lemma run_bind {A B} (p : prog A) (f : A -> prog B) (w : world) :
  run (bind p f) w =
  match run p w with
  | (Fulfilled a, w') => run (f a) w'
  | (Rejected e, w') => (Rejected e, w')
  end.
Proof.
  revert w. induction p as [a | e | X c k IH]; intros w; simpl; try reflexivity.
  destruct (exec c w) as [r w']. apply IH.
Qed.

Lemma run_try_catch {A} (p : prog A) (h : error -> prog A) (w : world) :
  run (try_catch p h) w =
  match run p w with
  | (Fulfilled a, w') => (Fulfilled a, w')
  | (Rejected e, w') => run (h e) w'
  end.
Proof.
  revert w. induction p as [a | e | X c k IH]; intros w; simpl; try reflexivity.
  destruct (exec c w) as [r w']. apply IH.
Qed.

Lemma run_await {X} (c : cmd X) (w : world) : run (await c) w = exec c w.
Proof.
  unfold await. simpl. destruct (exec c w) as [[x | e] w']; reflexivity.
Qed.

Lemma run_mbind {A B} (p : prog A) (f : A -> prog B) (w : world) :
  run (p ≫= f) w =
  match run p w with
  | (Fulfilled a, w') => run (f a) w'
  | (Rejected e, w') => (Rejected e, w')
  end.
Proof. apply run_bind. Qed.

Lemma rejections_bind {A B} (p : prog A) (f : A -> prog B) (w : world) :
  rejections (bind p f) w =
  (rejections p w ++
   match run p w with
   | (Fulfilled a, w') => rejections (f a) w'
   | (Rejected e, w') => []
   end)%list.
Proof.
  revert w. induction p as [a | e | X c k IH]; intros w; simpl; try reflexivity.
  destruct (exec c w) as [[x | e] w']; rewrite IH; reflexivity.
Qed.

Lemma rejections_mbind {A B} (p : prog A) (f : A -> prog B) (w : world) :
  rejections (p ≫= f) w =
  (rejections p w ++
   match run p w with
   | (Fulfilled a, w') => rejections (f a) w'
   | (Rejected e, w') => []
   end)%list.
Proof. apply rejections_bind. Qed.

Lemma rejections_try_catch {A} (p : prog A) (h : error -> prog A) (w : world) :
  rejections (try_catch p h) w =
  (rejections p w ++
   match run p w with
   | (Fulfilled a, w') => []
   | (Rejected e, w') => rejections (h e) w'
   end)%list.
Proof.
  revert w. induction p as [a | e | X c k IH]; intros w; simpl; try reflexivity.
  destruct (exec c w) as [[x | e] w']; rewrite IH; reflexivity.
Qed.

Lemma rejections_await {X} (c : cmd X) (w : world) :
  rejections (await c) w =
  match exec c w with
  | (Fulfilled _, _) => []
  | (Rejected e, _) => [e]
  end.
Proof.
  unfold await. simpl. destruct (exec c w) as [[x | e] w']; reflexivity.
Qed.

Lemma trace_bind {A B} (p : prog A) (f : A -> prog B) (w : world) :
  trace (bind p f) w =
  (trace p w ++
   match run p w with
   | (Fulfilled a, w') => trace (f a) w'
   | (Rejected e, w') => []
   end)%list.
Proof.
  revert w. induction p as [a | e | X c k IH]; intros w; simpl; try reflexivity.
  destruct (exec c w) as [r w']. rewrite IH. reflexivity.
Qed.

Lemma trace_mbind {A B} (p : prog A) (f : A -> prog B) (w : world) :
  trace (p ≫= f) w =
  (trace p w ++
   match run p w with
   | (Fulfilled a, w') => trace (f a) w'
   | (Rejected e, w') => []
   end)%list.
Proof. apply trace_bind. Qed.

Lemma trace_try_catch {A} (p : prog A) (h : error -> prog A) (w : world) :
  trace (try_catch p h) w =
  (trace p w ++
   match run p w with
   | (Fulfilled a, w') => []
   | (Rejected e, w') => trace (h e) w'
   end)%list.
Proof.
  revert w. induction p as [a | e | X c k IH]; intros w; simpl; try reflexivity.
  destruct (exec c w) as [r w']. rewrite IH. reflexivity.
Qed.

Lemma trace_await {X} (c : cmd X) (w : world) : trace (await c) w = [existT X c].
Proof.
  unfold await. simpl. destruct (exec c w) as [[x | e] w']; reflexivity.
Qed.

Lemma run_console_error (msg : string) (w : world) :
  run (console_error msg) w = (Fulfilled tt, set_console (msg :: console w) w).
Proof. reflexivity. Qed.

(** ** The rate limiter, one request *)

(** [SET k v "[object Object]"] is rejected, by the connection or by the
    server, and changes nothing but the schedule of faults. *)
Lemma exec_SET_options (k v : string) (options : list (string * Json)) (w : world) :
  (exists e, fst (exec (SET_options k v options) w) = Rejected e)
  /\ same_data w (snd (exec (SET_options k v options) w)).
Proof.
  simpl. unfold on_redis, same_data.
  destruct (redis_faults w) as [|[] fs]; simpl; (split; [eexists; reflexivity | tauto]).
Qed.

(** On a connection that is up it is the server that refuses it. *)
Lemma exec_SET_options_up (k v : string) (options : list (string * Json)) (w : world) :
  redis_faults w = [] ->
  exec (SET_options k v options) w = (Rejected Redis.syntax_error, set_redis (redis w) w).
Proof. intros Hf. simpl. unfold on_redis. rewrite Hf. reflexivity. Qed.

(** The run of the limiter, command by command. *)
Lemma run_createRateLimiter (o : options) (ip : string) (w : world) :
  run (createRateLimiter o ip) w =
  match exec (GET (limiter_key o ip)) w with
  | (Rejected _, w1) => (Fulfilled (next tt), logged "Rate limiter error:" w1)
  | (Fulfilled currentCount, w1) =>
      if at_limit currentCount (max o) then (Fulfilled (denial o), w1)
      else if truthy_reply currentCount
      then match exec (INCR (limiter_key o ip)) w1 with
           | (Fulfilled _, w2) => (Fulfilled (next tt), w2)
           | (Rejected _, w2) => (Fulfilled (next tt), logged "Rate limiter error:" w2)
           end
      else (Fulfilled (next tt),
            logged "Rate limiter error:"
                   (snd (exec (SET_options (limiter_key o ip) "1" (window_options o)) w1)))
  end.
Proof.
  unfold createRateLimiter, limiter_key, window_options.
  rewrite run_try_catch, run_mbind, run_await.
  destruct (exec (GET _) w) as [[currentCount | e] w1]; [|reflexivity].
  destruct (at_limit currentCount (max o)); [reflexivity |].
  rewrite run_mbind.
  destruct (truthy_reply currentCount).
  - rewrite run_mbind, run_await.
    destruct (exec (INCR _) w1) as [[n | e] w2]; reflexivity.
  - rewrite run_await.
    destruct (exec_SET_options (keyPrefix o +:+ ip) "1"
                [("EX", JNum (JS.ceil_div_1000 (windowMs o)))] w1) as [[e He] _].
    destruct (exec (SET_options _ _ _) w1) as [[n | e'] w2]; [discriminate He |].
    reflexivity.
Qed.

Lemma exec_GET_redis (k : string) (w : world) :
  redis (snd (exec (GET k) w)) = redis w.
Proof.
  simpl. unfold on_redis, Redis.get.
  destruct (redis_faults w) as [|[] fs]; try reflexivity;
    destruct (Redis.lookup _ _ _) as [[[s | l] t]|]; reflexivity.
Qed.

(** What a fulfilled [GET] returned is the live string under the key. *)
Lemma exec_GET_fulfilled (k : string) (w w1 : world) (reply : option string) :
  exec (GET k) w = (Fulfilled reply, w1) ->
  match reply with
  | Some s => exists t, Redis.lookup (clock w) (redis w) k = Some (Entry (RString s) t)
  | None => Redis.lookup (clock w) (redis w) k = None
  end.
Proof.
  simpl. unfold on_redis, Redis.get.
  destruct (redis_faults w) as [|[] fs]; try discriminate;
    destruct (Redis.lookup _ _ _) as [[[s | l] t]|]; intros [= <- <-]; eauto.
Qed.

Lemma at_limit_spec (reply : option string) (m : Z) :
  at_limit reply m = true <->
  exists s n, reply = Some s /\ JS.parseInt s = Some n /\ m <= n.
Proof.
  unfold at_limit. split.
  - destruct reply as [s|]; [|discriminate].
    intros H. apply andb_true_iff in H as [_ H].
    destruct (JS.parseInt s) as [n|] eqn:Hn; [|discriminate].
    apply Z.leb_le in H. exists s, n. auto.
  - intros (s & n & -> & Hn & Hle). rewrite Hn.
    apply andb_true_iff. split; [|apply Z.leb_le; exact Hle].
    destruct s; [discriminate Hn | reflexivity].
Qed.

Lemma rejections_createRateLimiter (o : options) (ip : string) (w : world) :
  rejections (createRateLimiter o ip) w =
  match exec (GET (limiter_key o ip)) w with
  | (Rejected e, w1) => [e]
  | (Fulfilled currentCount, w1) =>
      if at_limit currentCount (max o) then []
      else if truthy_reply currentCount
      then match exec (INCR (limiter_key o ip)) w1 with
           | (Fulfilled _, _) => []
           | (Rejected e, _) => [e]
           end
      else match exec (SET_options (limiter_key o ip) "1" (window_options o)) w1 with
           | (Fulfilled _, _) => []
           | (Rejected e, _) => [e]
           end
  end.
Proof.
  unfold createRateLimiter, limiter_key, window_options.
  rewrite rejections_try_catch, rejections_mbind, run_mbind, rejections_await, run_await.
  destruct (exec (GET _) w) as [[currentCount | e] w1]; [|reflexivity].
  destruct (at_limit currentCount (max o)); [reflexivity |].
  rewrite rejections_mbind, run_mbind.
  destruct (truthy_reply currentCount).
  - rewrite rejections_mbind, run_mbind, rejections_await, run_await.
    destruct (exec (INCR _) w1) as [[n | e] w2]; reflexivity.
  - rewrite rejections_await, run_await.
    destruct (exec (SET_options _ _ _) w1) as [[n | e] w2]; reflexivity.
Qed.

(** The limiter never throws: every run ends in [next()] or in the 429
    response. *)
Lemma createRateLimiter_outcome (o : options) (ip : string) (w : world) :
  fst (run (createRateLimiter o ip) w) = Fulfilled (next tt) \/
  fst (run (createRateLimiter o ip) w) = Fulfilled (denial o).
Proof.
  rewrite run_createRateLimiter.
  destruct (exec (GET _) w) as [[currentCount | e] w1]; [|left; reflexivity].
  destruct (at_limit currentCount (max o)); [right; reflexivity |].
  destruct (truthy_reply currentCount).
  - destruct (exec (INCR _) w1) as [[n | e] w2]; left; reflexivity.
  - left. reflexivity.
Qed.

(** C6. If any command the limiter sends to the counter store is
    rejected (the store is unreachable, or answers with an error), the
    request is let through with [next()]; and in no case does the
    limiter throw to its caller. *)
Theorem rate_limiter_fails_open (o : options) (ip : string) (w : world) :
  rejections (createRateLimiter o ip) w <> [] ->
  fst (run (createRateLimiter o ip) w) = Fulfilled (next tt)
  /\ forall e, fst (run (createRateLimiter o ip) w) <> Rejected e.
Proof.
  intros Hrej. split.
  - revert Hrej. rewrite rejections_createRateLimiter, run_createRateLimiter.
    destruct (exec (GET _) w) as [[currentCount | e] w1]; [|reflexivity].
    destruct (at_limit currentCount (max o)); [congruence |].
    destruct (truthy_reply currentCount).
    + destruct (exec (INCR _) w1) as [[n | e] w2]; reflexivity.
    + reflexivity.
  - intros e. destruct (createRateLimiter_outcome o ip w) as [-> | ->]; discriminate.
Qed.

(** A store that cannot be reached rejects the first command. *)
Lemma unreachable_store_rejects (o : options) (ip : string) (w : world) (fs : list bool) :
  redis_faults w = true :: fs ->
  rejections (createRateLimiter o ip) w <> [].
Proof.
  intros Hf. rewrite rejections_createRateLimiter. simpl. unfold on_redis.
  rewrite Hf. discriminate.
Qed.

Lemma rate_limiter_fails_open_witness :
  let w := set_redis_faults [true] (empty_world 1000) in
  rejections (loginRateLimiter "203.0.113.7") w <> []
  /\ fst (run (loginRateLimiter "203.0.113.7") w) = Fulfilled (next tt)
  /\ forall e, fst (run (loginRateLimiter "203.0.113.7") w) <> Rejected e.
Proof.
  intros w.
  assert (rejections (loginRateLimiter "203.0.113.7") w <> []) as H
    by (vm_compute; discriminate).
  split; [exact H |].
  exact (rate_limiter_fails_open loginRateLimiter_options "203.0.113.7" w H).
Defined.

Lemma exec_GET_inv (k : string) (w w1 : world) (r : settled (option string)) :
  exec (GET k) w = (r, w1) -> redis w1 = redis w /\ clock w1 = clock w.
Proof.
  simpl. unfold on_redis, Redis.get.
  destruct (redis_faults w) as [|[] fs]; try (intros [= <- <-]; split; reflexivity);
    destruct (Redis.lookup _ _ _) as [[[s | l] t]|]; intros [= <- <-]; split; reflexivity.
Qed.

(** A request is denied exactly on finding a live counter that reads as
    a number no smaller than the maximum, and the 429 response then
    carries the window length. *)
Lemma createRateLimiter_denies (o : options) (ip : string) (w : world)
    (status : Z) (body : Json) :
  fst (run (createRateLimiter o ip) w) = Fulfilled (respond status body) ->
  respond status body = denial o
  /\ snd (run (createRateLimiter o ip) w) = snd (exec (GET (limiter_key o ip)) w)
  /\ exists s t n,
      Redis.lookup (clock w) (redis w) (limiter_key o ip) = Some (Entry (RString s) t)
      /\ JS.parseInt s = Some n /\ max o <= n.
Proof.
  rewrite run_createRateLimiter.
  destruct (exec (GET _) w) as [[currentCount | e] w1] eqn:Hget; [|discriminate].
  destruct (at_limit currentCount (max o)) eqn:Hlim.
  - intros [= <- <-]. split; [reflexivity |]. split; [reflexivity |].
    apply at_limit_spec in Hlim as (s & n & -> & Hn & Hle).
    apply exec_GET_fulfilled in Hget as [t Ht]. exists s, t, n. auto.
  - destruct (truthy_reply currentCount).
    + destruct (exec (INCR _) w1) as [[n | e] w2]; discriminate.
    + discriminate.
Qed.

(** C7 (amended). Whenever the limiter denies a request (it found a live
    counter no smaller than the maximum), the response is 429 and its
    [retryAfter] is the full window length in seconds,
    [Math.ceil(windowMs / 1000)], whatever time the counter has left. *)
Theorem retryAfter_is_window_length (o : options) (ip : string) (w : world)
    (status : Z) (body : Json) :
  fst (run (createRateLimiter o ip) w) = Fulfilled (respond status body) ->
  status = 429
  /\ prop "retryAfter" body = Some (JNum (JS.ceil_div_1000 (windowMs o)))
  /\ exists n, stored_count (clock w) (redis w) (limiter_key o ip) = Some n /\ max o <= n.
Proof.
  intros H. apply createRateLimiter_denies in H as (Heq & _ & s & t & n & Hl & Hn & Hle).
  injection Heq as -> ->. repeat split.
  exists n. unfold stored_count. rewrite Hl. auto.
Qed.

Lemma retryAfter_is_window_length_witness :
  let w := set_redis {[ "rl:api:203.0.113.7" := Entry (RString "60") (Some 1042) ]}
                     (empty_world 1000) in
  fst (run (apiRateLimiter "203.0.113.7") w)
  = Fulfilled (respond 429 (JObj [("message", JStr "Too many API requests, please try again later");
                                  ("retryAfter", JNum 60)]))
  /\ (429 = 429
      /\ prop "retryAfter"
              (JObj [("message", JStr "Too many API requests, please try again later");
                     ("retryAfter", JNum 60)])
         = Some (JNum (JS.ceil_div_1000 (windowMs apiRateLimiter_options)))
      /\ exists n, stored_count (clock w) (redis w)
                                (limiter_key apiRateLimiter_options "203.0.113.7") = Some n
                   /\ max apiRateLimiter_options <= n).
Proof.
  intros w.
  assert (fst (run (apiRateLimiter "203.0.113.7") w)
          = Fulfilled (respond 429 (JObj [("message", JStr "Too many API requests, please try again later");
                                          ("retryAfter", JNum 60)]))) as H
    by (vm_compute; reflexivity).
  split; [exact H |].
  exact (retryAfter_is_window_length apiRateLimiter_options "203.0.113.7" w _ _ H).
Defined.

(** C7 as stated fails: a login counter at its maximum with 10 seconds
    of its window left is denied with [retryAfter] 300, the whole
    window, and not 10. *)
Lemma retryAfter_is_not_remaining_ttl :
  let w := set_redis {[ "rl:login:203.0.113.7" := Entry (RString "5") (Some 1010) ]}
                     (empty_world 1000) in
  fst (run (loginRateLimiter "203.0.113.7") w)
  = Fulfilled (respond 429 (JObj [("message", JStr "Too many login attempts, please try again after 5 minutes");
                                  ("retryAfter", JNum 300)]))
  /\ Redis.ttl (clock w) (redis w) "rl:login:203.0.113.7" = Some 10
  /\ 300 <> 10.
Proof. vm_compute. repeat split; discriminate. Qed.

(** ** The rate limiter, requests in sequence *)

Lemma lookup_raw (now : Z) (m : gmap string entry) (k : string) (e : entry) :
  Redis.lookup now m k = Some e -> m !! k = Some e.
Proof.
  unfold Redis.lookup. destruct (m !! k) as [e'|]; [|discriminate].
  destruct (Redis.live now e'); [auto | discriminate].
Qed.

Lemma counts_within_insert (o : options) (m : gmap string entry) (k : string)
    (n : Z) (t : option Z) :
  counts_within o m -> n <= max o ->
  counts_within o (<[k := Entry (RString (JS.Z_to_string n)) t]> m).
Proof.
  intros Hm Hn ip e s n'. destruct (decide (k = limiter_key o ip)) as [-> | Hne].
  - rewrite lookup_insert_eq. intros [= <-] [= <-].
    rewrite parseInt_Z_to_string. intros [= <-]. exact Hn.
  - rewrite lookup_insert_ne by exact Hne. apply Hm.
Qed.

(** What [INCR] does to the keyspace. *)
Lemma exec_INCR_redis (k : string) (w : world) :
  redis (snd (exec (INCR k) w)) = redis w
  \/ (Redis.lookup (clock w) (redis w) k = None
      /\ redis (snd (exec (INCR k) w)) = <[k := Entry (RString "1") None]> (redis w))
  \/ exists s t n,
      Redis.lookup (clock w) (redis w) k = Some (Entry (RString s) t)
      /\ Redis.string2ll s = Some n
      /\ redis (snd (exec (INCR k) w))
         = <[k := Entry (RString (JS.Z_to_string (n + 1))) t]> (redis w).
Proof.
  simpl. unfold on_redis, Redis.incr.
  destruct (redis_faults w) as [|[] fs]; [| left; reflexivity |];
    (destruct (Redis.lookup _ _ _) as [[[s | l] t]|] eqn:Hl;
     [ destruct (Redis.string2ll s) as [n|] eqn:Hs;
       [ destruct (n <? Redis.int64_max);
         [ right; right; exists s, t, n; auto | left; reflexivity ]
       | left; reflexivity ]
     | left; reflexivity
     | right; left; auto ]).
Qed.

(** One request keeps the counters within the maximum. *)
Lemma createRateLimiter_counts_within (o : options) (ip : string) (w : world) :
  counts_within o (redis w) ->
  counts_within o (redis (snd (run (createRateLimiter o ip) w))).
Proof.
  intros Hinv. rewrite run_createRateLimiter.
  destruct (exec (GET _) w) as [[currentCount | e] w1] eqn:Hget.
  2: { apply exec_GET_inv in Hget as [Hredis _]. simpl. rewrite Hredis. exact Hinv. }
  pose proof Hget as Hreply. apply exec_GET_fulfilled in Hreply.
  apply exec_GET_inv in Hget as [Hredis Hclock].
  destruct (at_limit currentCount (max o)) eqn:Hlim.
  { simpl. rewrite Hredis. exact Hinv. }
  assert (counts_within o (redis (snd (exec (INCR (limiter_key o ip)) w1)))
          \/ truthy_reply currentCount = false) as Hincr.
  { destruct currentCount as [s|]; [|right; reflexivity].
    destruct (JS.truthy s) eqn:Htruthy; [left | right; exact Htruthy].
    destruct Hreply as [t Hl].
    destruct (exec_INCR_redis (limiter_key o ip) w1) as [-> | [[Hnone _] | Hsome]].
    - rewrite Hredis. exact Hinv.
    - rewrite Hclock, Hredis, Hl in Hnone. discriminate.
    - destruct Hsome as (s' & t' & n & Hl' & Hs & ->).
      rewrite Hclock, Hredis, Hl in Hl'. injection Hl' as <- <-.
      apply string2ll_canonical in Hs as (_ & Hparse & _).
      rewrite Hredis. apply counts_within_insert; [exact Hinv |].
      unfold at_limit in Hlim. rewrite Htruthy, Hparse in Hlim. simpl in Hlim.
      apply Z.leb_gt in Hlim. lia. }
  destruct (truthy_reply currentCount).
  - destruct Hincr as [Hincr | ?]; [|discriminate].
    destruct (exec (INCR _) w1) as [[n | e] w2]; exact Hincr.
  - destruct (exec_SET_options (limiter_key o ip) "1" (window_options o) w1)
      as [_ (_ & Hset & _)].
    cbn [snd]. change (redis (logged ?m ?w0)) with (redis w0).
    rewrite Hset, Hredis. exact Hinv.
Qed.

Lemma serve_counts_within (o : options) (reqs : list request) :
  forall w, counts_within o (redis w) ->
            counts_within o (redis (snd (serve o reqs w))).
Proof.
  induction reqs as [|r rest IH]; intros w Hinv; [exact Hinv |].
  cbn [serve].
  set (wl := later (req_after r) (req_redis_faults r) (pg_faults w) w).
  assert (counts_within o (redis wl)) as Hl by exact Hinv.
  pose proof (createRateLimiter_counts_within o (req_ip r) wl Hl) as H1.
  destruct (run (createRateLimiter o (req_ip r)) wl) as [out w1].
  specialize (IH w1 H1).
  destruct (serve o rest w1) as [outs w2]. exact IH.
Qed.

Lemma counts_within_empty (o : options) : counts_within o ∅.
Proof. intros ip e s n H. rewrite lookup_empty in H. discriminate. Qed.

Lemma counts_within_stored_count (o : options) (now : Z) (m : gmap string entry)
    (ip : string) (n : Z) :
  counts_within o m ->
  stored_count now m (limiter_key o ip) = Some n ->
  n <= max o.
Proof.
  unfold stored_count. intros Hinv.
  destruct (Redis.lookup _ _ _) as [[[s | l] t]|] eqn:Hl; try discriminate.
  intros Hn. exact (Hinv ip _ s n (lookup_raw _ _ _ _ Hl) eq_refl Hn).
Qed.

(** C10. A denied request leaves the whole keyspace, and so the counter
    and its expiry, as it was; and serving requests one after the other,
    from a keyspace in which no counter reads above the maximum, never
    leaves a stored count above the maximum. *)
Theorem denial_is_frame_and_counts_stay_bounded (o : options) :
  (forall ip w status body,
      fst (run (createRateLimiter o ip) w) = Fulfilled (respond status body) ->
      redis (snd (run (createRateLimiter o ip) w)) = redis w)
  /\ (forall reqs w ip n,
        counts_within o (redis w) ->
        let w' := snd (serve o reqs w) in
        stored_count (clock w') (redis w') (limiter_key o ip) = Some n ->
        n <= max o).
Proof.
  split.
  - intros ip w status body H.
    apply createRateLimiter_denies in H as (_ & -> & _). apply exec_GET_redis.
  - intros reqs w ip n Hinv w' Hn.
    eapply counts_within_stored_count; [|exact Hn].
    apply serve_counts_within; assumption.
Qed.

Lemma denial_is_frame_and_counts_stay_bounded_witness :
  let o := loginRateLimiter_options in
  let w := set_redis (<["rl:login:203.0.113.7" := Entry (RString (JS.Z_to_string 4))
                                                        (Some 1200)]> ∅)
                     (empty_world 1000) in
  let w' := snd (serve o (replicate 7 (Request 1 "203.0.113.7" [])) w) in
  counts_within o (redis w)
  /\ fst (serve o (replicate 7 (Request 1 "203.0.113.7" [])) w)
     = Fulfilled (next tt) :: replicate 6 (Fulfilled (denial o))
  /\ stored_count (clock w') (redis w') (limiter_key o "203.0.113.7") = Some 5
  /\ 5 <= max o.
Proof.
  intros o w w'.
  assert (counts_within o (redis w)) as Hinv
    by (apply counts_within_insert; [apply counts_within_empty | vm_compute; discriminate]).
  assert (stored_count (clock w') (redis w') (limiter_key o "203.0.113.7") = Some 5) as Hn
    by (vm_compute; reflexivity).
  split; [exact Hinv |]. split; [vm_compute; reflexivity |]. split; [exact Hn |].
  exact (proj2 (denial_is_frame_and_counts_stay_bounded o)
               (replicate 7 (Request 1 "203.0.113.7" [])) w
               "203.0.113.7" 5 Hinv Hn).
Defined.

(** ** The commands of one request *)


(** A request that reads no count changes nothing in the keyspace: the
    [SET] that should create the counter is refused. *)
Lemma createRateLimiter_creates_nothing (o : options) (ip : string) (w : world) :
  Redis.lookup (clock w) (redis w) (limiter_key o ip) = None ->
  fst (run (createRateLimiter o ip) w) = Fulfilled (next tt)
  /\ redis (snd (run (createRateLimiter o ip) w)) = redis w.
Proof.
  intros Hl. rewrite run_createRateLimiter.
  destruct (exec (GET _) w) as [[currentCount | e] w1] eqn:Hget.
  2: { apply exec_GET_inv in Hget as [Hredis _]. split; [reflexivity | exact Hredis]. }
  pose proof (exec_GET_fulfilled _ _ _ _ Hget) as Hreply.
  apply exec_GET_inv in Hget as [Hredis _].
  destruct currentCount as [s|]; [destruct Hreply as [t Ht]; congruence |].
  simpl (at_limit _ _). simpl (truthy_reply _). cbv iota.
  destruct (exec_SET_options (limiter_key o ip) "1" (window_options o) w1)
    as [_ (_ & Hset & _)].
  split; [reflexivity |]. cbn [snd]. change (redis (logged ?m ?w0)) with (redis w0).
  rewrite Hset. exact Hredis.
Qed.




(** Two requests in flight at once can both read the counter before
    either writes it: with the counter at 4 of 5, both are let through
    and the counter ends at 6. *)
Lemma concurrent_requests_pass_the_limit :
  let w := set_redis {[ "rl:login:203.0.113.7" := Entry (RString "4") (Some 1200) ]}
                     (empty_world 1000) in
  let '(a, b, w') :=
    interleave [true; false] (loginRateLimiter "203.0.113.7")
               (loginRateLimiter "203.0.113.7") w in
  a = Fulfilled (next tt) /\ b = Fulfilled (next tt)
  /\ stored_count (clock w') (redis w') "rl:login:203.0.113.7" = Some 6.
Proof. vm_compute. repeat split. Qed.

(** ** Windows and maxima *)

Lemma ttl_insert (now seconds : Z) (m : gmap string entry) (k : string) (v : rvalue) :
  0 < seconds ->
  Redis.ttl now (<[k := Entry v (Some (now + seconds))]> m) k = Some seconds.
Proof.
  intros Hpos. unfold Redis.ttl, Redis.lookup, Redis.live.
  rewrite lookup_insert_eq. simpl.
  replace (now <? now + seconds) with true by (symmetry; apply Z.ltb_lt; lia).
  simpl. f_equal. lia.
Qed.

(** With the store reachable, a request that finds the live count [n]
    is denied exactly when [n] has reached the maximum. *)
Lemma denied_iff_at_maximum (o : options) (ip : string) (w : world) (n : Z) :
  redis_faults w = [] ->
  stored_count (clock w) (redis w) (limiter_key o ip) = Some n ->
  fst (run (createRateLimiter o ip) w) = Fulfilled (denial o) <-> max o <= n.
Proof.
  intros Hf Hn. unfold stored_count in Hn.
  destruct (Redis.lookup _ _ _) as [[[s | l] t]|] eqn:Hl; try discriminate.
  split.
  - intros H. apply createRateLimiter_denies in H as (_ & _ & s' & t' & n' & Hl' & Hn' & Hle).
    rewrite Hl in Hl'. injection Hl' as <- <-. congruence.
  - intros Hle. rewrite run_createRateLimiter.
    simpl. unfold on_redis, Redis.get. rewrite Hf, Hl.
    replace (at_limit (Some s) (max o)) with true; [reflexivity |].
    symmetry. apply at_limit_spec. exists s, n. auto.
Qed.

(** Requests served one after the other, from a keyspace that holds no
    counter for any of them, are all let through and leave the keyspace
    as it was. *)
Lemma serve_creates_nothing (o : options) (reqs : list request) :
  forall w,
    (forall r, r ∈ reqs -> redis w !! limiter_key o (req_ip r) = None) ->
    Forall (fun out => out = Fulfilled (next tt)) (fst (serve o reqs w))
    /\ redis (snd (serve o reqs w)) = redis w.
Proof.
  induction reqs as [|r rest IH]; intros w Hnone; [split; [constructor | reflexivity] |].
  cbn [serve].
  set (wl := later (req_after r) (req_redis_faults r) (pg_faults w) w).
  assert (Redis.lookup (clock wl) (redis wl) (limiter_key o (req_ip r)) = None) as Hl.
  { unfold Redis.lookup. change (redis wl) with (redis w).
    rewrite (Hnone r) by apply list_elem_of_here. reflexivity. }
  destruct (createRateLimiter_creates_nothing o (req_ip r) wl Hl) as [Hout Hredis].
  destruct (run (createRateLimiter o (req_ip r)) wl) as [out w1].
  cbn [fst snd] in Hout, Hredis. change (redis wl) with (redis w) in Hredis.
  destruct (IH w1) as [Houts Hredis'].
  { intros r' Hr'. rewrite Hredis. apply Hnone. apply list_elem_of_further. exact Hr'. }
  destruct (serve o rest w1) as [outs w2]. cbn [fst snd] in *.
  split; [constructor; assumption | congruence].
Qed.

(** C8. The three pre-configured limiters of rateLimiter.js are created
    with these windows and maxima: login attempts 5 and 5 minutes (not
    15), password-reset requests 3 and 1 hour, general API requests 60
    and 1 minute.  None of them enforces its pair: a limiter creates no
    counter, so requests served one after the other, from a keyspace
    that holds no counter for them, are all let through, however many
    they are and however the cache behaves, and the keyspace is left as
    it was. *)
Theorem preconfigured_limiters_never_limit (o : options) (reqs : list request)
    (w : world) :
  o ∈ [loginRateLimiter_options; passwordResetRateLimiter_options;
       apiRateLimiter_options] ->
  (forall r, r ∈ reqs -> redis w !! limiter_key o (req_ip r) = None) ->
  (o = loginRateLimiter_options -> windowMs o = 5 * 60 * 1000 /\ max o = 5)
  /\ (o = passwordResetRateLimiter_options -> windowMs o = 60 * 60 * 1000 /\ max o = 3)
  /\ (o = apiRateLimiter_options -> windowMs o = 60 * 1000 /\ max o = 60)
  /\ Forall (fun out => out = Fulfilled (next tt)) (fst (serve o reqs w))
  /\ redis (snd (serve o reqs w)) = redis w.
Proof.
  intros _ Hnone.
  split; [intros ->; split; reflexivity |].
  split; [intros ->; split; reflexivity |].
  split; [intros ->; split; reflexivity |].
  apply serve_creates_nothing. exact Hnone.
Qed.

Lemma preconfigured_limiters_never_limit_witness :
  let o := loginRateLimiter_options in
  let reqs := replicate 7 (Request 1 "203.0.113.7" []) in
  max o = 5
  /\ windowMs o <> 15 * 60 * 1000
  /\ fst (serve o reqs (empty_world 1000)) = replicate 7 (Fulfilled (next tt))
  /\ redis (snd (serve o reqs (empty_world 1000))) = ∅.
Proof.
  intros o reqs.
  destruct (preconfigured_limiters_never_limit o reqs (empty_world 1000))
    as (Hlogin & _ & _ & _ & Hredis).
  { apply list_elem_of_here. }
  { intros r _. apply lookup_empty. }
  split; [exact (proj2 (Hlogin eq_refl)) |]. split; [vm_compute; discriminate |].
  split; [vm_compute; reflexivity | exact Hredis].
Defined.

(** The options the manager login route gives to its own limiter. *)
Lemma manager_loginLimiter_options :
  windowMs manager_loginLimiter = 15 * 60 * 1000 /\ max manager_loginLimiter = 5.
Proof. split; reflexivity. Qed.

(** Push [run] through the combinators, up to the next command whose
    outcome has to be considered. *)
Ltac run_simpl :=
  repeat (progress (rewrite ?run_try_catch, ?run_mbind, ?run_await;
                    simpl (exec Now _); simpl (run (Ret _) _); simpl (run (Throw _) _);
                    cbv iota beta)).

(** ** The audit log *)

Lemma run_createAuditLog (action : string) (user_id : option Z) (details : Json)
    (ip : option string) (w : world) :
  run (createAuditLog action user_id details ip) w =
  match exec (InsertAuditLog action user_id (JSON.stringify details) ip) w with
  | (Rejected _, w1) => (Fulfilled None, logged "Error creating audit log:" w1)
  | (Fulfilled result, w1) =>
      if includes significantActions action
      then
        match exec (LPUSH notifications
                          (notification result action user_id details (clock w1))) w1 with
        | (Rejected _, w2) => (Fulfilled None, logged "Error creating audit log:" w2)
        | (Fulfilled _, w2) =>
            match exec (LTRIM notifications 0 99) w2 with
            | (Rejected _, w3) => (Fulfilled None, logged "Error creating audit log:" w3)
            | (Fulfilled _, w3) =>
                match exec (PUBLISH notifications
                                    (notification result action user_id details (clock w3)))
                           w3 with
                | (Rejected _, w4) =>
                    (Fulfilled None, logged "Error creating audit log:" w4)
                | (Fulfilled _, w4) => (Fulfilled (Some result), w4)
                end
            end
        end
      else (Fulfilled (Some result), w1)
  end.
Proof.
  unfold createAuditLog, notifications. run_simpl.
  destruct (exec (InsertAuditLog _ _ _ _) w) as [[result | e] w1]; [|reflexivity].
  destruct (includes significantActions action); [|reflexivity].
  run_simpl.
  destruct (exec (LPUSH _ _) w1) as [[n | e] w2]; [|reflexivity].
  run_simpl.
  destruct (exec (LTRIM _ _ _) w2) as [[u | e] w3]; [|reflexivity].
  run_simpl.
  destruct (exec (PUBLISH _ _) w3) as [[n' | e] w4]; reflexivity.
Qed.

Ltac rej_simpl :=
  repeat (progress (rewrite ?rejections_try_catch, ?rejections_mbind, ?rejections_await,
                      ?run_try_catch, ?run_mbind, ?run_await;
                    simpl (exec Now _); simpl (run (Ret _) _); simpl (run (Throw _) _);
                    simpl (rejections (Ret _) _); simpl (rejections (Throw _) _);
                    cbv iota beta)).

Lemma rejections_createAuditLog (action : string) (user_id : option Z) (details : Json)
    (ip : option string) (w : world) :
  rejections (createAuditLog action user_id details ip) w =
  match exec (InsertAuditLog action user_id (JSON.stringify details) ip) w with
  | (Rejected e, w1) => [e]
  | (Fulfilled result, w1) =>
      if includes significantActions action
      then
        match exec (LPUSH notifications
                          (notification result action user_id details (clock w1))) w1 with
        | (Rejected e, w2) => [e]
        | (Fulfilled _, w2) =>
            match exec (LTRIM notifications 0 99) w2 with
            | (Rejected e, w3) => [e]
            | (Fulfilled _, w3) =>
                match exec (PUBLISH notifications
                                    (notification result action user_id details (clock w3)))
                           w3 with
                | (Rejected e, w4) => [e]
                | (Fulfilled _, w4) => []
                end
            end
        end
      else []
  end.
Proof.
  unfold createAuditLog, notifications. rej_simpl.
  destruct (exec (InsertAuditLog _ _ _ _) w) as [[result | e] w1]; [|reflexivity].
  destruct (includes significantActions action); [|reflexivity].
  rej_simpl.
  destruct (exec (LPUSH _ _) w1) as [[n | e] w2]; [|reflexivity].
  rej_simpl.
  destruct (exec (LTRIM _ _ _) w2) as [[u | e] w3]; [|reflexivity].
  rej_simpl.
  destruct (exec (PUBLISH _ _) w3) as [[n' | e] w4]; reflexivity.
Qed.

Lemma exec_InsertAuditLog (action : string) (user_id : option Z) (details : Json)
    (ip : option string) (w : world) :
  exec (InsertAuditLog action user_id (JSON.stringify details) ip) w =
  if pg_down w
  then (Rejected (DatabaseError "connection terminated"), set_pg_faults (tail (pg_faults w)) w)
  else (Fulfilled (next_log_id w),
        set_audit_logs (audit_logs w ++ [new_log action user_id details ip w])
                       (set_pg_faults (tail (pg_faults w)) w)).
Proof.
  unfold pg_down. simpl. unfold on_pg.
  destruct (pg_faults w) as [|[] fs] eqn:Hf; try reflexivity.
  unfold new_log, next_log_id. simpl. destruct w; simpl in *. subst. reflexivity.
Qed.

(** Redis commands leave the tables and the clock alone. *)
Lemma on_redis_frame {X} (w : world)
    (f : gmap string entry -> settled X * gmap string entry) :
  audit_logs (snd (on_redis w f)) = audit_logs w
  /\ clock (snd (on_redis w f)) = clock w
  /\ published (snd (on_redis w f)) = published w
  /\ refresh_tokens (snd (on_redis w f)) = refresh_tokens w.
Proof.
  unfold on_redis. destruct (redis_faults w) as [|[] fs];
    try destruct (f (redis w)) as [r m]; repeat split.
Qed.

Lemma exec_frame {X} (c : cmd X) (w : world) :
  is_redis (existT X c) = true ->
  audit_logs (snd (exec c w)) = audit_logs w /\ clock (snd (exec c w)) = clock w.
Proof.
  destruct c; simpl; try discriminate; intros _;
    try (split; apply on_redis_frame).
  destruct (redis_faults w) as [|[] fs]; split; reflexivity.
Qed.

(** C4 (amended). [createAuditLog] never throws.  It returns the id of
    the new row exactly when none of the commands it awaits is rejected,
    and [null] as soon as one is: the insert, or, for a significant
    action, the push, the trim or the publish that follow it.  The row
    itself is written exactly when the insert goes through, so a failure
    of the push, trim or publish gives [null] for an event that is in
    the log. *)
Theorem createAuditLog_result (action : string) (user_id : option Z) (details : Json)
    (ip : option string) (w : world) :
  let p := createAuditLog action user_id details ip in
  fst (run p w)
  = (if decide (rejections p w = []) then Fulfilled (Some (next_log_id w))
     else Fulfilled None)
  /\ audit_logs (snd (run p w))
     = (if pg_down w then audit_logs w
        else (audit_logs w ++ [new_log action user_id details ip w])%list)
  /\ (pg_down w = true -> rejections p w <> [])
  /\ (pg_down w = false -> includes significantActions action = false ->
      rejections p w = []).
Proof.
  intros p. unfold p.
  rewrite run_createAuditLog, rejections_createAuditLog, exec_InsertAuditLog.
  destruct (pg_down w).
  { repeat split; try discriminate. }
  destruct (includes significantActions action).
  2: { repeat split; try discriminate. }
  set (w1 := set_audit_logs _ _).
  assert (audit_logs w1 = (audit_logs w ++ [new_log action user_id details ip w])%list)
    as Hlogs by reflexivity.
  pose proof (exec_frame (LPUSH notifications
                (notification (next_log_id w) action user_id details (clock w1))) w1
                eq_refl) as [Hl2 Hc2].
  destruct (exec (LPUSH _ _) w1) as [[n | e] w2]; simpl in Hl2, Hc2.
  2: { repeat split; try discriminate. simpl. congruence. }
  pose proof (exec_frame (LTRIM notifications 0 99) w2 eq_refl) as [Hl3 Hc3].
  destruct (exec (LTRIM _ _ _) w2) as [[u | e] w3]; simpl in Hl3, Hc3.
  2: { repeat split; try discriminate. simpl. congruence. }
  pose proof (exec_frame (PUBLISH notifications
                (notification (next_log_id w) action user_id details (clock w3))) w3
                eq_refl) as [Hl4 Hc4].
  destruct (exec (PUBLISH _ _) w3) as [[n' | e] w4]; simpl in Hl4, Hc4.
  2: { repeat split; try discriminate. simpl. congruence. }
  repeat split; try discriminate. simpl. congruence.
Qed.

Lemma createAuditLog_result_witness :
  let w := set_pg_faults [true] (empty_world 1000) in
  let p := createAuditLog "LOGIN" (Some 7) (JObj [("ip", JStr "203.0.113.7")]) None in
  pg_down w = true
  /\ rejections p w <> []
  /\ fst (run p w) = Fulfilled None
  /\ audit_logs (snd (run p w)) = [].
Proof.
  intros w p.
  assert (pg_down w = true) as Hdown by reflexivity.
  destruct (createAuditLog_result "LOGIN" (Some 7) (JObj [("ip", JStr "203.0.113.7")])
              None w) as (Hres & Hlogs & Hrej & _).
  split; [exact Hdown |]. split; [exact (Hrej Hdown) |].
  split; [vm_compute; reflexivity | exact Hlogs].
Defined.

(** C4 as stated fails: for a significant action whose insert goes
    through, a failing push gives [null] although the row is in the
    log. *)
Lemma null_although_the_row_is_written :
  let w := set_redis_faults [true] (empty_world 1000) in
  let p := createAuditLog "SECURITY_ALERT" (Some 7) (JObj []) None in
  pg_down w = false
  /\ audit_logs (snd (run p w)) = [AuditLog 1 "SECURITY_ALERT" (Some 7) "{}" None 1000]
  /\ fst (run p w) = Fulfilled None
  /\ fst (run p w) <> Fulfilled (Some 1).
Proof. vm_compute. repeat split. discriminate. Qed.

(** ** The Recent Significant Events list *)

Lemma range_0_99 {A} (l : list A) : Redis.range l 0 99 = take 100 l.
Proof.
  unfold Redis.range. simpl. change (Z.to_nat 0) with 0%nat. rewrite drop_0.
  destruct (Z.leb_spec (Z.of_nat (length l)) 0) as [Hlen | Hlen].
  - destruct l; [reflexivity | simpl in Hlen; lia].
  - rewrite Z.sub_0_r.
    destruct (Z.le_ge_cases (Z.of_nat (length l)) 100) as [Hle | Hge].
    + rewrite Z.min_r by lia.
      replace (Z.to_nat (Z.of_nat (length l) - 1 + 1)) with (length l) by lia.
      rewrite firstn_all. symmetry. apply take_ge. lia.
    + rewrite Z.min_l by lia. reflexivity.
Qed.

Lemma lookup_insert_live (now : Z) (m : gmap string entry) (k : string) (e e' : entry) :
  Redis.lookup now m k = Some e -> expiry e' = expiry e ->
  Redis.lookup now (<[k := e']> m) k = Some e'.
Proof.
  unfold Redis.lookup, Redis.live. rewrite lookup_insert_eq.
  destruct (m !! k) as [e0|]; [|discriminate]. intros H Hexp. rewrite Hexp.
  destruct (expiry e0) as [t|] eqn:He0.
  - destruct (now <? t) eqn:Hlt; [|discriminate]. injection H as <-.
    rewrite He0, Hlt. reflexivity.
  - injection H as <-. rewrite He0. reflexivity.
Qed.

(** [LPUSH] then [LTRIM 0 99], both going through, on a list (or no
    key): the new element in front of the 99 most recent old ones. *)
Lemma push_then_trim (now : Z) (m : gmap string entry) (v : string) (l : list string) :
  match Redis.lookup now m notifications with
  | None => Some []
  | Some (Entry (RList l) _) => Some l
  | Some (Entry (RString _) _) => None
  end = Some l ->
  exists n m1 m2,
    Redis.lpush now m notifications v = (Fulfilled n, m1)
    /\ Redis.ltrim now m1 notifications 0 99 = (Fulfilled tt, m2)
    /\ exists t, Redis.lookup now m2 notifications
                 = Some (Entry (RList (v :: take 99 l)) t).
Proof.
  intros Hbuf. unfold Redis.lpush, Redis.ltrim.
  destruct (Redis.lookup now m notifications) as [[[s | l0] t]|] eqn:Hl;
    [discriminate | |]; injection Hbuf as <-.
  - eexists _, _, _. split; [reflexivity |].
    erewrite lookup_insert_live by (try exact Hl; reflexivity).
    rewrite range_0_99. simpl. split; [reflexivity |].
    exists t. unfold Redis.lookup. rewrite lookup_insert_eq.
    apply lookup_insert_live with (e' := Entry (RList (v :: l0)) t) in Hl as Hlive;
      [|reflexivity].
    unfold Redis.lookup in Hlive. rewrite lookup_insert_eq in Hlive.
    simpl in *. unfold Redis.live in *. simpl in *.
    destruct t as [t|]; [|reflexivity]. destruct (now <? t); [reflexivity | discriminate].
  - eexists _, _, _. split; [reflexivity |].
    unfold Redis.lookup at 1. rewrite lookup_insert_eq. simpl.
    split; [reflexivity |]. exists None.
    unfold Redis.lookup. rewrite lookup_insert_eq. reflexivity.
Qed.

Lemma ring_buffer_lookup (w : world) (l : list string) (t : option Z) :
  Redis.lookup (clock w) (redis w) notifications = Some (Entry (RList l) t) ->
  ring_buffer w = Some l.
Proof. unfold ring_buffer, notifications. intros ->. reflexivity. Qed.

(** [PUBLISH] leaves the keyspace and the clock as they are. *)
Lemma exec_PUBLISH_redis (channel msg : string) (w : world) :
  redis (snd (exec (PUBLISH channel msg) w)) = redis w
  /\ clock (snd (exec (PUBLISH channel msg) w)) = clock w.
Proof. simpl. destruct (redis_faults w) as [|[] fs]; split; reflexivity. Qed.

(** C9 (amended). For every call of [createAuditLog] with a significant
    action that runs to its end with no command of another call in
    between, whose insert goes through and whose push and trim are not
    rejected, and for every prior list [l] under the key, the list
    afterwards is the new event followed by the 99 most recent entries of
    [l]: exactly one new entry, at the head, and never more than 100
    entries. *)
Theorem significant_event_enters_ring_buffer (action : string) (user_id : option Z)
    (details : Json) (ip : option string) (w : world) (l : list string) :
  includes significantActions action = true ->
  pg_down w = false ->
  redis_up 2 w = true ->
  ring_buffer w = Some l ->
  let w' := snd (run (createAuditLog action user_id details ip) w) in
  let event := notification (next_log_id w) action user_id details (clock w) in
  ring_buffer w' = Some (event :: take 99 l)
  /\ (length (event :: take 99 l) <= 100)%nat
  /\ audit_logs w' = (audit_logs w ++ [new_log action user_id details ip w])%list.
Proof.
  intros Hsig Hpg Hup Hbuf w' event.
  destruct (push_then_trim (clock w) (redis w) event l Hbuf)
    as (n & m1 & m2 & Hpush & Htrim & t & Hlook).
  assert (ring_buffer w' = Some (event :: take 99 l)
          /\ audit_logs w' = (audit_logs w ++ [new_log action user_id details ip w])%list)
    as [H1 H2].
  { unfold w'. rewrite run_createAuditLog, exec_InsertAuditLog, Hpg, Hsig.
    unfold redis_up in Hup.
    set (w1 := set_audit_logs _ _).
    assert (exec (LPUSH notifications
                        (notification (next_log_id w) action user_id details (clock w1)))
                 w1
            = (Fulfilled n, set_redis m1 (set_redis_faults (tail (redis_faults w)) w1)))
      as ->.
    { simpl. unfold on_redis. simpl. fold event.
      destruct (redis_faults w) as [|[] fs] eqn:Hf; [| discriminate Hup |];
        rewrite Hpush; [|reflexivity].
      destruct w; simpl in *; subst; reflexivity. }
    set (w2 := set_redis m1 _).
    assert (exec (LTRIM notifications 0 99) w2
            = (Fulfilled tt,
               set_redis m2 (set_redis_faults (tail (tail (redis_faults w))) w2))) as ->.
    { simpl. unfold on_redis. simpl.
      destruct (redis_faults w) as [|[] [|[] fs]] eqn:Hf; try discriminate Hup;
        simpl; rewrite Htrim; try reflexivity. }
    set (w3 := set_redis m2 _).
    pose proof (exec_PUBLISH_redis notifications
                  (notification (next_log_id w) action user_id details (clock w3)) w3)
      as [Hr Hc].
    pose proof (exec_frame (PUBLISH notifications
                  (notification (next_log_id w) action user_id details (clock w3))) w3
                  eq_refl) as [Hl _].
    destruct (exec (PUBLISH _ _) w3) as [[n' | e] w4]; simpl in Hr, Hc, Hl; simpl;
      (split; [eapply ring_buffer_lookup; simpl; rewrite Hr, Hc; exact Hlook
              | rewrite ?Hl; try exact Hl; reflexivity]). }
  split; [exact H1 |]. split; [|exact H2].
  simpl. rewrite length_take. lia.
Qed.

Lemma significant_event_enters_ring_buffer_witness :
  let w := set_redis {[ notifications := Entry (RList (replicate 100 "old")) None ]}
                     (empty_world 1000) in
  let w' := snd (run (createAuditLog "SECURITY_ALERT" (Some 7) (JObj []) None) w) in
  let event := notification 1 "SECURITY_ALERT" (Some 7) (JObj []) 1000 in
  includes significantActions "SECURITY_ALERT" = true
  /\ pg_down w = false
  /\ redis_up 2 w = true
  /\ ring_buffer w = Some (replicate 100 "old")
  /\ ring_buffer w' = Some (event :: replicate 99 "old")
  /\ (length (event :: take 99 (replicate 100 "old")) <= 100)%nat.
Proof.
  intros w w' event.
  assert (includes significantActions "SECURITY_ALERT" = true) as Hsig by reflexivity.
  assert (pg_down w = false) as Hpg by reflexivity.
  assert (redis_up 2 w = true) as Hup by reflexivity.
  assert (ring_buffer w = Some (replicate 100 "old")) as Hbuf by reflexivity.
  destruct (significant_event_enters_ring_buffer "SECURITY_ALERT" (Some 7) (JObj []) None
              w (replicate 100 "old") Hsig Hpg Hup Hbuf) as (H1 & H2 & _).
  repeat (split; [assumption |]). exact H2.
Defined.

(** C9 as stated fails when the list commands are rejected, and when
    two calls are in flight at once.  With the insert through and the
    push rejected, the list has no new entry; with the push through and
    the trim rejected, a list of 100 entries is left with 101.  And with
    nothing rejected: when a second call inserts and pushes between the
    trim and the publish of the first, the first call returns its id
    with 101 entries in the list and the event of the second call at
    the head. *)
Lemma ring_buffer_misses_or_overflows :
  let p := createAuditLog "SECURITY_ALERT" (Some 7) (JObj []) None in
  let q := createAuditLog "SECURITY_ALERT" (Some 8) (JObj []) None in
  let full := set_redis {[ notifications := Entry (RList (replicate 100 "old")) None ]}
                        (empty_world 1000) in
  let w1 := set_redis_faults [true] full in
  let w2 := set_redis_faults [false; true] full in
  (pg_down w1 = false
   /\ audit_logs (snd (run p w1)) = [AuditLog 1 "SECURITY_ALERT" (Some 7) "{}" None 1000]
   /\ ring_buffer (snd (run p w1)) = ring_buffer w1)
  /\ (pg_down w2 = false
      /\ audit_logs (snd (run p w2)) = [AuditLog 1 "SECURITY_ALERT" (Some 7) "{}" None 1000]
      /\ length <$> ring_buffer (snd (run p w2)) = Some 101%nat)
  /\ (let '(p1, s1) := advance p full in
      let '(p2, s2) := advance p1 s1 in
      let '(p3, s3) := advance p2 s2 in
      let '(q1, s4) := advance q s3 in
      let '(q2, s5) := advance q1 s4 in
      let '(p4, s6) := advance p3 s5 in
      length <$> ring_buffer s3 = Some 100%nat
      /\ run p4 s6 = (Fulfilled (Some 1), s6)
      /\ length <$> ring_buffer s6 = Some 101%nat
      /\ head <$> ring_buffer s6
         = Some (Some (notification 2 "SECURITY_ALERT" (Some 8) (JObj []) 1000))).
Proof. vm_compute. repeat split. Qed.

(** ** Sessions *)

(** The record [createSession] tries to store. *)
Lemma run_createSession (uid : Z) (r : string) (additionalData : list (string * Json))
    (w : world) :
  run (sessionManager.createSession uid r additionalData) w =
  let accessToken := Jwt.sign uid None JWT_SECRET Jwt.m15 (clock w) in
  match exec (SET_options (session_key accessToken)
                          (JSON.stringify (JObj ([("userId", JNum uid); ("role", JStr r)]
                                                 ++ additionalData)))
                          [("EX", JNum 900)]) w with
  | (Fulfilled _, w1) =>
      (Fulfilled (accessToken, Jwt.sign uid None JWT_REFRESH_SECRET Jwt.d7 (clock w)), w1)
  | (Rejected e, w1) => (Rejected e, w1)
  end.
Proof.
  unfold sessionManager.createSession, jwt_sign. run_simpl.
  cbv zeta. destruct (exec (SET_options _ _ _) w) as [[u | e] w1]; reflexivity.
Qed.

(** [createSession] stores nothing and returns nothing: its [SET] is
    rejected, by the connection or by the server. *)
Lemma createSession_rejects (uid : Z) (r : string) (additionalData : list (string * Json))
    (w : world) :
  (exists e, fst (run (sessionManager.createSession uid r additionalData) w) = Rejected e)
  /\ same_data w (snd (run (sessionManager.createSession uid r additionalData) w)).
Proof.
  rewrite run_createSession. cbv zeta.
  match goal with
  | |- context [exec (SET_options ?k ?v ?o) w] =>
      destruct (exec_SET_options k v o w) as [[e He] Hsame];
      destruct (exec (SET_options k v o) w) as [[u | e'] w1]
  end; [discriminate He |].
  split; [eexists; reflexivity | exact Hsame].
Qed.

Lemma run_refreshSession (refreshToken : jwt) (userData : user_data) (w : world) :
  run (sessionManager.refreshSession refreshToken userData) w =
  (Rejected (Error "Invalid refresh token"),
   match Jwt.verify refreshToken JWT_REFRESH_SECRET (clock w) with
   | inl _ => w
   | inr decoded =>
       snd (run (sessionManager.createSession (userId decoded) (ud_role userData)
                                              (profile_fields userData)) w)
   end).
Proof.
  unfold sessionManager.refreshSession, jwt_verify. run_simpl.
  destruct (Jwt.verify refreshToken JWT_REFRESH_SECRET (clock w)) as [e | decoded];
    [reflexivity |].
  simpl (run (of_sum _) _). cbv iota beta.
  destruct (createSession_rejects (userId decoded) (ud_role userData)
              (profile_fields userData) w) as [[e He] _].
  destruct (run (sessionManager.createSession _ _ _) w) as [[tokens | e'] w1];
    [discriminate He | reflexivity].
Qed.

Lemma verify_expired (k k' : secret) (c : claims) (now : Z) :
  exp c <= now -> exists e, Jwt.verify (Signed k c) k' now = inl e.
Proof.
  intros Hexp. unfold Jwt.verify. destruct (decide (k = k')); [|eauto].
  replace (exp c <=? now) with true by (symmetry; apply Z.leb_le; exact Hexp). eauto.
Qed.

(** C5. For every refresh assertion whose embedded expiry is not in the
    future, [refreshSession] throws the invalid-refresh-token error and
    leaves the world as it was: no access assertion is signed and no
    Session Record is written, whatever rows the [refresh_tokens] table
    of that world holds. *)
Theorem expired_refresh_token_is_refused (k : secret) (c : claims)
    (userData : user_data) (w : world) :
  exp c <= clock w ->
  run (sessionManager.refreshSession (Signed k c) userData) w
  = (Rejected (Error "Invalid refresh token"), w).
Proof.
  intros Hexp. rewrite run_refreshSession.
  destruct (verify_expired k JWT_REFRESH_SECRET c (clock w) Hexp) as [e ->].
  reflexivity.
Qed.

Lemma expired_refresh_token_is_refused_witness :
  let c := Claims 7 None 1000 (1000 + Jwt.d7) in
  let w := set_refresh_tokens [RefreshToken 7 (Signed JWT_REFRESH_SECRET c) 9999999]
                              (empty_world (1000 + Jwt.d7 + 1)) in
  exp c <= clock w
  /\ run (sessionManager.refreshSession (Signed JWT_REFRESH_SECRET c)
            (UserData "admin" "a@example.org" "Ada" "Lovelace" false)) w
     = (Rejected (Error "Invalid refresh token"), w).
Proof.
  intros c w.
  assert (exp c <= clock w) as Hexp by (vm_compute; discriminate).
  split; [exact Hexp |].
  exact (expired_refresh_token_is_refused JWT_REFRESH_SECRET c _ w Hexp).
Defined.

(** An action outside the significant set is logged without a word to
    Redis. *)
Lemma createAuditLog_quiet (action : string) (user_id : option Z) (details : Json)
    (ip : option string) (w : world) :
  includes significantActions action = false ->
  redis (snd (run (createAuditLog action user_id details ip) w)) = redis w
  /\ published (snd (run (createAuditLog action user_id details ip) w)) = published w
  /\ clock (snd (run (createAuditLog action user_id details ip) w)) = clock w
  /\ exists v, fst (run (createAuditLog action user_id details ip) w) = Fulfilled v.
Proof.
  intros Hsig. rewrite run_createAuditLog, exec_InsertAuditLog, Hsig.
  destruct (pg_down w); simpl; eauto.
Qed.

Lemma detached_createAuditLog_quiet (action : string) (user_id : option Z)
    (details : Json) (ip : option string) (h : error -> prog unit) (w : world) :
  includes significantActions action = false ->
  fst (run (detached (createAuditLog action user_id details ip) h) w) = Fulfilled tt
  /\ redis (snd (run (detached (createAuditLog action user_id details ip) h) w)) = redis w
  /\ published (snd (run (detached (createAuditLog action user_id details ip) h) w))
     = published w
  /\ clock (snd (run (detached (createAuditLog action user_id details ip) h) w)) = clock w.
Proof.
  intros Hsig. unfold detached. run_simpl.
  destruct (createAuditLog_quiet action user_id details ip w Hsig)
    as (Hr & Hp & Hc & v & Hv).
  destruct (run (createAuditLog action user_id details ip) w) as [[v' | e] w1];
    simpl in *; [auto | discriminate].
Qed.

Lemma exec_SET_fulfilled (k v : string) (seconds : Z) (w w1 : world) (u : unit) :
  exec (SET k v (Some seconds)) w = (Fulfilled u, w1) ->
  redis w1 = <[k := Entry (RString v) (Some (clock w + seconds))]> (redis w)
  /\ clock w1 = clock w /\ 0 < seconds.
Proof.
  simpl. unfold on_redis, Redis.set.
  destruct (redis_faults w) as [|[] fs]; try discriminate;
    (destruct (Z.leb_spec seconds 0) as [Hle | Hlt]; [discriminate |];
     intros H; injection H as _ <-; repeat split; exact Hlt).
Qed.

(** The socket handshake after a cache miss: when it accepts, the token
    verified and the record was written again for 900 seconds. *)
Lemma socket_miss_recaches (JSON_parse : string -> error + Json) (token : jwt)
    (socketId address : string) (w w' : world) (u : socket_user) :
  Redis.lookup (clock w) (redis w) (session_key token) = None ->
  run (socketAuthMiddleware JSON_parse (Some token) socketId address) w
  = (Fulfilled (next u), w') ->
  exists c v,
    Jwt.verify token JWT_SECRET (clock w) = inr c
    /\ redis w' = <[session_key token := Entry (RString v) (Some (clock w + 900))]> (redis w)
    /\ clock w' = clock w.
Proof.
  intros Hmiss. unfold socketAuthMiddleware.
  destruct (no_token (Some token)); [discriminate |].
  run_simpl.
  destruct (exec (GET _) w) as [[cached | e] w1] eqn:Hget; [|discriminate].
  pose proof (exec_GET_fulfilled _ _ _ _ Hget) as Hreply.
  apply exec_GET_inv in Hget as [Hredis Hclock].
  destruct cached as [s|]; [destruct Hreply as [t Ht]; congruence |].
  simpl (truthy_reply None). cbv iota. unfold jwt_verify. run_simpl.
  rewrite Hclock.
  destruct (Jwt.verify token JWT_SECRET (clock w)) as [e | c]; [discriminate |].
  simpl (run (of_sum _) _). cbv iota beta. run_simpl.
  destruct (exec (SET _ _ _) w1) as [[x | e] w2] eqn:Hset; [|discriminate].
  apply exec_SET_fulfilled in Hset as (Hredis2 & Hclock2 & _).
  run_simpl.
  destruct (detached_createAuditLog_quiet "SOCKET_CONNECT" (Some (userId c))
              (socket_details socketId address) None
              (fun _ => console_error "Error logging socket connection:") w2 eq_refl)
    as (Hres & Hr3 & _ & Hc3).
  destruct (run (detached _ _) w2) as [[x' | e] w3]; cbn [fst snd] in *; [|discriminate].
  intros [= <- <-]. eexists c, _. split; [reflexivity |].
  rewrite Hr3, Hredis2, Hredis, Hc3, Hclock2, Hclock. auto.
Qed.

(** ** Who notifies *)

Lemma silent_ret {A} (a : A) : silent (Ret a).
Proof. intros w. repeat split. Qed.

Lemma silent_throw {A} (e : error) : silent (@Throw A e).
Proof. intros w. repeat split. Qed.

Lemma silent_mbind {A B} (p : prog A) (f : A -> prog B) :
  silent p -> (forall a, silent (f a)) -> silent (p ≫= f).
Proof.
  intros Hp Hf w. rewrite run_mbind. specialize (Hp w).
  destruct (run p w) as [[a | e] w1]; simpl in Hp.
  - destruct Hp as (Hp1 & Hp2 & Hp3). destruct (Hf a w1) as (H1 & H2 & H3).
    rewrite H1, H2, H3. auto.
  - exact Hp.
Qed.

Lemma silent_try_catch {A} (p : prog A) (h : error -> prog A) :
  silent p -> (forall e, silent (h e)) -> silent (try_catch p h).
Proof.
  intros Hp Hh w. rewrite run_try_catch. specialize (Hp w).
  destruct (run p w) as [[a | e] w1]; simpl in Hp.
  - exact Hp.
  - destruct Hp as (Hp1 & Hp2 & Hp3). destruct (Hh e w1) as (H1 & H2 & H3).
    rewrite H1, H2, H3. auto.
Qed.

Lemma on_redis_other {X} (w : world)
    (f : gmap string entry -> settled X * gmap string entry) (k : string) :
  (forall m, snd (f m) !! k = m !! k) ->
  redis (snd (on_redis w f)) !! k = redis w !! k.
Proof.
  intros Hf. unfold on_redis. specialize (Hf (redis w)).
  destruct (redis_faults w) as [|[] fs]; try reflexivity;
    destruct (f (redis w)) as [r m]; exact Hf.
Qed.

Lemma on_pg_frame {X} (w : world) (f : world -> X * world) :
  (forall w0, published (snd (f w0)) = published w0 /\ redis (snd (f w0)) = redis w0
              /\ clock (snd (f w0)) = clock w0) ->
  published (snd (on_pg w f)) = published w /\ redis (snd (on_pg w f)) = redis w
  /\ clock (snd (on_pg w f)) = clock w.
Proof.
  intros Hf. unfold on_pg.
  destruct (pg_faults w) as [|[] fs]; [| repeat split |].
  - specialize (Hf w). destruct (f w) as [x w']. exact Hf.
  - specialize (Hf (set_pg_faults fs w)). destruct (f _) as [x w']. exact Hf.
Qed.

(** A command that does not notify leaves the channel and the list as
    they are. *)
Lemma silent_await {X} (c : cmd X) : notifies c = false -> silent (await c).
Proof.
  intros Hc w. rewrite run_await.
  destruct c; simpl in Hc; try discriminate Hc;
    try (apply String.eqb_neq in Hc).
  all: try (simpl; repeat split; reflexivity).
  all: try (simpl;
            match goal with
            | |- context [on_pg ?w ?f] =>
                destruct (on_pg_frame w f) as (H1 & H2 & H3);
                [intros w0; repeat split | rewrite H1, H2, H3; repeat split]
            end; fail).
  all: simpl; (split; [apply on_redis_frame |]); (split; [|apply on_redis_frame]);
    apply on_redis_other; intros m.
  - unfold Redis.get.
    destruct (Redis.lookup _ _ _) as [[[s | l] t]|]; reflexivity.
  - unfold Redis.set.
    destruct ex as [seconds|]; [destruct (seconds <=? 0) |]; simpl;
      rewrite ?lookup_insert_ne by exact Hc; reflexivity.
  - reflexivity.
  - unfold Redis.incr.
    destruct (Redis.lookup _ _ _) as [[[s | l] t]|];
      [destruct (Redis.string2ll s) as [n|]; [destruct (n <? Redis.int64_max) |] | |];
      simpl; rewrite ?lookup_insert_ne by exact Hc; reflexivity.
  - unfold Redis.del.
    destruct (Redis.lookup _ _ _); simpl; rewrite lookup_delete_ne by exact Hc;
      reflexivity.
  - unfold Redis.lpush.
    destruct (Redis.lookup _ _ _) as [[[s | l] t]|];
      simpl; rewrite ?lookup_insert_ne by exact Hc; reflexivity.
  - unfold Redis.ltrim.
    destruct (Redis.lookup _ _ _) as [[[s | l] t]|]; [| destruct (Redis.range _ _ _) |];
      simpl; rewrite ?lookup_insert_ne, ?lookup_delete_ne by exact Hc; reflexivity.
Qed.

Lemma silent_createAuditLog (action : string) (user_id : option Z) (details : Json)
    (ip : option string) :
  includes significantActions action = false ->
  silent (createAuditLog action user_id details ip).
Proof.
  intros Hsig w.
  destruct (createAuditLog_quiet action user_id details ip w Hsig) as (Hr & Hp & Hc & _).
  rewrite Hr, Hp, Hc. repeat split.
Qed.

Lemma silent_detached {A} (p : prog A) (h : error -> prog unit) :
  silent p -> (forall e, silent (h e)) -> silent (detached p h).
Proof.
  intros Hp Hh. unfold detached. apply silent_try_catch; [|exact Hh].
  apply silent_mbind; [exact Hp |]. intros a. apply silent_ret.
Qed.

Lemma silent_console_error (msg : string) : silent (console_error msg).
Proof. apply silent_await. reflexivity. Qed.

Lemma silent_jwt_sign (uid : Z) (r : option string) (k : secret) (expiresIn : Z) :
  silent (jwt_sign uid r k expiresIn).
Proof.
  unfold jwt_sign. apply silent_mbind; [apply silent_await; reflexivity |].
  intros now. apply silent_ret.
Qed.

Lemma session_key_is_not_notifications (t : jwt) :
  String.eqb (session_key t) notifications = false.
Proof. reflexivity. Qed.

Lemma silent_createSession (uid : Z) (r : string) (additionalData : list (string * Json)) :
  silent (sessionManager.createSession uid r additionalData).
Proof.
  unfold sessionManager.createSession.
  apply silent_mbind; [apply silent_jwt_sign |]. intros accessToken.
  apply silent_mbind; [apply silent_jwt_sign |]. intros refreshToken.
  apply silent_mbind; [apply silent_await; apply session_key_is_not_notifications |].
  intros _. apply silent_ret.
Qed.

(** Take a handler apart down to its commands. *)
Ltac silent_tac :=
  repeat (intros;
          first [ apply silent_ret
                | apply silent_throw
                | apply silent_console_error
                | apply silent_createSession
                | apply silent_jwt_sign
                | apply silent_detached
                | apply silent_createAuditLog; reflexivity
                | apply silent_await; first [reflexivity
                                            | apply session_key_is_not_notifications]
                | apply silent_try_catch
                | apply silent_mbind
                | match goal with
                  | |- silent (if ?b then _ else _) => destruct b
                  | |- silent (match ?x with _ => _ end) => destruct x
                  end ]).

Lemma silent_auth_login (body_email body_password : option string) (ip : string) :
  silent (auth_login body_email body_password ip).
Proof. unfold auth_login. silent_tac. Qed.

Lemma silent_manager_login (body_email body_password : option string)
    (ip userAgent : string) :
  silent (manager_login body_email body_password ip userAgent).
Proof. unfold manager_login. silent_tac. Qed.

Lemma silent_ring_buffer {A} (p : prog A) (w : world) :
  silent p ->
  published (snd (run p w)) = published w
  /\ ring_buffer (snd (run p w)) = ring_buffer w.
Proof.
  intros Hp. destruct (Hp w) as (H1 & H2 & H3). split; [exact H1 |].
  unfold ring_buffer, Redis.lookup. rewrite H2, H3. reflexivity.
Qed.

(** No login attempt, failed or not, on either login route reaches the
    Recent Significant Events list or the channel. *)
Lemma logins_never_notify (body_email body_password : option string)
    (ip userAgent : string) (w : world) :
  (published (snd (run (auth_login body_email body_password ip) w)) = published w
   /\ ring_buffer (snd (run (auth_login body_email body_password ip) w)) = ring_buffer w)
  /\ (published (snd (run (manager_login body_email body_password ip userAgent) w))
      = published w
      /\ ring_buffer (snd (run (manager_login body_email body_password ip userAgent) w))
         = ring_buffer w).
Proof.
  split; apply silent_ring_buffer;
    [apply silent_auth_login | apply silent_manager_login].
Qed.

(** C1. Failed login attempts are meant to be significant: the
    significant set lists LOGIN_FAILED.  The login handlers record
    FAILED_LOGIN (and MANAGER_LOGIN_FAILED), which the set does not
    hold, so for an unknown account, a deactivated account and a wrong
    password alike the event is written to the log and neither pushed
    onto the Recent Significant Events list nor published; the same
    event under the listed name would be. *)
Theorem failed_login_is_not_notified :
  let unknown := auth_login (Some "nobody@example.org") (Some "guess") "203.0.113.7" in
  let inactive := auth_login (Some "bob@example.org") (Some "battery staple") "203.0.113.7" in
  let wrong := auth_login (Some "ada@example.org") (Some "guess") "203.0.113.7" in
  let manager := manager_login (Some "eve@example.org") (Some "guess") "203.0.113.7" "curl" in
  let failed p :=
    exists body, fst (run p sample_world) = Fulfilled (respond 401 body) in
  let logged_as p action :=
    log_action <$> audit_logs (snd (run p sample_world)) = [action] in
  let unnoticed p :=
    published (snd (run p sample_world)) = []
    /\ ring_buffer (snd (run p sample_world)) = Some [] in
  includes significantActions "LOGIN_FAILED" = true
  /\ includes significantActions "FAILED_LOGIN" = false
  /\ includes significantActions "MANAGER_LOGIN_FAILED" = false
  /\ (failed unknown /\ logged_as unknown "FAILED_LOGIN" /\ unnoticed unknown)
  /\ (failed inactive /\ logged_as inactive "FAILED_LOGIN" /\ unnoticed inactive)
  /\ (failed wrong /\ logged_as wrong "FAILED_LOGIN" /\ unnoticed wrong)
  /\ (failed manager /\ logged_as manager "MANAGER_LOGIN_FAILED" /\ unnoticed manager)
  /\ length (published
               (snd (run (createAuditLog "LOGIN_FAILED" None (JObj []) None)
                         sample_world))) = 1%nat.
Proof.
  cbv zeta. repeat apply conj; try reflexivity; eexists; vm_compute; reflexivity.
Qed.

(** The manager login route turns an unknown account away without any
    audit event (its early returns for a deactivated and an unapproved
    account record none either). *)
Lemma manager_login_unknown_account_is_not_logged :
  let p := manager_login (Some "nobody@example.org") (Some "guess") "203.0.113.7" "curl" in
  fst (run p sample_world)
  = Fulfilled (respond 401 (message_body "Invalid email or password"))
  /\ audit_logs (snd (run p sample_world)) = [].
Proof. vm_compute. split; reflexivity. Qed.

(** ** The refresh route *)

Lemma exec_not_redis {X} (c : cmd X) (w : world) :
  is_redis (existT X c) = false ->
  redis (snd (exec c w)) = redis w /\ clock (snd (exec c w)) = clock w.
Proof.
  destruct c; simpl; try discriminate; intros _; try (split; reflexivity);
    match goal with
    | |- context [on_pg ?w ?f] =>
        destruct (on_pg_frame w f) as (_ & H2 & H3); [intros w0; repeat split | auto]
    end.
Qed.

(** On POST /api/auth/refresh-token an assertion past its expiry mints
    nothing, whether or not the table still holds a row for it: the
    answer is never 200 and no cache key is written. *)
Lemma expired_refresh_token_mints_nothing (k : secret) (c : claims) (ip : string)
    (w : world) :
  exp c <= clock w ->
  redis (snd (run (post_auth_refresh_token (Some (Signed k c)) ip) w)) = redis w
  /\ exists status body,
      fst (run (post_auth_refresh_token (Some (Signed k c)) ip) w)
      = Fulfilled (respond status body)
      /\ status <> 200.
Proof.
  intros Hexp. unfold post_auth_refresh_token, route, authenticateRefreshToken.
  simpl (no_token _). cbv iota. run_simpl.
  pose proof (exec_not_redis (SelectValidRefreshToken (Signed k c)) w eq_refl) as [Hr1 Hc1].
  destruct (exec (SelectValidRefreshToken _) w) as [[rows | e] w1]; simpl in Hr1, Hc1.
  2: { run_simpl. split; [exact Hr1 |]. eexists _, _. split; [reflexivity | discriminate]. }
  destruct rows as [|row rows].
  { run_simpl. split; [exact Hr1 |]. eexists _, _. split; [reflexivity | discriminate]. }
  unfold jwt_verify. run_simpl. rewrite Hc1.
  destruct (verify_expired k JWT_REFRESH_SECRET c (clock w) Hexp) as [e ->].
  simpl (run (of_sum _) _). cbv iota beta. run_simpl.
  pose proof (exec_not_redis (DeleteRefreshToken (Signed k c)) w1 eq_refl) as [Hr2 Hc2].
  destruct (exec (DeleteRefreshToken _) w1) as [[u | e'] w2]; simpl in Hr2, Hc2; run_simpl.
  all: (split; [simpl; congruence |]); eexists _, _; (split; [reflexivity | discriminate]).
Qed.

(** ** How long a Session Record lives *)

(** C2. The invariant fails.  [createSession] writes no Session Record
    at all: its [SET] is rejected, and so is the call.  On the socket
    handshake after a cache miss the record is written for the fixed 900
    seconds counted from the handshake, whatever lifetime the assertion
    has left; a record written for an assertion with less than 900
    seconds left outlives it, and from the assertion's expiry until the
    record's the cache still holds the record of an assertion that no
    longer verifies. *)
Theorem session_record_outlives_assertion :
  (forall uid r additionalData w,
      (exists e, fst (run (sessionManager.createSession uid r additionalData) w)
                 = Rejected e)
      /\ redis (snd (run (sessionManager.createSession uid r additionalData) w)) = redis w)
  /\ (forall JSON_parse token socketId address w u w',
         Redis.lookup (clock w) (redis w) (session_key token) = None ->
         run (socketAuthMiddleware JSON_parse (Some token) socketId address) w
         = (Fulfilled (next u), w') ->
         exists c,
           Jwt.verify token JWT_SECRET (clock w) = inr c
           /\ Redis.ttl (clock w') (redis w') (session_key token) = Some 900
           /\ remaining token (clock w') = Some (exp c - clock w)
           /\ forall later,
                exp c <= later < clock w + 900 ->
                (exists e, Jwt.verify token JWT_SECRET later = inl e)
                /\ exists record,
                     Redis.lookup later (redis w') (session_key token)
                     = Some (Entry (RString record) (Some (clock w + 900)))).
Proof.
  split.
  - intros uid r additionalData w.
    destruct (createSession_rejects uid r additionalData w) as [He (_ & Hredis & _)].
    auto.
  - intros JSON_parse token socketId address w u w' Hmiss Hrun.
    destruct (socket_miss_recaches JSON_parse token socketId address w w' u Hmiss Hrun)
      as (c & v & Hverify & Hredis & Hclock).
    exists c. split; [exact Hverify |].
    rewrite Hredis, Hclock. split; [apply ttl_insert; lia |].
    unfold Jwt.verify in Hverify. destruct token as [k c' | s]; [|discriminate].
    destruct (decide (k = JWT_SECRET)) as [-> |]; [|discriminate].
    destruct (Z.leb_spec (exp c') (clock w)); [discriminate |].
    injection Hverify as <-.
    split; [reflexivity |].
    intros later [Hexp Hlive]. split.
    + apply verify_expired. exact Hexp.
    + exists v. unfold Redis.lookup, Redis.live. rewrite lookup_insert_eq. simpl.
      replace (later <? clock w + 900) with true by (symmetry; apply Z.ltb_lt; lia).
      reflexivity.
Qed.

Lemma session_record_outlives_assertion_witness :
  let token := Jwt.sign 7 None JWT_SECRET 900 1000 in
  let w := empty_world 1600 in
  let r := run (socketAuthMiddleware (fun _ => inr JNull) (Some token)
                                     "socket-1" "203.0.113.7") w in
  fst r = Fulfilled (next (SocketUser (Some (JNum 7)) None))
  /\ Redis.ttl (clock (snd r)) (redis (snd r)) (session_key token) = Some 900
  /\ remaining token (clock (snd r)) = Some 300
  /\ (exists e, Jwt.verify token JWT_SECRET 2000 = inl e)
  /\ exists record,
       Redis.lookup 2000 (redis (snd r)) (session_key token)
       = Some (Entry (RString record) (Some 2500)).
Proof.
  intros token w r.
  assert (r = (Fulfilled (next (SocketUser (Some (JNum 7)) None)), snd r)) as Hrun
    by (vm_compute; reflexivity).
  destruct (proj2 session_record_outlives_assertion (fun _ => inr JNull) token
              "socket-1" "203.0.113.7" w _ _ eq_refl Hrun)
    as (c & Hverify & Httl & Hleft & Hlater).
  injection Hverify as <-.
  split; [vm_compute; reflexivity |]. split; [exact Httl |]. split; [exact Hleft |].
  apply (Hlater 2000). simpl. lia.
Defined.

(** * More properties *)

(** ** [validateSession] *)

Lemma run_of_sum {A} (r : error + A) (w : world) :
  run (of_sum r) w = (match r with inl e => Rejected e | inr a => Fulfilled a end, w).
Proof. destruct r; reflexivity. Qed.

Lemma run_validateSession (JSON_parse : string -> error + Json) (t : jwt) (w : world) :
  run (validateSession JSON_parse t) w =
  match exec (GET (session_key t)) w with
  | (Rejected _, w1) => (Fulfilled JNull, w1)
  | (Fulfilled sessionData, w1) =>
      if truthy_reply sessionData
      then match JSON_parse (default "" sessionData) with
           | inr session => (Fulfilled session, w1)
           | inl _ => (Fulfilled JNull, w1)
           end
      else match Jwt.verify t JWT_SECRET (clock w1) with
           | inr decoded => (Fulfilled (JObj [("userId", JNum (userId decoded))]), w1)
           | inl _ => (Fulfilled JNull, w1)
           end
  end.
Proof.
  unfold validateSession. run_simpl.
  destruct (exec (GET _) w) as [[sessionData | e] w1]; [|reflexivity].
  destruct (truthy_reply sessionData); simpl negb; cbv iota.
  - rewrite run_of_sum. destruct (JSON_parse _); reflexivity.
  - unfold jwt_verify. run_simpl. rewrite run_of_sum.
    destruct (Jwt.verify _ _ _); reflexivity.
Qed.

(** X1. [validateSession] never throws and never writes: whatever the
    token, the cache and the parser do, it returns a value and leaves
    the keyspace as it was (it does not put a record back after a
    miss). *)
Theorem validateSession_returns_and_only_reads (JSON_parse : string -> error + Json)
    (t : jwt) (w : world) :
  (exists session, fst (run (validateSession JSON_parse t) w) = Fulfilled session)
  /\ redis (snd (run (validateSession JSON_parse t) w)) = redis w.
Proof.
  rewrite run_validateSession.
  pose proof (exec_GET_redis (session_key t) w) as Hr.
  destruct (exec (GET _) w) as [[sessionData | e] w1]; simpl in Hr; [|eauto].
  destruct (truthy_reply sessionData).
  - destruct (JSON_parse _); eauto.
  - destruct (Jwt.verify _ _ _); eauto.
Qed.

(** X2. When the cache cannot be reached, [validateSession] returns
    [null], also for an assertion that verifies: the fallback to the
    signature covers a missing record, not a failing cache. *)
Theorem validateSession_fails_closed (JSON_parse : string -> error + Json)
    (t : jwt) (w : world) (fs : list bool) :
  redis_faults w = true :: fs ->
  fst (run (validateSession JSON_parse t) w) = Fulfilled JNull.
Proof.
  intros Hf. rewrite run_validateSession. simpl. unfold on_redis. rewrite Hf. reflexivity.
Qed.

Lemma validateSession_fails_closed_witness :
  let t := Jwt.sign 7 None JWT_SECRET 900 1000 in
  let w := set_redis_faults [true] (empty_world 1000) in
  redis_faults w = [true]
  /\ (exists c, Jwt.verify t JWT_SECRET (clock w) = inr c)
  /\ fst (run (validateSession (fun _ => inr JNull) t) w) = Fulfilled JNull.
Proof.
  intros t w. split; [reflexivity |]. split; [eexists; reflexivity |].
  exact (validateSession_fails_closed (fun _ => inr JNull) t w [] eq_refl).
Defined.

Lemma exec_GET_miss (k : string) (w : world) :
  redis_up 1 w = true ->
  Redis.lookup (clock w) (redis w) k = None ->
  exec (GET k) w = (Fulfilled None, set_redis_faults (tail (redis_faults w)) w).
Proof.
  intros Hup Hl. simpl. unfold on_redis, Redis.get. rewrite Hl.
  unfold redis_up in Hup.
  destruct (redis_faults w) as [|[] fs] eqn:Hf; [| discriminate | reflexivity].
  destruct w; simpl in *; subst; reflexivity.
Qed.

Lemma run_validateSession_miss (JSON_parse : string -> error + Json) (t : jwt)
    (w : world) :
  redis_up 1 w = true ->
  Redis.lookup (clock w) (redis w) (session_key t) = None ->
  run (validateSession JSON_parse t) w
  = (Fulfilled match Jwt.verify t JWT_SECRET (clock w) with
               | inr decoded => JObj [("userId", JNum (userId decoded))]
               | inl _ => JNull
               end,
     set_redis_faults (tail (redis_faults w)) w).
Proof.
  intros Hup Hl. rewrite run_validateSession, exec_GET_miss by assumption.
  simpl. destruct (Jwt.verify _ _ _); reflexivity.
Qed.

(** X3. With the cache reachable and no live record under the key,
    [validateSession] decides by the assertion alone: an assertion that
    verifies gives the object holding its [userId] and nothing else (no
    role, no profile); one that is expired, malformed or signed with the
    refresh secret gives [null]. *)
Theorem validateSession_degraded (JSON_parse : string -> error + Json)
    (t : jwt) (w : world) :
  redis_up 1 w = true ->
  Redis.lookup (clock w) (redis w) (session_key t) = None ->
  fst (run (validateSession JSON_parse t) w)
  = Fulfilled match Jwt.verify t JWT_SECRET (clock w) with
              | inr decoded => JObj [("userId", JNum (userId decoded))]
              | inl _ => JNull
              end.
Proof.
  intros Hup Hl. rewrite run_validateSession_miss by assumption. reflexivity.
Qed.

Lemma validateSession_degraded_witness :
  let t := Jwt.sign 7 None JWT_SECRET 900 1000 in
  let w := empty_world 1500 in
  redis_up 1 w = true
  /\ Redis.lookup (clock w) (redis w) (session_key t) = None
  /\ fst (run (validateSession (fun _ => inr JNull) t) w)
     = Fulfilled (JObj [("userId", JNum 7)]).
Proof.
  intros t w. split; [reflexivity |]. split; [reflexivity |].
  exact (validateSession_degraded (fun _ => inr JNull) t w eq_refl eq_refl).
Defined.

(** ** Commands on a reachable cache *)

Lemma on_redis_up {X} (w : world)
    (f : gmap string entry -> settled X * gmap string entry) :
  redis_up 1 w = true ->
  on_redis w f
  = (fst (f (redis w)),
     set_redis (snd (f (redis w))) (set_redis_faults (tail (redis_faults w)) w)).
Proof.
  unfold redis_up, on_redis. intros Hup.
  destruct (redis_faults w) as [|[] fs] eqn:Hf; [| discriminate |];
    destruct (f (redis w)) as [r m]; [|reflexivity].
  simpl. destruct w; simpl in *; subst; reflexivity.
Qed.

Lemma redis_up_S (n : nat) (w : world) :
  redis_up (S n) w = true ->
  redis_up 1 w = true
  /\ forall m, redis_up n (set_redis m (set_redis_faults (tail (redis_faults w)) w)) = true.
Proof.
  unfold redis_up. simpl. destruct (redis_faults w) as [|b fs]; simpl.
  - intros _. split; [reflexivity |]. intros m. destruct n; reflexivity.
  - intros H. apply andb_true_iff in H as [Hb Hfs]. split; [|intros m; exact Hfs].
    rewrite Hb. destruct fs; reflexivity.
Qed.

Lemma lookup_delete_gone (now : Z) (m : gmap string entry) (k : string) :
  Redis.lookup now (delete k m) k = None.
Proof. unfold Redis.lookup. rewrite lookup_delete_eq. reflexivity. Qed.

Lemma run_invalidateSession_up (t : jwt) (w : world) :
  redis_up 1 w = true ->
  run (sessionManager.invalidateSession t) w
  = (Fulfilled tt,
     set_redis (delete (session_key t) (redis w))
               (set_redis_faults (tail (redis_faults w)) w)).
Proof.
  intros Hup. unfold sessionManager.invalidateSession. run_simpl.
  simpl (exec _ _). rewrite on_redis_up by exact Hup. unfold Redis.del.
  destruct (Redis.lookup _ _ _); reflexivity.
Qed.

(** X4. Invalidating a session does not revoke its assertion: with the
    cache reachable, [invalidateSession] followed by [validateSession]
    on an assertion that still verifies returns the object holding its
    [userId], not [null]. *)
Theorem invalidated_session_still_validates (JSON_parse : string -> error + Json)
    (t : jwt) (c : claims) (w : world) :
  redis_up 2 w = true ->
  Jwt.verify t JWT_SECRET (clock w) = inr c ->
  fst (run (sessionManager.invalidateSession t ;; validateSession JSON_parse t) w)
  = Fulfilled (JObj [("userId", JNum (userId c))]).
Proof.
  intros Hup Hverify. apply redis_up_S in Hup as [Hup1 Hup2].
  rewrite run_mbind, run_invalidateSession_up by exact Hup1.
  rewrite run_validateSession_miss;
    [| apply Hup2 | apply lookup_delete_gone].
  simpl. rewrite Hverify. reflexivity.
Qed.

Lemma invalidated_session_still_validates_witness :
  let t := Jwt.sign 7 None JWT_SECRET 900 1000 in
  let w := snd (run (socketAuthMiddleware (fun _ => inr JNull) (Some t) "socket-1"
                                          "203.0.113.7") (empty_world 1000)) in
  (exists e, redis w !! session_key t = Some e)
  /\ redis_up 2 w = true
  /\ Jwt.verify t JWT_SECRET (clock w) = inr (Claims 7 None 1000 1900)
  /\ fst (run (sessionManager.invalidateSession t ;; validateSession (fun _ => inr JNull) t)
              w)
     = Fulfilled (JObj [("userId", JNum 7)]).
Proof.
  intros t w. split; [eexists; vm_compute; reflexivity |].
  split; [reflexivity |]. split; [reflexivity |].
  exact (invalidated_session_still_validates (fun _ => inr JNull) t
           (Claims 7 None 1000 1900) w eq_refl eq_refl).
Defined.

Lemma exec_SET_up (k v : string) (seconds : Z) (w : world) :
  redis_up 1 w = true -> 0 < seconds ->
  exec (SET k v (Some seconds)) w
  = (Fulfilled tt,
     set_redis (<[k := Entry (RString v) (Some (clock w + seconds))]> (redis w))
               (set_redis_faults (tail (redis_faults w)) w)).
Proof.
  intros Hup Hpos. simpl. rewrite on_redis_up by exact Hup. unfold Redis.set.
  replace (seconds <=? 0) with false by (symmetry; apply Z.leb_gt; exact Hpos).
  reflexivity.
Qed.

Lemma run_createSession_up (uid : Z) (r : string) (additionalData : list (string * Json))
    (w : world) :
  redis_up 1 w = true ->
  run (sessionManager.createSession uid r additionalData) w
  = (Rejected Redis.syntax_error,
     set_redis (redis w) (set_redis_faults (tail (redis_faults w)) w)).
Proof.
  intros Hup. rewrite run_createSession. cbv zeta.
  simpl (exec (SET_options _ _ _) w). rewrite on_redis_up by exact Hup. reflexivity.
Qed.

(** X5. [createSession] creates no session.  Whatever the cache does,
    the call is rejected and the keyspace and the tables are left as
    they were; when the cache is reachable, the error is the syntax
    error with which the server refuses the [SET]. *)
Theorem createSession_creates_nothing (uid : Z) (r : string)
    (additionalData : list (string * Json)) (w : world) :
  (exists e, fst (run (sessionManager.createSession uid r additionalData) w) = Rejected e)
  /\ same_data w (snd (run (sessionManager.createSession uid r additionalData) w))
  /\ (redis_up 1 w = true ->
      fst (run (sessionManager.createSession uid r additionalData) w)
      = Rejected (RedisError "ERR syntax error")).
Proof.
  destruct (createSession_rejects uid r additionalData w) as [He Hsame].
  split; [exact He |]. split; [exact Hsame |].
  intros Hup. rewrite run_createSession_up by exact Hup. reflexivity.
Qed.

Lemma createSession_creates_nothing_witness :
  let r := run (sessionManager.createSession 7 "admin" []) sample_world in
  redis_up 1 sample_world = true
  /\ fst r = Rejected (RedisError "ERR syntax error")
  /\ redis (snd r) = ∅ /\ refresh_tokens (snd r) = [].
Proof.
  intros r.
  destruct (createSession_creates_nothing 7 "admin" [] sample_world)
    as (_ & (_ & Hredis & _ & _ & Ht & _) & Herr).
  split; [reflexivity |]. split; [exact (Herr eq_refl) |].
  split; [exact Hredis | exact Ht].
Defined.

(** ** [authenticateRefreshToken] *)

Lemma run_authenticateRefreshToken (t : jwt) (w : world) :
  no_token (Some t) = false ->
  run (authenticateRefreshToken (Some t)) w =
  match exec (SelectValidRefreshToken t) w with
  | (Rejected _, w1) =>
      (Fulfilled (respond 500 (message_body "Internal server error.")), w1)
  | (Fulfilled [], w1) =>
      (Fulfilled (respond 401 (message_body "Invalid or expired refresh token.")), w1)
  | (Fulfilled (_ :: _), w1) =>
      match Jwt.verify t JWT_REFRESH_SECRET (clock w1) with
      | inl _ => deleted_or_500 t w1
      | inr decoded =>
          match exec (SelectActiveApprovedUser (userId decoded)) w1 with
          | (Rejected _, w2) => deleted_or_500 t w2
          | (Fulfilled [], w2) =>
              (Fulfilled (respond 401
                            (message_body "User not found, inactive, or not approved.")),
               w2)
          | (Fulfilled (u :: _), w2) => (Fulfilled (next u), w2)
          end
      end
  end.
Proof.
  intros Htoken. unfold authenticateRefreshToken, deleted_or_500. rewrite Htoken.
  run_simpl.
  destruct (exec (SelectValidRefreshToken t) w) as [[rows | e] w1]; [|reflexivity].
  destruct rows as [|row rows]; [reflexivity |].
  unfold jwt_verify. run_simpl. rewrite run_of_sum.
  destruct (Jwt.verify t JWT_REFRESH_SECRET (clock w1)) as [e | decoded]; cbv iota beta.
  - run_simpl. destruct (exec (DeleteRefreshToken t) w1) as [[x | e'] w2]; reflexivity.
  - run_simpl.
    destruct (exec (SelectActiveApprovedUser _) w1) as [[urows | e] w2].
    + destruct urows; reflexivity.
    + run_simpl. destruct (exec (DeleteRefreshToken t) w2) as [[x | e'] w3]; reflexivity.
Qed.

Lemma same_data_refl (w : world) : same_data w w.
Proof. repeat split. Qed.

Lemma same_data_trans (w1 w2 w3 : world) :
  same_data w1 w2 -> same_data w2 w3 -> same_data w1 w3.
Proof.
  unfold same_data. intros (?&?&?&?&?&?) (?&?&?&?&?&?). repeat split; congruence.
Qed.

(** A statement that only reads: its rows are computed from the data,
    which it leaves as it was. *)
Lemma on_pg_read {X} (g : world -> X) (w w1 : world) (x : X) :
  (forall w0, same_data w w0 -> g w0 = g w) ->
  on_pg w (fun w0 => (g w0, w0)) = (Fulfilled x, w1) ->
  x = g w /\ same_data w w1.
Proof.
  intros Hg. unfold on_pg. destruct (pg_faults w) as [|[] fs]; [| discriminate |];
    intros [= <- <-]; (split; [apply Hg |]); repeat split.
Qed.

Lemma on_pg_same_data_rejected {X} (f : world -> X * world) (w w1 : world) (e : error) :
  on_pg w f = (Rejected e, w1) -> same_data w w1.
Proof.
  unfold on_pg. destruct (pg_faults w) as [|[] fs];
    try (destruct (f _); discriminate).
  intros [= _ <-]. repeat split.
Qed.

Lemma exec_SelectValidRefreshToken (t : jwt) (w w1 : world) (rows : list refresh_token) :
  exec (SelectValidRefreshToken t) w = (Fulfilled rows, w1) ->
  rows = filter (fun r => rt_token r = t /\ clock w < rt_expires_at r) (refresh_tokens w)
  /\ same_data w w1.
Proof.
  simpl. apply (on_pg_read (fun w0 => filter _ (refresh_tokens w0))).
  intros w0 (Hc & _ & _ & _ & Hr & _). rewrite Hc, Hr. reflexivity.
Qed.

Lemma exec_SelectActiveApprovedUser (uid : Z) (w w1 : world) (rows : list user) :
  exec (SelectActiveApprovedUser uid) w = (Fulfilled rows, w1) ->
  rows = filter (fun u => u_id u = uid /\ u_is_active u = true /\ u_is_approved u = true)
                (users w)
  /\ same_data w w1.
Proof.
  simpl. apply (on_pg_read (fun w0 => filter _ (users w0))).
  intros w0 (_ & _ & _ & _ & _ & Hu). rewrite Hu. reflexivity.
Qed.

(** X6. [authenticateRefreshToken] calls [next()] only for a refresh
    assertion that verifies, has a row in the table that is not past its
    expiry, and belongs to a user who is active and approved; that user
    is what it attaches to the request, and the tables are left as they
    were. *)
Theorem authenticateRefreshToken_sound (refreshToken : option jwt) (w : world) (u : user) :
  fst (run (authenticateRefreshToken refreshToken) w) = Fulfilled (next u) ->
  exists t decoded row,
    refreshToken = Some t
    /\ Jwt.verify t JWT_REFRESH_SECRET (clock w) = inr decoded
    /\ row ∈ refresh_tokens w /\ rt_token row = t /\ clock w < rt_expires_at row
    /\ u ∈ users w /\ u_id u = userId decoded
    /\ u_is_active u = true /\ u_is_approved u = true
    /\ same_data w (snd (run (authenticateRefreshToken refreshToken) w)).
Proof.
  destruct refreshToken as [t|]; [|unfold authenticateRefreshToken; simpl; discriminate].
  destruct (no_token (Some t)) eqn:Htoken.
  { unfold authenticateRefreshToken. rewrite Htoken. simpl. discriminate. }
  rewrite run_authenticateRefreshToken by exact Htoken. unfold deleted_or_500.
  destruct (exec (SelectValidRefreshToken t) w) as [[rows | e] w1] eqn:Hrows;
    [|discriminate].
  apply exec_SelectValidRefreshToken in Hrows as [Hrows Hsame1].
  destruct rows as [|row rows]; [discriminate |].
  assert (row ∈ filter (fun r => rt_token r = t /\ clock w < rt_expires_at r)
                       (refresh_tokens w)) as Hrow
    by (rewrite <- Hrows; apply list_elem_of_here).
  apply list_elem_of_filter in Hrow as [[Htok Hexp] Hin].
  pose proof Hsame1 as (Hc1 & _). rewrite Hc1.
  destruct (Jwt.verify t JWT_REFRESH_SECRET (clock w)) as [e | decoded] eqn:Hverify.
  { destruct (exec (DeleteRefreshToken t) w1) as [[x | e'] w2]; discriminate. }
  destruct (exec (SelectActiveApprovedUser _) w1) as [[urows | e] w2] eqn:Husers.
  2: { destruct (exec (DeleteRefreshToken t) w2) as [[x | e'] w3]; discriminate. }
  apply exec_SelectActiveApprovedUser in Husers as [Husers Hsame2].
  destruct urows as [|u' urows]; [discriminate |].
  intros [= ->].
  assert (u ∈ filter (fun u => u_id u = userId decoded /\ u_is_active u = true
                               /\ u_is_approved u = true) (users w1)) as Hu
    by (rewrite <- Husers; apply list_elem_of_here).
  apply list_elem_of_filter in Hu as [(Hid & Hact & Happ) Hin'].
  pose proof Hsame1 as (_ & _ & _ & _ & _ & Hu1). rewrite Hu1 in Hin'.
  exists t, decoded, row. simpl.
  repeat (split; [assumption || reflexivity |]).
  eapply same_data_trans; [exact Hsame1 | exact Hsame2].
Qed.

Lemma authenticateRefreshToken_sound_witness :
  let t := Jwt.sign 7 None JWT_REFRESH_SECRET Jwt.d7 1000 in
  let w := set_refresh_tokens [RefreshToken 7 t (1000 + Jwt.d7)] sample_world in
  let ada := User 7 "ada@example.org" "correct horse" "Ada" "Lovelace" "admin"
                  false true true in
  fst (run (authenticateRefreshToken (Some t)) w) = Fulfilled (next ada)
  /\ exists t' decoded row,
      Some t = Some t'
      /\ Jwt.verify t' JWT_REFRESH_SECRET (clock w) = inr decoded
      /\ row ∈ refresh_tokens w /\ rt_token row = t' /\ clock w < rt_expires_at row
      /\ ada ∈ users w /\ u_id ada = userId decoded
      /\ u_is_active ada = true /\ u_is_approved ada = true
      /\ same_data w (snd (run (authenticateRefreshToken (Some t)) w)).
Proof.
  intros t w ada.
  assert (fst (run (authenticateRefreshToken (Some t)) w) = Fulfilled (next ada)) as H
    by (vm_compute; reflexivity).
  split; [exact H |].
  exact (authenticateRefreshToken_sound (Some t) w ada H).
Defined.

Lemma verify_not_empty (t : jwt) (k : secret) (now : Z) (c : claims) :
  Jwt.verify t k now = inr c -> no_token (Some t) = false.
Proof. destruct t; [reflexivity | discriminate]. Qed.

(** X7. A database failure during the user lookup costs the client its
    refresh assertion.  When the row is found, the assertion verifies,
    and the statement that looks the user up is rejected, the [catch]
    meant for a bad assertion deletes the row from the table and the
    answer is 401 "Invalid refresh token.". *)
Theorem lookup_failure_deletes_refresh_token (t : jwt) (decoded : claims)
    (row : refresh_token) (w : world) (fs : list bool) :
  Jwt.verify t JWT_REFRESH_SECRET (clock w) = inr decoded ->
  row ∈ refresh_tokens w -> rt_token row = t -> clock w < rt_expires_at row ->
  pg_faults w = false :: true :: false :: fs ->
  fst (run (authenticateRefreshToken (Some t)) w)
  = Fulfilled (respond 401 (message_body "Invalid refresh token."))
  /\ forall r, r ∈ refresh_tokens (snd (run (authenticateRefreshToken (Some t)) w)) ->
               rt_token r <> t.
Proof.
  intros Hverify Hin Htok Hexp Hf.
  rewrite run_authenticateRefreshToken by (eapply verify_not_empty; exact Hverify).
  simpl (exec (SelectValidRefreshToken t) w). unfold on_pg. rewrite Hf.
  simpl (refresh_tokens _). simpl (clock (set_pg_faults _ _)).
  destruct (filter _ (refresh_tokens w)) as [|row' rows] eqn:Hrows.
  { exfalso. assert (row ∈ filter (fun r => rt_token r = t /\ clock w < rt_expires_at r)
                             (refresh_tokens w)) as H
      by (apply list_elem_of_filter; auto).
    rewrite Hrows in H. inversion H. }
  cbv iota beta. rewrite Hverify.
  simpl (exec (SelectActiveApprovedUser _) _). unfold on_pg. simpl (pg_faults _).
  cbv iota beta. unfold deleted_or_500.
  simpl (exec (DeleteRefreshToken t) _). unfold on_pg. simpl (pg_faults _).
  cbv iota beta. split; [reflexivity |].
  simpl. intros r Hr. apply list_elem_of_filter in Hr as [Hne _]. exact Hne.
Qed.

Lemma lookup_failure_deletes_refresh_token_witness :
  let t := Jwt.sign 7 None JWT_REFRESH_SECRET Jwt.d7 1000 in
  let row := RefreshToken 7 t (1000 + Jwt.d7) in
  let w := set_pg_faults [false; true; false] (set_refresh_tokens [row] sample_world) in
  Jwt.verify t JWT_REFRESH_SECRET (clock w) = inr (Claims 7 None 1000 (1000 + Jwt.d7))
  /\ row ∈ refresh_tokens w /\ clock w < rt_expires_at row
  /\ fst (run (authenticateRefreshToken (Some t)) w)
     = Fulfilled (respond 401 (message_body "Invalid refresh token."))
  /\ refresh_tokens (snd (run (authenticateRefreshToken (Some t)) w)) = [].
Proof.
  intros t row w.
  assert (row ∈ refresh_tokens w) as Hin by apply list_elem_of_here.
  assert (clock w < rt_expires_at row) as Hexp by (vm_compute; reflexivity).
  destruct (lookup_failure_deletes_refresh_token t _ row w [] eq_refl Hin eq_refl Hexp
              eq_refl) as [Hres _].
  split; [reflexivity |]. split; [exact Hin |]. split; [exact Hexp |].
  split; [exact Hres | vm_compute; reflexivity].
Defined.

(** ** The role checks *)

Lemma createAuditLog_fulfils (action : string) (user_id : option Z) (details : Json)
    (ip : option string) (w : world) :
  exists v, fst (run (createAuditLog action user_id details ip) w) = Fulfilled v.
Proof.
  rewrite run_createAuditLog.
  destruct (exec (InsertAuditLog _ _ _ _) w) as [[result | e] w1]; [|simpl; eauto].
  destruct (includes significantActions action); [|simpl; eauto].
  destruct (exec (LPUSH _ _) w1) as [[n | e] w2]; [|simpl; eauto].
  destruct (exec (LTRIM _ _ _) w2) as [[u | e] w3]; [|simpl; eauto].
  destruct (exec (PUBLISH _ _) w3) as [[n' | e] w4]; simpl; eauto.
Qed.

Lemma run_detached_createAuditLog (action : string) (user_id : option Z)
    (details : Json) (ip : option string) (h : error -> prog unit) (w : world) :
  run (detached (createAuditLog action user_id details ip) h) w
  = (Fulfilled tt, snd (run (createAuditLog action user_id details ip) w)).
Proof.
  unfold detached. run_simpl.
  destruct (createAuditLog_fulfils action user_id details ip w) as [v Hv].
  destruct (run (createAuditLog action user_id details ip) w) as [[v' | e] w1];
    simpl in *; [reflexivity | discriminate].
Qed.

Lemma run_log_unauthorized (u : req_user) (details : Json) (w : world) :
  run (log_unauthorized u details) w
  = (Fulfilled tt,
     snd (run (createAuditLog "UNAUTHORIZED_ACCESS" (Some (ru_id u)) details None) w)).
Proof. apply run_detached_createAuditLog. Qed.

(** A significant event with the database and the cache up: the row,
    the list and the channel. *)
Lemma createAuditLog_notified (action : string) (user_id : option Z) (details : Json)
    (ip : option string) (w : world) (l : list string) :
  includes significantActions action = true ->
  pg_down w = false ->
  redis_up 3 w = true ->
  ring_buffer w = Some l ->
  let r := run (createAuditLog action user_id details ip) w in
  let event := notification (next_log_id w) action user_id details (clock w) in
  fst r = Fulfilled (Some (next_log_id w))
  /\ ring_buffer (snd r) = Some (event :: take 99 l)
  /\ published (snd r) = (notifications, event) :: published w
  /\ audit_logs (snd r) = (audit_logs w ++ [new_log action user_id details ip w])%list.
Proof.
  intros Hsig Hpg Hup Hbuf r event.
  destruct (push_then_trim (clock w) (redis w) event l Hbuf)
    as (n & m1 & m2 & Hpush & Htrim & t & Hlook).
  unfold r. rewrite run_createAuditLog, exec_InsertAuditLog, Hpg, Hsig.
  unfold redis_up in Hup.
  set (w1 := set_audit_logs _ _).
  assert (exec (LPUSH notifications
                      (notification (next_log_id w) action user_id details (clock w1)))
               w1
          = (Fulfilled n, set_redis m1 (set_redis_faults (tail (redis_faults w)) w1)))
    as ->.
  { simpl. unfold on_redis. simpl. fold event.
    destruct (redis_faults w) as [|[] fs] eqn:Hf; [| discriminate Hup |];
      rewrite Hpush; [|reflexivity].
    destruct w; simpl in *; subst; reflexivity. }
  set (w2 := set_redis m1 _).
  assert (exec (LTRIM notifications 0 99) w2
          = (Fulfilled tt,
             set_redis m2 (set_redis_faults (tail (tail (redis_faults w))) w2))) as ->.
  { simpl. unfold on_redis. simpl.
    destruct (redis_faults w) as [|[] [|[] fs]] eqn:Hf; try discriminate Hup;
      simpl; rewrite Htrim; try reflexivity. }
  set (w3 := set_redis m2 _).
  assert (exec (PUBLISH notifications
                        (notification (next_log_id w) action user_id details (clock w3)))
               w3
          = (Fulfilled 0,
             set_published ((notifications, event) :: published w)
               (set_redis_faults (tail (tail (tail (redis_faults w)))) w3))) as ->.
  { simpl. fold event.
    destruct (redis_faults w) as [|[] [|[] [|[] fs]]] eqn:Hf; try discriminate Hup;
      reflexivity. }
  simpl. split; [reflexivity |]. split; [|split; reflexivity].
  eapply ring_buffer_lookup. simpl. exact Hlook.
Qed.

(** X8. The role checks decide by the role alone.  [isAdmin],
    [isManager] and [isAdminOrManager] call [next()] exactly for a
    request that carries a user with the role (for the last, one of
    the two roles), whatever the database and the cache do while a
    refused attempt is logged. *)
Theorem role_checks_decide_by_role (user : option req_user) (r : req_line) (w : world) :
  (fst (run (isAdmin user r) w) = Fulfilled (next tt)
   <-> exists u, user = Some u /\ ru_role u = "admin")
  /\ (fst (run (isManager user r) w) = Fulfilled (next tt)
      <-> exists u, user = Some u /\ ru_role u = "manager")
  /\ (fst (run (isAdminOrManager user r) w) = Fulfilled (next tt)
      <-> exists u, user = Some u /\ (ru_role u = "admin" \/ ru_role u = "manager")).
Proof.
  unfold isAdmin, isManager, isAdminOrManager.
  destruct user as [u|].
  2: { repeat split; try (intros H; discriminate H);
         intros (u & Hu & _); discriminate Hu. }
  repeat split.
  - destruct (String.eqb_spec (ru_role u) "admin") as [Heq | Hne].
    + eauto.
    + run_simpl. rewrite run_log_unauthorized. discriminate.
  - intros (u' & [= <-] & Hrole). rewrite Hrole. reflexivity.
  - destruct (String.eqb_spec (ru_role u) "manager") as [Heq | Hne].
    + eauto.
    + run_simpl. rewrite run_log_unauthorized. discriminate.
  - intros (u' & [= <-] & Hrole). rewrite Hrole. reflexivity.
  - destruct (String.eqb_spec (ru_role u) "admin") as [Heq | Hne];
      [eauto |].
    destruct (String.eqb_spec (ru_role u) "manager") as [Heq' | Hne'];
      [eauto |].
    cbn [orb]. run_simpl. rewrite run_log_unauthorized. discriminate.
  - intros (u' & [= <-] & [Hrole | Hrole]); rewrite Hrole; reflexivity.
Qed.

Lemma recorded_denial_intro (p : prog (outcome unit)) (u : req_user) (details : Json)
    (msg : string) (w : world) :
  p = (log_unauthorized u details ;; Ret (respond 403 (message_body msg))) ->
  recorded_denial p u details msg w.
Proof.
  intros ->. unfold recorded_denial. run_simpl. rewrite run_log_unauthorized.
  split; [reflexivity |]. intros l Hpg Hup Hbuf. simpl.
  destruct (createAuditLog_notified "UNAUTHORIZED_ACCESS" (Some (ru_id u)) details None
              w l eq_refl Hpg Hup Hbuf) as (_ & H1 & H2 & H3).
  auto.
Qed.

(** X9. A refused attempt is recorded as a significant event.  For a
    user who is neither admin nor manager, each of the three role checks
    answers its 403, and when the database and the cache are up an
    UNAUTHORIZED_ACCESS row with the user's id, the required role, the
    user's role, the endpoint, the method and the address is appended to
    the audit log, put at the head of the Recent Significant Events list
    and published on the channel.  The same holds for [isResourceOwner]
    when the requested id is not the user's own. *)
Theorem refused_access_is_recorded (u : req_user) (r : req_line)
    (params_userId : option string) (body_userId : option Json) (w : world) :
  ru_role u <> "admin" -> ru_role u <> "manager" ->
  resourceUserId params_userId body_userId <> Some (ru_id u) ->
  recorded_denial (isAdmin (Some u) r) u (access_details "admin" (ru_role u) r)
                  "Access denied. Admin role required." w
  /\ recorded_denial (isManager (Some u) r) u (access_details "manager" (ru_role u) r)
                     "Access denied. Manager role required." w
  /\ recorded_denial (isAdminOrManager (Some u) r) u
                     (access_details "admin or manager" (ru_role u) r)
                     "Access denied. Admin or Manager role required." w
  /\ recorded_denial (isResourceOwner (Some u) params_userId body_userId r) u
                     (JObj [ ("requiredUserId",
                              from_option JNum JNull
                                (resourceUserId params_userId body_userId));
                             ("endpoint", JStr (originalUrl r));
                             ("method", JStr (method r));
                             ("ip", JStr (ip r)) ])
                     "Access denied. You can only access your own resources." w.
Proof.
  intros Ha Hm Hid.
  apply String.eqb_neq in Ha, Hm.
  split; [|split; [|split]]; apply recorded_denial_intro;
    unfold isAdmin, isManager, isAdminOrManager, isResourceOwner;
    rewrite ?Ha, ?Hm; try reflexivity.
  rewrite bool_decide_eq_false_2 by congruence. reflexivity.
Qed.

Lemma refused_access_is_recorded_witness :
  let u := ReqUser 8 "bob@example.org" "Bob" "Babbage" "user" false in
  let r := ReqLine "/api/users/7" "GET" "10.0.0.8" in
  let details := access_details "admin" "user" r in
  let p := isAdmin (Some u) r in
  fst (run p sample_world)
  = Fulfilled (respond 403 (message_body "Access denied. Admin role required."))
  /\ ring_buffer (snd (run p sample_world))
     = Some [notification 1 "UNAUTHORIZED_ACCESS" (Some 8) details 1000]
  /\ published (snd (run p sample_world))
     = [(notifications, notification 1 "UNAUTHORIZED_ACCESS" (Some 8) details 1000)]
  /\ audit_logs (snd (run p sample_world))
     = [AuditLog 1 "UNAUTHORIZED_ACCESS" (Some 8) (JSON.stringify details) None 1000].
Proof.
  intros u r details p.
  assert (ru_role u <> "admin") as Ha by discriminate.
  assert (ru_role u <> "manager") as Hm by discriminate.
  assert (resourceUserId (Some "7") None <> Some (ru_id u)) as Hid
    by (vm_compute; discriminate).
  destruct (refused_access_is_recorded u r (Some "7") None sample_world Ha Hm Hid)
    as ((H403 & Hrec) & _).
  split; [exact H403 |].
  exact (Hrec [] eq_refl eq_refl eq_refl).
Defined.

(** Up to 2^53 in size an integer is a Number, and is printed as it is. *)
Lemma round53_small (z : Z) : Z.abs z < 2 ^ 53 -> round53 z = z.
Proof.
  intros Hz. unfold round53.
  assert (Z.log2 (Z.abs z) <= 52) as Hlog.
  { destruct (Z.eq_dec (Z.abs z) 0) as [-> | Hne]; [simpl; lia |].
    assert (Z.log2 (Z.abs z) < 53) by (apply Z.log2_lt_pow2; lia). lia. }
  replace (Z.log2 (Z.abs z) - 52 <=? 0) with true by (symmetry; apply Z.leb_le; lia).
  reflexivity.
Qed.

Lemma round53_large (z : Z) : 2 ^ 53 <= z -> 2 ^ 53 <= round53 z.
Proof.
  intros Hz. unfold round53.
  assert (0 < z) as Hpos by lia.
  rewrite (Z.abs_eq z) by lia.
  assert (53 <= Z.log2 z) as Hlog by (apply Z.log2_le_pow2; lia).
  replace (Z.log2 z - 52 <=? 0) with false by (symmetry; apply Z.leb_gt; lia).
  cbv zeta. set (e := Z.log2 z - 52).
  assert (1 <= e) as He by (unfold e; lia).
  rewrite Z.sgn_pos by lia.
  rewrite Z.shiftr_div_pow2 by lia.
  assert (2 ^ 52 <= z / 2 ^ e) as Hq.
  { apply Z.div_le_lower_bound; [apply Z.pow_pos_nonneg; lia |].
    rewrite <- Z.pow_add_r by lia.
    replace (e + 52) with (Z.log2 z) by (unfold e; lia).
    apply Z.log2_spec. lia. }
  assert (1 <= 2 ^ (e - 1)) as Hp by (apply (Z.pow_le_mono_r 2 0 (e - 1)); lia).
  assert (2 ^ e = 2 * 2 ^ (e - 1)) as Hpe.
  { rewrite <- (Z.pow_succ_r 2 (e - 1)) by lia. f_equal. lia. }
  match goal with
  | |- context [if ?c then _ else _] => destruct c
  end; rewrite Z.shiftl_mul_pow2 by lia; nia.
Qed.

Lemma shortest_safe (fuel : nat) (a p : Z) :
  0 < a < 2 ^ 53 -> 0 <= p -> shortest fuel a p = a.
Proof.
  intros Ha. revert p. induction fuel as [|f IH]; intros p Hp; [reflexivity |].
  cbn [shortest]. cbv zeta.
  assert (0 <= a / p * p <= a) as Hlo.
  { destruct (Z.eq_dec p 0) as [-> | Hne]; [rewrite Z.mul_0_r; lia |].
    pose proof (Z.mul_div_le a p ltac:(lia)).
    pose proof (Z.div_pos a p ltac:(lia) ltac:(lia)). nia. }
  assert (a < a / p * p + p \/ p = 0) as Hhi.
  { destruct (Z.eq_dec p 0) as [-> | Hne]; [right; reflexivity | left].
    pose proof (Z.mul_succ_div_gt a p ltac:(lia)). lia. }
  assert (round53 (a / p * p) = a / p * p) as Hrlo
    by (apply round53_small; rewrite Z.abs_eq; lia).
  assert ((round53 (a / p * p + p) =? a) = false) as Hrhi.
  { apply Z.eqb_neq. destruct Hhi as [Hhi | ->].
    - destruct (Z_lt_le_dec (a / p * p + p) (2 ^ 53)) as [Hs | Hl].
      + rewrite round53_small by (rewrite Z.abs_eq; lia). lia.
      + pose proof (round53_large _ Hl). lia.
    - rewrite Z.mul_0_r, round53_small by (rewrite Z.abs_eq; lia). lia. }
  rewrite Hrlo, Hrhi, Bool.andb_false_r.
  destruct (0 <? a / p * p); cbn [andb];
    [|apply IH, Z.div_pos; lia].
  destruct (Z.eqb_spec (a / p * p) a) as [Heq | Hne]; [exact Heq |].
  apply IH, Z.div_pos; lia.
Qed.

Lemma Number_toString_safe (x : Z) :
  Z.abs x < 2 ^ 53 -> Number_toString x = JS.Z_to_string x.
Proof.
  intros Hx. unfold Number_toString.
  destruct (Z.eqb_spec x 0) as [-> | Hne]; [reflexivity |].
  rewrite shortest_safe by (try apply Z.pow_nonneg; lia).
  replace (Z.abs x <? 10 ^ 21) with true
    by (symmetry; apply Z.ltb_lt; assert (2 ^ 53 < 10 ^ 21) by reflexivity; lia).
  destruct (Z.ltb_spec x 0) as [Hneg | Hpos].
  - rewrite Z.abs_neq by lia. unfold JS.Z_to_string.
    replace (x <? 0) with true by (symmetry; apply Z.ltb_lt; lia).
    replace (- x <? 0) with false by (symmetry; apply Z.ltb_ge; lia).
    reflexivity.
  - rewrite Z.abs_eq by lia. reflexivity.
Qed.

Lemma to_Number_safe (z : Z) : Z.abs z < 2 ^ 53 -> to_Number z = Some z.
Proof.
  intros Hz. unfold to_Number. rewrite round53_small by exact Hz.
  replace (Z.abs z <? 2 ^ 1024) with true; [reflexivity |].
  symmetry. apply Z.ltb_lt.
  assert (2 ^ 53 < 2 ^ 1024) by (apply Z.pow_lt_mono_r; lia). lia.
Qed.

(** X10. On the routes behind [isResourceOwner] the path holds no
    [userId], so the body decides.  With a whole number below 2^53 in
    size as [userId] in the body, exactly the user with that id and the
    admins are let through; with no [userId] in the body, only an admin
    is.  The number is compared through its text: from 10^21 on it is
    printed with an exponent and read back by its leading digits, so
    that the user with id 3 is let through with 3e21 in the body. *)
Theorem isResourceOwner_decides_by_body (u : req_user) (m : Z) (r : req_line)
    (w : world) :
  - 2 ^ 53 < m < 2 ^ 53 ->
  (fst (run (isResourceOwner (Some u) None (Some (JNum m)) r) w) = Fulfilled (next tt)
   <-> m = ru_id u \/ ru_role u = "admin")
  /\ (fst (run (isResourceOwner (Some u) None None r) w) = Fulfilled (next tt)
      <-> ru_role u = "admin")
  /\ (ru_id u = 3 ->
      fst (run (isResourceOwner (Some u) None (Some (JNum (3 * 10 ^ 21))) r) w)
      = Fulfilled (next tt)).
Proof.
  intros Hm.
  assert (forall p b,
            fst (run (isResourceOwner (Some u) p b r) w) = Fulfilled (next tt)
            <-> resourceUserId p b = Some (ru_id u) \/ ru_role u = "admin") as H.
  { intros p b. unfold isResourceOwner.
    destruct (bool_decide_reflect (Some (ru_id u) = resourceUserId p b)) as [Heq | Hne];
      [split; auto |].
    destruct (String.eqb_spec (ru_role u) "admin") as [Ha | Ha]; [split; auto |].
    cbn [orb]. run_simpl. rewrite run_log_unauthorized.
    split; [discriminate | intros [Heq | Hr]; congruence]. }
  assert (resourceUserId None (Some (JNum m)) = Some m) as H1.
  { unfold resourceUserId, or_else, String_of, to_String.
    rewrite to_Number_safe, Number_toString_safe, parseInt_Z_to_string by lia.
    simpl. apply to_Number_safe. lia. }
  split; [|split].
  - rewrite H, H1. split; (intros [Hx | Hx]; [left | right; exact Hx]); congruence.
  - rewrite H. split; [|auto].
    intros [Hx | Hx]; [vm_compute in Hx; discriminate | exact Hx].
  - intros Hid. apply H. left. rewrite Hid. vm_compute. reflexivity.
Qed.

Lemma isResourceOwner_decides_by_body_witness :
  let bob := ReqUser 8 "bob@example.org" "Bob" "Babbage" "user" false in
  let r := ReqLine "/api/items/41" "GET" "10.0.0.8" in
  fst (run (isResourceOwner (Some bob) None (Some (JNum 8)) r) sample_world)
  = Fulfilled (next tt)
  /\ fst (run (isResourceOwner (Some bob) None (Some (JNum 7)) r) sample_world)
     <> Fulfilled (next tt)
  /\ fst (run (isResourceOwner (Some bob) None None r) sample_world)
     <> Fulfilled (next tt).
Proof.
  intros bob r.
  destruct (isResourceOwner_decides_by_body bob 8 r sample_world) as (H8 & Hnone & _);
    [lia |].
  destruct (isResourceOwner_decides_by_body bob 7 r sample_world) as (H7 & _ & _);
    [lia |].
  split; [apply H8; left; reflexivity |]. split.
  - intros Hx. apply H7 in Hx. destruct Hx as [Hx | Hx]; discriminate.
  - intros Hx. apply Hnone in Hx. discriminate.
Defined.

(** ** [authenticateToken] *)

Lemma given_Some (token : option jwt) (t : jwt) :
  given token = Some t -> token = Some t /\ no_token (Some t) = false.
Proof.
  unfold given. destruct (no_token token) eqn:Hn; [discriminate |].
  intros ->. auto.
Qed.

Lemma select_active_user_spec (read_id : option Json -> error + option Z)
    (param : option Json) (w : world) :
  same_data w (snd (select_active_user read_id param w))
  /\ forall rows, fst (select_active_user read_id param w) = Fulfilled rows ->
       exists uid, read_id param = inr uid
         /\ rows = filter (fun u => Some (u_id u) = uid /\ u_is_active u = true) (users w).
Proof.
  unfold select_active_user, on_pg, same_data.
  destruct (pg_faults w) as [|[] fs]; simpl.
  - destruct (read_id param) as [e | uid]; simpl.
    + split; [tauto | discriminate].
    + split; [tauto |]. intros rows [= <-]. eauto.
  - split; [tauto | discriminate].
  - destruct (read_id param) as [e | uid]; simpl.
    + split; [tauto | discriminate].
    + split; [tauto |]. intros rows [= <-]. eauto.
Qed.

Lemma validateSession_same_data (JSON_parse : string -> error + Json) (t : jwt)
    (w : world) :
  same_data w (snd (run (validateSession JSON_parse t) w)).
Proof.
  rewrite run_validateSession.
  pose proof (exec_GET_redis (session_key t) w) as Hr.
  pose proof (on_redis_frame w (fun m => Redis.get (clock w) m (session_key t)))
    as (Ha & Hc & Hp & Ht).
  assert (users (snd (exec (GET (session_key t)) w)) = users w) as Hu.
  { simpl. unfold on_redis. destruct (redis_faults w) as [|[] fs];
      try destruct (Redis.get _ _ _); reflexivity. }
  change (on_redis w (fun m => Redis.get (clock w) m (session_key t)))
    with (exec (GET (session_key t)) w) in Ha, Hc, Hp, Ht.
  assert (same_data w (snd (exec (GET (session_key t)) w))) as Hsame
    by (unfold same_data; tauto).
  clear Hr Ha Hc Hp Ht Hu.
  destruct (exec (GET _) w) as [[sessionData | e] w1]; [|exact Hsame].
  destruct (truthy_reply sessionData).
  - destruct (JSON_parse _); exact Hsame.
  - destruct (Jwt.verify _ _ _); exact Hsame.
Qed.

Lemma same_data_logged (msg : string) (w w' : world) :
  same_data w w' -> same_data w (logged msg w').
Proof. unfold same_data, logged. destruct w'; simpl. tauto. Qed.

(** X11. [authenticateToken] never throws, answers 401 whenever it does
    not call [next()], and only reads: the cache and the tables are
    left as they were. *)
Theorem authenticateToken_answers_401 (JSON_parse : string -> error + Json)
    (read_id : option Json -> error + option Z) (token : option jwt) (w : world) :
  ((exists u, fst (authenticateToken JSON_parse read_id token w) = Fulfilled (next u))
   \/ (exists body, fst (authenticateToken JSON_parse read_id token w)
                    = Fulfilled (respond 401 body)))
  /\ same_data w (snd (authenticateToken JSON_parse read_id token w)).
Proof.
  unfold authenticateToken.
  destruct (given token) as [t|]; [|split; [eauto | apply same_data_refl]].
  pose proof (validateSession_same_data JSON_parse t w) as Hs1.
  destruct (run (validateSession JSON_parse t) w) as [[sessionData | e] w1];
    simpl in Hs1.
  2: { split; [eauto | apply same_data_logged; exact Hs1]. }
  destruct (falsy sessionData); [split; [eauto | exact Hs1] |].
  pose proof (select_active_user_spec read_id (prop "userId" sessionData) w1)
    as [Hs2 _].
  destruct (select_active_user _ _ w1) as [[[|u rows] | e] w2]; simpl in Hs2.
  - split; [eauto | eapply same_data_trans; eassumption].
  - split; [eauto | eapply same_data_trans; eassumption].
  - split; [eauto |]. apply same_data_logged. eapply same_data_trans; eassumption.
Qed.

(** X12. [authenticateToken] calls [next()] only with a row of the
    users table: the session that [validateSession] returned for the
    token is not falsy, its [userId] reads as the id of a row that is
    active, and what is attached to the request (the role with it) is
    taken from that row, not from the session. *)
Theorem authenticateToken_sound (JSON_parse : string -> error + Json)
    (read_id : option Json -> error + option Z) (token : option jwt) (w : world)
    (attached : req_user) :
  fst (authenticateToken JSON_parse read_id token w) = Fulfilled (next attached) ->
  exists t session u,
    token = Some t
    /\ fst (run (validateSession JSON_parse t) w) = Fulfilled session
    /\ falsy session = false
    /\ read_id (prop "userId" session) = inr (Some (u_id u))
    /\ u ∈ users w /\ u_is_active u = true
    /\ attached = req_user_of u.
Proof.
  unfold authenticateToken.
  destruct (given token) as [t|] eqn:Hg; [|discriminate].
  apply given_Some in Hg as [-> _].
  pose proof (validateSession_same_data JSON_parse t w) as Hs1.
  destruct (run (validateSession JSON_parse t) w) as [[session | e] w1] eqn:Hrun;
    [|discriminate].
  destruct (falsy session) eqn:Hfalsy; [discriminate |].
  pose proof (select_active_user_spec read_id (prop "userId" session) w1)
    as [_ Hrows].
  destruct (select_active_user _ _ w1) as [[[|u rows] | e] w2]; try discriminate.
  intros [= <-].
  destruct (Hrows _ eq_refl) as (uid & Hread & Hfilter).
  assert (u ∈ filter (fun u => Some (u_id u) = uid /\ u_is_active u = true) (users w1))
    as Hin by (rewrite <- Hfilter; apply list_elem_of_here).
  apply list_elem_of_filter in Hin as [[<- Hactive] Hin].
  destruct Hs1 as (_ & _ & _ & _ & _ & Hu). simpl in Hu. rewrite Hu in Hin.
  exists t, session, u. rewrite Hrun. repeat split; try assumption; reflexivity.
Qed.

Lemma authenticateToken_sound_witness :
  let t := Jwt.sign 7 None JWT_SECRET Jwt.m15 1000 in
  let read_id := fun v : option Json =>
    match v with
    | Some (JNum n) => inr (Some n)
    | _ => inr None
    end in
  let ada := User 7 "ada@example.org" "correct horse" "Ada" "Lovelace" "admin"
                  false true true in
  fst (authenticateToken (fun _ => inr JNull) read_id (Some t) sample_world)
  = Fulfilled (next (req_user_of ada))
  /\ exists t' session u,
       Some t = Some t'
       /\ fst (run (validateSession (fun _ => inr JNull) t') sample_world)
          = Fulfilled session
       /\ falsy session = false
       /\ read_id (prop "userId" session) = inr (Some (u_id u))
       /\ u ∈ users sample_world /\ u_is_active u = true
       /\ req_user_of ada = req_user_of u.
Proof.
  intros t read_id ada.
  assert (fst (authenticateToken (fun _ => inr JNull) read_id (Some t) sample_world)
          = Fulfilled (next (req_user_of ada))) as H by (vm_compute; reflexivity).
  split; [exact H |].
  exact (authenticateToken_sound (fun _ => inr JNull) read_id (Some t) sample_world
           (req_user_of ada) H).
Defined.

(** ** Logging out *)

Lemma on_pg_ok {X} (w : world) (f : world -> X * world) :
  pg_faults w = [] -> on_pg w f = (Fulfilled (fst (f w)), snd (f w)).
Proof. unfold on_pg. intros ->. destruct (f w); reflexivity. Qed.

Lemma redis_up_nil (n : nat) (w : world) : redis_faults w = [] -> redis_up n w = true.
Proof. unfold redis_up. intros ->. destruct n; reflexivity. Qed.

(** An action that is not significant: only the audit log and the
    database connection are touched. *)
Lemma createAuditLog_quiet_frame (action : string) (user_id : option Z) (details : Json)
    (ip : option string) (w : world) :
  includes significantActions action = false ->
  let w' := snd (run (createAuditLog action user_id details ip) w) in
  redis w' = redis w /\ clock w' = clock w /\ refresh_tokens w' = refresh_tokens w
  /\ users w' = users w /\ redis_faults w' = redis_faults w
  /\ pg_faults w' = tail (pg_faults w).
Proof.
  intros Hsig. cbv zeta. rewrite run_createAuditLog, exec_InsertAuditLog, Hsig.
  destruct (pg_down w); simpl; repeat split.
Qed.

Lemma run_auth_logout_up (rt t : jwt) (user : req_user) (ip : string) (w : world) :
  redis_faults w = [] -> pg_faults w = [] ->
  no_token (Some rt) = false -> no_token (Some t) = false ->
  let r := run (auth_logout (Some rt) (Some t) user ip) w in
  fst r = Fulfilled (respond 200 (message_body "Logout successful"))
  /\ redis (snd r) = delete (session_key t) (redis w)
  /\ refresh_tokens (snd r) = filter (fun row => rt_token row <> rt) (refresh_tokens w)
  /\ users (snd r) = users w /\ clock (snd r) = clock w
  /\ redis_faults (snd r) = [] /\ pg_faults (snd r) = [].
Proof.
  intros Hrf Hpf Hrt Ht. cbv zeta. unfold auth_logout, given. rewrite Hrt, Ht.
  run_simpl. simpl (exec (DeleteRefreshToken rt) w). rewrite on_pg_ok by exact Hpf.
  cbn [fst snd]. run_simpl.
  set (w1 := set_refresh_tokens _ w).
  rewrite run_invalidateSession_up by (apply redis_up_nil; exact Hrf).
  run_simpl.
  set (w2 := set_redis _ _).
  rewrite run_detached_createAuditLog. run_simpl.
  destruct (createAuditLog_quiet_frame "LOGOUT" (Some (ru_id user))
              (JObj [("ip", JStr ip)]) None w2 eq_refl) as (H1 & H2 & H3 & H4 & H5 & H6).
  cbn [fst snd]. rewrite H1, H2, H3, H4, H5, H6.
  subst w2 w1. simpl. rewrite Hrf, Hpf. repeat split.
Qed.

Lemma filter_out_then_in (t : jwt) (now : Z) (l : list refresh_token) :
  filter (fun r => rt_token r = t /\ now < rt_expires_at r)
         (filter (fun r => rt_token r <> t) l) = [].
Proof.
  induction l as [|r l IH]; [reflexivity |].
  rewrite (filter_cons (fun r => rt_token r <> t)).
  destruct (decide (rt_token r <> t)) as [Hne | Heq]; [|exact IH].
  rewrite filter_cons. destruct (decide (rt_token r = t /\ now < rt_expires_at r))
    as [[Heq _] | _]; [contradiction | exact IH].
Qed.

(** X13. Logging out revokes the refresh assertion, not the access
    assertion.  With the database and the cache up, POST /logout answers
    200; afterwards [authenticateRefreshToken] refuses the refresh
    assertion that was sent, while [authenticateToken] still lets the
    access assertion through, for as long as it verifies and the account
    is active: the session record is gone, and the fallback of
    [validateSession] takes its place. *)
Theorem logout_revokes_refresh_not_access (JSON_parse : string -> error + Json)
    (read_id : option Json -> error + option Z) (rt t : jwt) (c : claims)
    (requester : req_user) (ip : string) (u : user) (w : world) :
  redis_faults w = [] -> pg_faults w = [] ->
  no_token (Some rt) = false ->
  Jwt.verify t JWT_SECRET (clock w) = inr c ->
  read_id (Some (JNum (userId c))) = inr (Some (userId c)) ->
  u ∈ users w -> u_id u = userId c -> u_is_active u = true ->
  let w' := snd (run (auth_logout (Some rt) (Some t) requester ip) w) in
  fst (run (auth_logout (Some rt) (Some t) requester ip) w)
  = Fulfilled (respond 200 (message_body "Logout successful"))
  /\ fst (run (authenticateRefreshToken (Some rt)) w')
     = Fulfilled (respond 401 (message_body "Invalid or expired refresh token."))
  /\ exists u', fst (authenticateToken JSON_parse read_id (Some t) w')
                = Fulfilled (next (req_user_of u'))
                /\ u' ∈ users w /\ u_id u' = userId c.
Proof.
  intros Hrf Hpf Hrt Hverify Hread Hin Hid Hactive w'.
  pose proof (verify_not_empty t JWT_SECRET (clock w) c Hverify) as Ht.
  destruct (run_auth_logout_up rt t requester ip w Hrf Hpf Hrt Ht)
    as (H200 & Hredis & Hrows & Husers & Hclock & Hrf' & Hpf').
  fold w' in Hredis, Hrows, Husers, Hclock, Hrf', Hpf'.
  split; [exact H200 |]. split.
  - rewrite run_authenticateRefreshToken by exact Hrt.
    simpl (exec (SelectValidRefreshToken rt) w'). rewrite on_pg_ok by exact Hpf'.
    cbn [fst snd]. rewrite Hrows, filter_out_then_in. reflexivity.
  - unfold authenticateToken, given. rewrite Ht.
    rewrite run_validateSession_miss;
      [| apply redis_up_nil; exact Hrf'
       | rewrite Hredis; apply lookup_delete_gone].
    rewrite Hclock, Hverify. cbn [falsy prop assoc String.eqb Ascii.eqb Bool.eqb].
    unfold select_active_user. rewrite on_pg_ok by (simpl; exact Hpf').
    cbn [fst snd]. rewrite Hread. simpl (users _). rewrite Husers.
    assert (u ∈ filter (fun x => Some (u_id x) = Some (userId c) /\ u_is_active x = true)
                       (users w)) as Hu
      by (apply list_elem_of_filter; rewrite Hid; auto).
    destruct (filter _ (users w)) as [|u' rows] eqn:Hfilter; [inversion Hu |].
    assert (u' ∈ filter (fun x => Some (u_id x) = Some (userId c)
                                  /\ u_is_active x = true) (users w)) as Hu'
      by (rewrite Hfilter; apply list_elem_of_here).
    apply list_elem_of_filter in Hu' as [[[= Hid'] _] Hin'].
    exists u'. auto.
Qed.

Lemma logout_revokes_refresh_not_access_witness :
  let t := Jwt.sign 7 None JWT_SECRET Jwt.m15 1000 in
  let rt := Jwt.sign 7 None JWT_REFRESH_SECRET Jwt.d7 1000 in
  let read_id := fun v : option Json =>
    match v with
    | Some (JNum n) => inr (Some n)
    | _ => inr None
    end in
  let ada := User 7 "ada@example.org" "correct horse" "Ada" "Lovelace" "admin"
                  false true true in
  let w0 := set_refresh_tokens [RefreshToken 7 rt (1000 + Jwt.d7)] sample_world in
  let w' := snd (run (auth_logout (Some rt) (Some t) (req_user_of ada) "10.0.0.7") w0) in
  fst (run (authenticateRefreshToken (Some rt)) w0) = Fulfilled (next ada)
  /\ fst (run (auth_logout (Some rt) (Some t) (req_user_of ada) "10.0.0.7") w0)
     = Fulfilled (respond 200 (message_body "Logout successful"))
  /\ fst (run (authenticateRefreshToken (Some rt)) w')
     = Fulfilled (respond 401 (message_body "Invalid or expired refresh token."))
  /\ exists u', fst (authenticateToken (fun _ => inr JNull) read_id (Some t) w')
                = Fulfilled (next (req_user_of u'))
                /\ u' ∈ users w0 /\ u_id u' = 7.
Proof.
  intros t rt read_id ada w0 w'.
  split; [vm_compute; reflexivity |].
  assert (ada ∈ users w0) as Hin by apply list_elem_of_here.
  exact (logout_revokes_refresh_not_access (fun _ => inr JNull) read_id rt t
           (Claims 7 None 1000 1900) (req_user_of ada) "10.0.0.7" ada w0
           eq_refl eq_refl eq_refl eq_refl eq_refl Hin eq_refl eq_refl).
Defined.

(** X14. A logout that fails at the database revokes nothing.  When the
    statement that deletes the refresh assertion is rejected, POST
    /logout answers 500 and has not touched the cache: the session
    record is still there, and so is the row of the refresh
    assertion. *)
Theorem failed_logout_revokes_nothing (rt : jwt) (accessToken : option jwt)
    (requester : req_user) (ip : string) (w : world) (fs : list bool) :
  no_token (Some rt) = false ->
  pg_faults w = true :: fs ->
  fst (run (auth_logout (Some rt) accessToken requester ip) w)
  = Fulfilled (respond 500 (message_body "Internal server error"))
  /\ same_data w (snd (run (auth_logout (Some rt) accessToken requester ip) w)).
Proof.
  intros Hrt Hpf. unfold auth_logout, given. rewrite Hrt. run_simpl.
  simpl (exec (DeleteRefreshToken rt) w). unfold on_pg. rewrite Hpf.
  cbv iota beta. run_simpl. unfold console_error. run_simpl.
  simpl. split; [reflexivity |]. repeat split.
Qed.

Lemma failed_logout_revokes_nothing_witness :
  let t := Jwt.sign 7 None JWT_SECRET Jwt.m15 1000 in
  let rt := Jwt.sign 7 None JWT_REFRESH_SECRET Jwt.d7 1000 in
  let ada := ReqUser 7 "ada@example.org" "Ada" "Lovelace" "admin" false in
  let w := set_pg_faults [true]
             (set_refresh_tokens [RefreshToken 7 rt (1000 + Jwt.d7)]
                (snd (run (socketAuthMiddleware (fun _ => inr JNull) (Some t) "socket-1"
                                                "10.0.0.7") sample_world))) in
  let w' := snd (run (auth_logout (Some rt) (Some t) ada "10.0.0.7") w) in
  fst (run (auth_logout (Some rt) (Some t) ada "10.0.0.7") w)
  = Fulfilled (respond 500 (message_body "Internal server error"))
  /\ same_data w w'
  /\ (exists e, redis w' !! session_key t = Some e)
  /\ refresh_tokens w' = [RefreshToken 7 rt (1000 + Jwt.d7)].
Proof.
  intros t rt ada w w'.
  destruct (failed_logout_revokes_nothing rt (Some t) ada "10.0.0.7" w [] eq_refl eq_refl)
    as [H500 Hsame].
  split; [exact H500 |]. split; [exact Hsame |].
  split; [eexists; vm_compute; reflexivity | vm_compute; reflexivity].
Defined.

(** X15. The manager logout is not all or nothing.  It drops the session
    record first, so when the cache is up and the statement that deletes
    the refresh assertion is rejected, the error goes to [next(error)],
    the session record is gone and the row of the refresh assertion is
    still in the table. *)
Theorem manager_logout_half_done (rt t : jwt) (requester : req_user) (ip : string)
    (w : world) (fs : list bool) :
  no_token (Some rt) = false -> no_token (Some t) = false ->
  redis_up 1 w = true ->
  pg_faults w = true :: fs ->
  let r := run (manager_logout (Some rt) (Some t) requester ip) w in
  fst r = Fulfilled (next_error (DatabaseError "connection terminated"))
  /\ redis (snd r) = delete (session_key t) (redis w)
  /\ refresh_tokens (snd r) = refresh_tokens w
  /\ audit_logs (snd r) = audit_logs w.
Proof.
  intros Hrt Ht Hup Hpf. cbv zeta. unfold manager_logout, given. rewrite Hrt, Ht.
  run_simpl. simpl (exec (DEL _) w). rewrite on_redis_up by exact Hup.
  unfold Redis.del.
  assert (forall x : settled Z * gmap string entry,
            x = (Fulfilled 0, delete (session_key t) (redis w))
            \/ x = (Fulfilled 1, delete (session_key t) (redis w)) ->
            exists n, x = (Fulfilled n, delete (session_key t) (redis w))) as Hx
    by (intros x [-> | ->]; eauto).
  destruct (Hx (match Redis.lookup (clock w) (redis w) (session_key t) with
                | Some _ => (Fulfilled 1, delete (session_key t) (redis w))
                | None => (Fulfilled 0, delete (session_key t) (redis w))
                end)) as [n ->]; [destruct (Redis.lookup _ _ _); auto |].
  cbn [fst snd]. run_simpl.
  simpl (exec (DeleteRefreshToken rt) _). unfold on_pg. simpl (pg_faults _).
  rewrite Hpf. cbv iota beta. run_simpl. simpl. repeat split.
Qed.

Lemma manager_logout_half_done_witness :
  let t := Jwt.sign 9 (Some "manager") JWT_SECRET Jwt.m15 1000 in
  let rt := Jwt.sign 9 (Some "manager") JWT_REFRESH_SECRET Jwt.d7 1000 in
  let eve := ReqUser 9 "eve@example.org" "Eve" "Hopper" "manager" false in
  let w := set_pg_faults [true]
             (snd (run (manager_login (Some "eve@example.org") (Some "tr0ub4dor")
                                      "10.0.0.9" "curl") sample_world)) in
  let r := run (manager_logout (Some rt) (Some t) eve "10.0.0.9") w in
  (exists e, redis w !! session_key t = Some e)
  /\ refresh_tokens w = [RefreshToken 9 rt (1000 + Jwt.d7)]
  /\ fst r = Fulfilled (next_error (DatabaseError "connection terminated"))
  /\ redis (snd r) = delete (session_key t) (redis w)
  /\ refresh_tokens (snd r) = refresh_tokens w
  /\ audit_logs (snd r) = audit_logs w.
Proof.
  intros t rt eve w r.
  split; [eexists; vm_compute; reflexivity |]. split; [vm_compute; reflexivity |].
  exact (manager_logout_half_done rt t eve "10.0.0.9" w [] eq_refl eq_refl eq_refl eq_refl).
Defined.

(** ** A counter that is in the store *)







Lemma serve_expired (o : options) (ip : string) (e : entry) (T : Z) (delays : list Z) :
  expiry e = Some T ->
  Forall (fun d => 0 <= d) delays ->
  forall w : world,
    redis w !! limiter_key o ip = Some e ->
    T <= clock w ->
    Forall (fun out => out = Fulfilled (next tt))
           (fst (serve o (from_client ip delays) w))
    /\ redis (snd (serve o (from_client ip delays) w)) = redis w.
Proof.
  intros HT Hpos. induction Hpos as [|d delays Hd Hpos IH]; intros w Hraw Hexp.
  { split; [constructor | reflexivity]. }
  cbn [from_client map serve req_after req_ip req_redis_faults].
  fold (from_client ip delays).
  set (wl := later d [] (pg_faults w) w).
  assert (Redis.lookup (clock wl) (redis wl) (limiter_key o ip) = None) as Hl.
  { unfold Redis.lookup, Redis.live. change (redis wl) with (redis w).
    change (clock wl) with (clock w + d). rewrite Hraw, HT.
    replace (clock w + d <? T) with false by (symmetry; apply Z.ltb_ge; lia).
    reflexivity. }
  destruct (createRateLimiter_creates_nothing o ip wl Hl) as [Hout Hredis].
  assert (clock (snd (run (createRateLimiter o ip) wl)) = clock wl) as Hclock.
  { rewrite run_createRateLimiter.
    pose proof (exec_GET_inv (limiter_key o ip) wl) as Hget.
    destruct (exec (GET _) wl) as [[currentCount | e'] w1].
    2: { destruct (Hget _ _ eq_refl) as [_ Hc]. simpl. exact Hc. }
    destruct (Hget _ _ eq_refl) as [_ Hc].
    destruct (at_limit currentCount (max o)); [exact Hc |].
    destruct (truthy_reply currentCount).
    - pose proof (exec_frame (INCR (limiter_key o ip)) w1 eq_refl) as [_ Hc2].
      destruct (exec (INCR _) w1) as [[n | e'] w2]; cbn [snd] in Hc2 |- *;
        change (clock (logged ?m ?w0)) with (clock w0); congruence.
    - destruct (exec_SET_options (limiter_key o ip) "1" (window_options o) w1)
        as [_ (Hc2 & _)].
      destruct (exec (SET_options _ _ _) w1) as [r w2]. cbn [snd] in Hc2 |- *.
      change (clock (logged ?m ?w0)) with (clock w0). congruence. }
  destruct (run (createRateLimiter o ip) wl) as [out w1].
  cbn [fst snd] in Hout, Hredis, Hclock. change (redis wl) with (redis w) in Hredis.
  change (clock wl) with (clock w + d) in Hclock.
  destruct (IH w1) as [Houts Hredis'].
  { rewrite Hredis. exact Hraw. }
  { lia. }
  destruct (serve o (from_client ip delays) w1) as [outs w2]. cbn [fst snd] in *.
  split; [constructor; assumption | congruence].
Qed.

(** X17. A counter that has run out is not set up again.  When the key
    of a client holds an entry whose expiry has passed, every request
    the client sends from then on is let through, however many they
    are, and the keyspace is left as it was: the limiter creates no new
    counter. *)
Theorem expired_counter_is_not_renewed (o : options) (ip : string) (e : entry) (T : Z)
    (delays : list Z) (w : world) :
  redis w !! limiter_key o ip = Some e -> expiry e = Some T ->
  T <= clock w ->
  Forall (fun d => 0 <= d) delays ->
  Forall (fun out => out = Fulfilled (next tt))
         (fst (serve o (from_client ip delays) w))
  /\ redis (snd (serve o (from_client ip delays) w)) = redis w.
Proof.
  intros Hraw HT Hexp Hpos. exact (serve_expired o ip e T delays HT Hpos w Hraw Hexp).
Qed.

Lemma expired_counter_is_not_renewed_witness :
  let o := loginRateLimiter_options in
  let e := Entry (RString "5") (Some 1200) in
  let w := set_redis {[ "rl:login:203.0.113.7" := e ]} (empty_world 1200) in
  fst (run (loginRateLimiter "203.0.113.7") (set_clock 1199 w)) = Fulfilled (denial o)
  /\ fst (serve o (from_client "203.0.113.7" [0; 1; 1; 1; 1; 1; 1]) w)
     = replicate 7 (Fulfilled (next tt))
  /\ redis (snd (serve o (from_client "203.0.113.7" [0; 1; 1; 1; 1; 1; 1]) w)) = redis w.
Proof.
  intros o e w.
  destruct (expired_counter_is_not_renewed o "203.0.113.7" e 1200 [0; 1; 1; 1; 1; 1; 1] w)
    as [_ Hredis].
  { apply lookup_insert_eq. }
  { reflexivity. }
  { simpl. lia. }
  { repeat constructor; lia. }
  split; [vm_compute; reflexivity |]. split; [vm_compute; reflexivity | exact Hredis].
Defined.

(** ** The login route behind its limiter *)

Lemma trace_createRateLimiter_denied (o : options) (ip : string) (w : world) (n : Z) :
  redis_faults w = [] ->
  stored_count (clock w) (redis w) (limiter_key o ip) = Some n ->
  max o <= n ->
  run (createRateLimiter o ip) w = (Fulfilled (denial o), set_redis (redis w) w)
  /\ trace (createRateLimiter o ip) w = [existT _ (GET (limiter_key o ip))].
Proof.
  intros Hf Hn Hle. unfold stored_count in Hn.
  destruct (Redis.lookup _ _ _) as [[[s | l] t]|] eqn:Hl; try discriminate.
  assert (exec (GET (limiter_key o ip)) w = (Fulfilled (Some s), set_redis (redis w) w))
    as Hget.
  { simpl. unfold on_redis, Redis.get. rewrite Hf, Hl. reflexivity. }
  assert (at_limit (Some s) (max o) = true) as Hlim
    by (apply at_limit_spec; exists s, n; auto).
  split.
  - rewrite run_createRateLimiter, Hget, Hlim. reflexivity.
  - unfold createRateLimiter. fold (limiter_key o ip).
    rewrite trace_try_catch, trace_mbind, run_mbind, trace_await, run_await, Hget, Hlim.
    reflexivity.
Qed.

(** X18. A denied login is not attempted.  When the cache is reachable
    and the client's live count has reached the maximum of the login
    limiter, POST /login answers the limiter's 429 whatever the
    credentials are, and the one command the request issues is the read
    of the counter: no statement reaches the database and no password
    is compared. *)
Theorem denied_login_is_not_attempted (body_email body_password : option string)
    (ip : string) (w : world) (n : Z) :
  redis_faults w = [] ->
  stored_count (clock w) (redis w) (limiter_key loginRateLimiter_options ip) = Some n ->
  max loginRateLimiter_options <= n ->
  fst (run (post_auth_login body_email body_password ip) w)
  = Fulfilled (denial loginRateLimiter_options)
  /\ trace (post_auth_login body_email body_password ip) w
     = [existT _ (GET (limiter_key loginRateLimiter_options ip))].
Proof.
  intros Hf Hn Hle.
  destruct (trace_createRateLimiter_denied loginRateLimiter_options ip w n Hf Hn Hle)
    as [Hrun Htrace].
  unfold post_auth_login, route, loginRateLimiter.
  rewrite run_mbind, trace_mbind, Hrun, Htrace. split; reflexivity.
Qed.

Lemma denied_login_is_not_attempted_witness :
  let ip := "203.0.113.7" in
  let w := set_redis {[ "rl:login:203.0.113.7" := Entry (RString "5") (Some 1200) ]}
                     sample_world in
  stored_count (clock w) (redis w) (limiter_key loginRateLimiter_options ip) = Some 5
  /\ fst (run (post_auth_login (Some "ada@example.org") (Some "correct horse") ip) w)
     = Fulfilled (denial loginRateLimiter_options)
  /\ trace (post_auth_login (Some "ada@example.org") (Some "correct horse") ip) w
     = [existT _ (GET (limiter_key loginRateLimiter_options ip))].
Proof.
  intros ip w.
  assert (stored_count (clock w) (redis w) (limiter_key loginRateLimiter_options ip)
          = Some 5) as Hn by (vm_compute; reflexivity).
  split; [exact Hn |].
  apply (denied_login_is_not_attempted _ _ ip w 5); [reflexivity | exact Hn |].
  vm_compute. discriminate.
Defined.

(** ** The refresh route *)

(** The handler of POST /refresh-token, whatever it is given. *)
Lemma run_auth_refresh_token (t : jwt) (ip : string) (u : user) (w : world) :
  fst (run (auth_refresh_token t ip u) w)
  = Fulfilled (respond 500 (message_body "Internal server error"))
  /\ same_data w (snd (run (auth_refresh_token t ip u) w)).
Proof.
  unfold auth_refresh_token. run_simpl. rewrite run_refreshSession. run_simpl.
  unfold console_error. run_simpl. cbn [fst snd].
  split; [reflexivity |]. apply same_data_logged.
  destruct (Jwt.verify t JWT_REFRESH_SECRET (clock w)) as [e | decoded];
    [apply same_data_refl | apply createSession_rejects].
Qed.

(** X19. The refresh route never refreshes.  Whenever
    [authenticateRefreshToken] lets a request through, the handler of
    POST /refresh-token answers 500 "Internal server error": the session
    it wants to store is refused by the cache, so no access assertion is
    handed out, and the cache, the audit trail and the table of refresh
    assertions are left as they were.  The route as a whole therefore
    never answers 200. *)
Theorem refresh_route_never_refreshes :
  (forall (t : jwt) (ip : string) (u : user) (w : world),
      fst (run (auth_refresh_token t ip u) w)
      = Fulfilled (respond 500 (message_body "Internal server error"))
      /\ same_data w (snd (run (auth_refresh_token t ip u) w)))
  /\ (forall (refreshToken : option jwt) (ip : string) (w : world) (body : Json),
         fst (run (post_auth_refresh_token refreshToken ip) w)
         <> Fulfilled (respond 200 body)).
Proof.
  split; [exact run_auth_refresh_token |].
  intros refreshToken ip w body.
  unfold post_auth_refresh_token, route.
  destruct refreshToken as [t|];
    [|unfold authenticateRefreshToken; simpl; discriminate].
  destruct (no_token (Some t)) eqn:Htoken.
  { unfold authenticateRefreshToken. rewrite Htoken. simpl. discriminate. }
  rewrite run_mbind, run_authenticateRefreshToken by exact Htoken.
  unfold deleted_or_500. simpl (default _ _).
  destruct (exec (SelectValidRefreshToken t) w) as [[rows | e] w1];
    [|simpl; discriminate].
  destruct rows as [|row rows]; [simpl; discriminate |].
  destruct (Jwt.verify t JWT_REFRESH_SECRET (clock w1)) as [e | decoded].
  { destruct (exec (DeleteRefreshToken t) w1) as [[x | e'] w2]; simpl; discriminate. }
  destruct (exec (SelectActiveApprovedUser _) w1) as [[urows | e] w2].
  2: { destruct (exec (DeleteRefreshToken t) w2) as [[x | e'] w3]; simpl; discriminate. }
  destruct urows as [|u urows]; [simpl; discriminate |].
  destruct (run_auth_refresh_token t ip u w2) as [H500 _].
  rewrite H500. discriminate.
Qed.

(** ** Logging in *)

Lemma filter_head_elem {A} (P : A -> Prop) `{!forall x, Decision (P x)} (l : list A)
    (x : A) :
  x ∈ l -> P x -> exists y rest, filter P l = y :: rest /\ P y /\ y ∈ l.
Proof.
  intros Hin HP.
  assert (x ∈ filter P l) as Hx by (apply list_elem_of_filter; auto).
  destruct (filter P l) as [|y rest] eqn:Hf; [inversion Hx |].
  assert (y ∈ filter P l) as Hy by (rewrite Hf; apply list_elem_of_here).
  apply list_elem_of_filter in Hy as [HPy Hy]. eauto.
Qed.

Lemma exec_SelectUserByEmail (e : string) (w : world) :
  same_data w (snd (exec (SelectUserByEmail e) w)).
Proof.
  simpl. unfold on_pg. destruct (pg_faults w) as [|[] fs]; repeat split.
Qed.

Lemma createAuditLog_failed_login (user_id : option Z) (details : Json) (w : world) :
  let w' := snd (run (createAuditLog "FAILED_LOGIN" user_id details None) w) in
  redis w' = redis w /\ refresh_tokens w' = refresh_tokens w.
Proof.
  destruct (createAuditLog_quiet_frame "FAILED_LOGIN" user_id details None w eq_refl)
    as (H1 & _ & H3 & _).
  auto.
Qed.

Lemma same_but_trans (k : string) (w1 w2 w3 : world) :
  same_but k w1 w2 -> same_but k w2 w3 -> same_but k w1 w3.
Proof.
  unfold same_but. intros (A1 & A2 & A3 & A4 & A5 & A6 & A7 & A8)
                          (B1 & B2 & B3 & B4 & B5 & B6 & B7 & B8).
  repeat split; try congruence. intros k' Hk. rewrite B8, A8 by exact Hk. reflexivity.
Qed.

Lemma same_but_logged (k msg : string) (w w' : world) :
  same_but k w w' -> same_but k w (logged msg w').
Proof. unfold same_but, logged. destruct w'; simpl. tauto. Qed.

Lemma on_redis_same_but {X} (k : string) (w : world)
    (f : gmap string entry -> settled X * gmap string entry) :
  (forall k', k' <> k -> snd (f (redis w)) !! k' = redis w !! k') ->
  same_but k w (snd (on_redis w f)).
Proof.
  intros Hf. unfold on_redis, same_but.
  destruct (redis_faults w) as [|[] fs]; try destruct (f (redis w)) as [r m];
    simpl in *; repeat split; auto.
Qed.

Lemma exec_GET_same_but (k : string) (w : world) : same_but k w (snd (exec (GET k) w)).
Proof.
  simpl. apply on_redis_same_but. unfold Redis.get.
  destruct (Redis.lookup _ _ _) as [[[s | l] t]|]; reflexivity.
Qed.

Lemma exec_INCR_same_but (k : string) (w : world) : same_but k w (snd (exec (INCR k) w)).
Proof.
  simpl. apply on_redis_same_but. unfold Redis.incr. intros k' Hk.
  destruct (Redis.lookup _ _ _) as [[[s | l] t]|]; simpl;
    try destruct (Redis.string2ll s) as [n|]; try destruct (n <? Redis.int64_max);
    simpl; try rewrite lookup_insert_ne by congruence; reflexivity.
Qed.

Lemma exec_SET_options_same_but (k v : string) (options : list (string * Json))
    (w : world) :
  same_but k w (snd (exec (SET_options k v options) w)).
Proof. simpl. apply on_redis_same_but. reflexivity. Qed.

(** The limiter touches the key of its client and nothing else. *)
Lemma createRateLimiter_frame (o : options) (ip : string) (w : world) :
  same_but (limiter_key o ip) w (snd (run (createRateLimiter o ip) w)).
Proof.
  rewrite run_createRateLimiter.
  pose proof (exec_GET_same_but (limiter_key o ip) w) as Hget.
  destruct (exec (GET _) w) as [[currentCount | e] w1]; cbn [snd] in Hget |- *;
    [|apply same_but_logged; exact Hget].
  destruct (at_limit currentCount (max o)); [exact Hget |].
  destruct (truthy_reply currentCount).
  - pose proof (exec_INCR_same_but (limiter_key o ip) w1) as Hincr.
    destruct (exec (INCR _) w1) as [[n | e] w2]; cbn [snd] in Hincr |- *;
      [|apply same_but_logged]; exact (same_but_trans _ _ _ _ Hget Hincr).
  - cbn [snd]. apply same_but_logged.
    exact (same_but_trans _ _ _ _ Hget (exec_SET_options_same_but _ _ _ w1)).
Qed.

(** The handler of POST /login hands nothing out and stores nothing. *)
Lemma auth_login_stores_nothing (body_email body_password : option string) (ip : string)
    (w : world) :
  (forall body, fst (run (auth_login body_email body_password ip) w)
                <> Fulfilled (respond 200 body))
  /\ redis (snd (run (auth_login body_email body_password ip) w)) = redis w
  /\ refresh_tokens (snd (run (auth_login body_email body_password ip) w))
     = refresh_tokens w.
Proof.
  unfold auth_login.
  destruct (missing body_email || missing body_password).
  { run_simpl. simpl. repeat split; discriminate. }
  run_simpl.
  pose proof (exec_SelectUserByEmail (JS.toLowerCase (default "" body_email)) w) as Hsame.
  destruct (exec (SelectUserByEmail _) w) as [[rows | e] w1]; simpl in Hsame;
    destruct Hsame as (_ & Hr & _ & _ & Ht & _).
  2: { run_simpl. unfold console_error. run_simpl. simpl.
       repeat split; try assumption; discriminate. }
  destruct rows as [|u rows].
  { run_simpl. rewrite run_detached_createAuditLog. run_simpl. cbn [fst snd].
    match goal with
    | |- context [createAuditLog _ ?i ?d _] =>
        destruct (createAuditLog_failed_login i d w1) as [-> ->]
    end.
    repeat split; try assumption; discriminate. }
  destruct (negb (u_is_active u) || negb (u_is_approved u)).
  { run_simpl. rewrite run_detached_createAuditLog. run_simpl. cbn [fst snd].
    match goal with
    | |- context [createAuditLog _ ?i ?d _] =>
        destruct (createAuditLog_failed_login i d w1) as [-> ->]
    end.
    repeat split; try assumption; discriminate. }
  run_simpl. simpl (exec (BcryptCompare _ _) w1).
  destruct (bcrypt_compare w1 _ _); cbn [negb]; cbv iota.
  2: { run_simpl. rewrite run_detached_createAuditLog. run_simpl. cbn [fst snd].
       match goal with
       | |- context [createAuditLog _ ?i ?d _] =>
           destruct (createAuditLog_failed_login i d w1) as [-> ->]
       end.
       repeat split; try assumption; discriminate. }
  run_simpl.
  match goal with
  | |- context [sessionManager.createSession ?i ?r ?d] =>
      destruct (createSession_rejects i r d w1) as [[e He] (_ & Hr2 & _ & _ & Ht2 & _)];
      destruct (run (sessionManager.createSession i r d) w1) as [[[at_ rt] | e'] w2]
  end; [discriminate He |].
  cbn [snd] in Hr2, Ht2.
  run_simpl. unfold console_error. run_simpl. simpl.
  repeat split; try congruence; discriminate.
Qed.

(** A login with the right password, the database up. *)
Lemma run_auth_login_right_password (email password ip : string) (u : user)
    (rest : list user) (w : world) :
  pg_faults w = [] ->
  JS.truthy email = true -> JS.truthy password = true ->
  filter (fun x => u_email x = JS.toLowerCase email) (users w) = u :: rest ->
  u_is_active u = true -> u_is_approved u = true ->
  bcrypt_compare w password (u_password u) = true ->
  fst (run (auth_login (Some email) (Some password) ip) w)
  = Fulfilled (respond 500 (message_body "Internal server error"))
  /\ same_data w (snd (run (auth_login (Some email) (Some password) ip) w)).
Proof.
  intros Hpf Hemail Hpassword Hrows Hactive Happroved Hbcrypt.
  unfold auth_login, missing, truthy_reply. rewrite Hemail, Hpassword.
  cbn [negb orb default from_option id]. run_simpl.
  simpl (exec (SelectUserByEmail _) w). rewrite on_pg_ok by exact Hpf.
  cbn [fst snd]. rewrite Hrows, Hactive, Happroved. cbn [negb orb]. run_simpl.
  simpl (exec (BcryptCompare _ _) w). rewrite Hbcrypt. cbn [negb]. run_simpl.
  match goal with
  | |- context [sessionManager.createSession ?i ?r ?d] =>
      destruct (createSession_rejects i r d w) as [[e He] Hsame];
      destruct (run (sessionManager.createSession i r d) w) as [[[at_ rt] | e'] w2]
  end; [discriminate He |].
  cbn [snd] in Hsame.
  run_simpl. unfold console_error. run_simpl. cbn [fst snd].
  split; [reflexivity | apply same_data_logged; exact Hsame].
Qed.

(** X20. The right password is answered with 500.  When the limiter lets
    the request through and the database is up, POST /login for an
    active and approved account with the right password answers 500
    "Internal server error": the session it wants to store is refused by
    the cache before anything is recorded.  No refresh assertion is
    recorded, no LOGIN event is written to the audit trail, and no key
    of the cache other than the counter of the client is touched. *)
Theorem right_password_is_answered_500 (email password ip : string) (u : user)
    (rest : list user) (w : world) :
  fst (run (loginRateLimiter ip) w) = Fulfilled (next tt) ->
  pg_faults w = [] ->
  JS.truthy email = true -> JS.truthy password = true ->
  filter (fun x => u_email x = JS.toLowerCase email) (users w) = u :: rest ->
  u_is_active u = true -> u_is_approved u = true ->
  bcrypt_compare w password (u_password u) = true ->
  let r := run (post_auth_login (Some email) (Some password) ip) w in
  fst r = Fulfilled (respond 500 (message_body "Internal server error"))
  /\ refresh_tokens (snd r) = refresh_tokens w
  /\ audit_logs (snd r) = audit_logs w
  /\ forall k, k <> limiter_key loginRateLimiter_options ip ->
               redis (snd r) !! k = redis w !! k.
Proof.
  intros Hnext Hpf Hemail Hpassword Hrows Hactive Happroved Hbcrypt. cbv zeta.
  unfold post_auth_login, route. rewrite run_mbind.
  destruct (createRateLimiter_frame loginRateLimiter_options ip w)
    as (_ & _ & Ha & Ht & Hu & Hb & Hp & Hk).
  change (createRateLimiter loginRateLimiter_options ip) with (loginRateLimiter ip)
    in Ha, Ht, Hu, Hb, Hp, Hk.
  destruct (run (loginRateLimiter ip) w) as [o w1]. cbn [fst snd] in *. subst o.
  destruct (run_auth_login_right_password email password ip u rest w1)
    as [H500 (_ & Hr2 & _ & Ha2 & Ht2 & _)];
    try assumption; try congruence.
  split; [exact H500 |]. split; [congruence |]. split; [congruence |].
  intros k Hne. rewrite Hr2. exact (Hk k Hne).
Qed.

Lemma right_password_is_answered_500_witness :
  let r := run (post_auth_login (Some "Ada@Example.org") (Some "correct horse")
                                "203.0.113.7") sample_world in
  fst r = Fulfilled (respond 500 (message_body "Internal server error"))
  /\ refresh_tokens (snd r) = [] /\ audit_logs (snd r) = [] /\ redis (snd r) = ∅.
Proof.
  intros r.
  destruct (right_password_is_answered_500 "Ada@Example.org" "correct horse" "203.0.113.7"
              (User 7 "ada@example.org" "correct horse" "Ada" "Lovelace" "admin"
                    false true true) [] sample_world)
    as (H500 & Ht & Ha & _); try reflexivity.
  split; [exact H500 |]. split; [exact Ht |]. split; [exact Ha |].
  vm_compute. reflexivity.
Defined.

(** X21. No login leaves a credential behind.  Whatever POST /login is
    sent and whatever it answers, it never answers 200, the table of
    refresh assertions is as it was, and so is every key of the cache
    other than the counter of the client in the limiter that stands
    before the handler: no session is stored and no refresh assertion is
    recorded, for a refused login as for any other. *)
Theorem login_leaves_no_credential (body_email body_password : option string)
    (ip : string) (w : world) :
  let r := run (post_auth_login body_email body_password ip) w in
  (forall body, fst r <> Fulfilled (respond 200 body))
  /\ refresh_tokens (snd r) = refresh_tokens w
  /\ forall k, k <> limiter_key loginRateLimiter_options ip ->
               redis (snd r) !! k = redis w !! k.
Proof.
  cbv zeta. unfold post_auth_login, route. rewrite run_mbind.
  destruct (createRateLimiter_frame loginRateLimiter_options ip w)
    as (_ & _ & _ & Ht & _ & _ & _ & Hk).
  pose proof (createRateLimiter_outcome loginRateLimiter_options ip w) as Hout.
  change (createRateLimiter loginRateLimiter_options ip) with (loginRateLimiter ip)
    in Ht, Hk, Hout.
  destruct (run (loginRateLimiter ip) w) as [o w1]. cbn [fst snd] in *.
  destruct Hout as [-> | ->].
  - destruct (auth_login_stores_nothing body_email body_password ip w1)
      as (H200 & Hr & Ht2).
    split; [exact H200 |]. split; [congruence |].
    intros k Hne. rewrite Hr. exact (Hk k Hne).
  - run_simpl. cbn [fst snd].
    split; [intros body; unfold denial; discriminate |]. split; [exact Ht | exact Hk].
Qed.

(** ** The two socket authentications *)

Lemma run_io_use (JSON_parse : string -> error + Json) (t : jwt) (w : world) :
  no_token (Some t) = false ->
  run (io_use JSON_parse (Some t)) w =
  match exec (GET (session_key t)) w with
  | (Rejected _, w1) => (Fulfilled (next_error (Error "Authentication error")), w1)
  | (Fulfilled sessionData, w1) =>
      if truthy_reply sessionData
      then match JSON_parse (default "" sessionData) with
           | inr session => (Fulfilled (next session), w1)
           | inl _ => (Fulfilled (next_error (Error "Authentication error")), w1)
           end
      else (Fulfilled (next_error (Error "Invalid token")), w1)
  end.
Proof.
  intros Ht. unfold io_use, given. rewrite Ht. run_simpl.
  destruct (exec (GET _) w) as [[sessionData | e] w1]; [|reflexivity].
  destruct (truthy_reply sessionData); cbn [negb]; cbv iota; [|reflexivity].
  run_simpl. rewrite run_of_sum. destruct (JSON_parse _); reflexivity.
Qed.

(** X22. The socket authentication of server.js admits a connection
    only on a live session record: it never throws and never writes to
    the cache, and when it calls [next()] the key of the token held a
    live, non-empty text that the parser read as the session it
    attached.  The assertion itself is not looked at. *)
Theorem io_use_admits_on_record_only (JSON_parse : string -> error + Json)
    (token : option jwt) (w : world) :
  redis (snd (run (io_use JSON_parse token) w)) = redis w
  /\ ((exists e, fst (run (io_use JSON_parse token) w) = Fulfilled (next_error e))
      \/ exists t s expiry session,
           fst (run (io_use JSON_parse token) w) = Fulfilled (next session)
           /\ token = Some t
           /\ Redis.lookup (clock w) (redis w) (session_key t)
              = Some (Entry (RString s) expiry)
           /\ JS.truthy s = true
           /\ JSON_parse s = inr session).
Proof.
  destruct token as [t|]; [|split; [reflexivity | left; eexists; reflexivity]].
  destruct (no_token (Some t)) eqn:Ht.
  { unfold io_use, given. rewrite Ht. split; [reflexivity | left; eexists; reflexivity]. }
  rewrite run_io_use by exact Ht.
  pose proof (exec_GET_redis (session_key t) w) as Hr.
  destruct (exec (GET _) w) as [[sessionData | e] w1] eqn:Hget; simpl in Hr.
  2: { split; [exact Hr | left; eexists; reflexivity]. }
  apply exec_GET_fulfilled in Hget.
  destruct sessionData as [s|]; simpl truthy_reply.
  2: { split; [exact Hr | left; eexists; reflexivity]. }
  destruct (JS.truthy s) eqn:Htruthy.
  2: { split; [exact Hr | left; eexists; reflexivity]. }
  simpl (default _ _).
  destruct (JSON_parse s) as [e | session] eqn:Hparse.
  { split; [exact Hr | left; eexists; reflexivity]. }
  split; [exact Hr |]. right. destruct Hget as [expiry Hl].
  exists t, s, expiry, session. auto.
Qed.

(** X23. The two socket authentications disagree once the record has
    left the cache.  With the cache reachable and no live record under
    the key, an access assertion that verifies is admitted by
    [socketAuthMiddleware], with the id and the role it carries, and is
    turned away by the authentication of server.js with "Invalid
    token". *)
Theorem socket_authentications_disagree (JSON_parse : string -> error + Json)
    (token : jwt) (c : claims) (socketId address : string) (w : world) :
  redis_up 2 w = true ->
  Redis.lookup (clock w) (redis w) (session_key token) = None ->
  Jwt.verify token JWT_SECRET (clock w) = inr c ->
  fst (run (socketAuthMiddleware JSON_parse (Some token) socketId address) w)
  = Fulfilled (next (SocketUser (Some (JNum (userId c))) (JStr <$> role c)))
  /\ fst (run (io_use JSON_parse (Some token)) w)
     = Fulfilled (next_error (Error "Invalid token")).
Proof.
  intros Hup Hmiss Hverify. apply redis_up_S in Hup as [Hup1 Hup2].
  pose proof (verify_not_empty token JWT_SECRET (clock w) c Hverify) as Ht.
  split.
  - unfold socketAuthMiddleware. rewrite Ht. run_simpl.
    rewrite exec_GET_miss by assumption.
    simpl (truthy_reply None). cbv iota. unfold jwt_verify. run_simpl.
    simpl (clock _). rewrite Hverify. simpl (run (of_sum _) _). cbv iota beta. run_simpl.
    rewrite exec_SET_up by (try apply Hup2; lia).
    run_simpl. rewrite run_detached_createAuditLog. run_simpl. reflexivity.
  - rewrite run_io_use, exec_GET_miss by assumption. reflexivity.
Qed.

Lemma socket_authentications_disagree_witness :
  let t := Jwt.sign 9 (Some "manager") JWT_SECRET Jwt.m15 1000 in
  let w := later 60 [] [] sample_world in
  Redis.lookup (clock w) (redis w) (session_key t) = None
  /\ fst (run (socketAuthMiddleware (fun _ => inr JNull) (Some t) "s1" "10.0.0.9") w)
     = Fulfilled (next (SocketUser (Some (JNum 9)) (Some (JStr "manager"))))
  /\ fst (run (io_use (fun _ => inr JNull) (Some t)) w)
     = Fulfilled (next_error (Error "Invalid token")).
Proof.
  intros t w. split; [reflexivity |].
  exact (socket_authentications_disagree (fun _ => inr JNull) t
           (Claims 9 (Some "manager") 1000 1900) "s1" "10.0.0.9" w
           eq_refl eq_refl eq_refl).
Defined.

(** X24. [socketAuthMiddleware] always ends the handshake itself, with
    [next()] or with [next(error)]: it never throws, whatever the
    token, the parser, the cache and the database do. *)
Theorem socketAuthMiddleware_settles (JSON_parse : string -> error + Json)
    (token : option jwt) (socketId address : string) (w : world) :
  (exists u, fst (run (socketAuthMiddleware JSON_parse token socketId address) w)
             = Fulfilled (next u))
  \/ (exists e, fst (run (socketAuthMiddleware JSON_parse token socketId address) w)
                = Fulfilled (next_error e)).
Proof.
  unfold socketAuthMiddleware.
  destruct (if no_token token then None else token) as [t|];
    [|right; eexists; reflexivity].
  run_simpl.
  destruct (exec (GET _) w) as [[cached | e] w1]; [|right; eexists; reflexivity].
  destruct (truthy_reply cached).
  - run_simpl. rewrite run_of_sum.
    destruct (JSON_parse _) as [e | session]; [right; eexists; reflexivity |].
    destruct session; try (right; eexists; reflexivity);
      run_simpl; rewrite run_detached_createAuditLog; run_simpl;
      left; eexists; reflexivity.
  - unfold jwt_verify. run_simpl. rewrite run_of_sum.
    destruct (Jwt.verify t JWT_SECRET (clock w1)) as [e | c];
      [right; eexists; reflexivity |].
    run_simpl.
    destruct (exec (SET _ _ _) w1) as [[x | e] w2]; [|right; eexists; reflexivity].
    run_simpl. rewrite run_detached_createAuditLog. run_simpl.
    left. eexists. reflexivity.
Qed.

(** X25. On a cache hit [socketAuthMiddleware] trusts the record.  With
    the cache reachable, a live record under the key that the parser
    reads as anything but [null] admits the connection with the id and
    the role of the record, whether or not the assertion verifies. *)
Theorem socketAuthMiddleware_trusts_record (JSON_parse : string -> error + Json)
    (t : jwt) (s : string) (expiry : option Z) (session : Json)
    (socketId address : string) (w : world) :
  no_token (Some t) = false ->
  redis_up 1 w = true ->
  Redis.lookup (clock w) (redis w) (session_key t) = Some (Entry (RString s) expiry) ->
  JS.truthy s = true -> JSON_parse s = inr session -> session <> JNull ->
  fst (run (socketAuthMiddleware JSON_parse (Some t) socketId address) w)
  = Fulfilled (next (SocketUser (prop "userId" session) (prop "role" session))).
Proof.
  intros Ht Hup Hl Htruthy Hparse Hnull.
  unfold socketAuthMiddleware. rewrite Ht. run_simpl.
  simpl (exec (GET _) w). rewrite on_redis_up by exact Hup.
  unfold Redis.get. rewrite Hl. cbn [fst snd truthy_reply]. rewrite Htruthy.
  run_simpl. cbn [default from_option id]. rewrite Hparse.
  simpl (run (of_sum _) _). cbv iota beta.
  destruct session; try congruence;
    run_simpl; rewrite run_detached_createAuditLog; run_simpl; reflexivity.
Qed.

Lemma socketAuthMiddleware_trusts_record_witness :
  let t := Jwt.sign 9 (Some "manager") JWT_SECRET Jwt.m15 1000 in
  let record := JObj [("userId", JNum 9); ("role", JStr "admin")] in
  let w := set_redis {[ session_key t := Entry (RString (JSON.stringify record)) None ]}
                     (later 3600 [] [] sample_world) in
  (exists e, Jwt.verify t JWT_SECRET (clock w) = inl e)
  /\ fst (run (socketAuthMiddleware (fun _ => inr record) (Some t) "s1" "10.0.0.9") w)
     = Fulfilled (next (SocketUser (Some (JNum 9)) (Some (JStr "admin")))).
Proof.
  intros t record w. split; [eexists; reflexivity |].
  apply (socketAuthMiddleware_trusts_record (fun _ => inr record) t
           (JSON.stringify record) None record "s1" "10.0.0.9" w);
    try reflexivity.
  discriminate.
Defined.

(** ** The query of [getAuditLogs] *)

(** X26. The query of [getAuditLogs] is built from which filters are
    given, not from their values: two calls in which the same filters
    are falsy build the same conditions and the same text of the
    counting query, so a filter for user id 0 or
    for the empty action is no filter at all.  There is one parameter
    for each condition, the condition at position [i] (from 0) holds the
    placeholder number [i + 1], and LIMIT and OFFSET hold the two
    numbers after the last condition, in the order in which their values
    follow the parameters. *)
Theorem audit_query_is_parameterised (userId action startDate endDate : Json) :
  let q := audit_filters userId action startDate endDate in
  (forall userId' action' startDate' endDate',
      falsy userId' = falsy userId -> falsy action' = falsy action ->
      falsy startDate' = falsy startDate -> falsy endDate' = falsy endDate ->
      conditions (audit_filters userId' action' startDate' endDate') = conditions q
      /\ countQuery (audit_filters userId' action' startDate' endDate') = countQuery q)
  /\ length (params q) = length (conditions q)
  /\ (forall (i : nat) (c : string),
         conditions q !! i = Some c ->
         exists column_op,
           c = column_op +:+ "$" +:+ JS.Z_to_string (Z.of_nat i + 1)
           /\ column_op ∈ ["user_id = "; "action = "; "created_at >= "; "created_at <= "])
  /\ (forall limit offset,
         limit_offset q
         = "LIMIT $" +:+ JS.Z_to_string (Z.of_nat (length (params q)) + 1)
           +:+ " OFFSET $" +:+ JS.Z_to_string (Z.of_nat (length (params q)) + 2)
         /\ page_params q limit offset !! length (params q) = Some (PValue limit)
         /\ page_params q limit offset !! S (length (params q)) = Some (PValue offset)).
Proof.
  cbv zeta. unfold audit_filters, add_filter.
  split; [|split; [|split]].
  - intros u' a' s' e' -> -> -> ->.
    destruct (falsy userId), (falsy action), (falsy startDate), (falsy endDate);
      split; reflexivity.
  - destruct (falsy userId), (falsy action), (falsy startDate), (falsy endDate);
      reflexivity.
  - intros i c.
    destruct (falsy userId), (falsy action), (falsy startDate), (falsy endDate);
      cbn [conditions params paramIndex app];
      repeat (destruct i as [|i]; [intros [= <-]; eexists; split;
                                   [reflexivity | set_solver] |]);
      intros H; discriminate H.
  - intros limit offset.
    destruct (falsy userId), (falsy action), (falsy startDate), (falsy endDate);
      repeat split.
Qed.

(** ** [checkAuthSSR] *)

Lemma member_Some (k : string) (v : option Json) (r : option Json) :
  member k v = inr r -> exists j, v = Some j /\ j <> JNull /\ r = prop k j.
Proof.
  destruct v as [j|]; [|discriminate].
  destruct j; try discriminate; intros [= <-]; eexists; repeat split; discriminate.
Qed.

(** X27. [checkAuthSSR] hands a page its props only to a signed-in user
    who may see it.  When the result is props, the cookie was there, the
    verification request was answered with an ok response whose body
    holds that user, no cookie was cleared, a path under /admin has an
    admin and a path under /manager has a manager or an admin. *)
Theorem checkAuthSSR_props_sound (authCookie : option string) (fetch : string -> fetched)
    (resolvedUrl : string) (user : Json) :
  ssr_result_of (checkAuthSSR authCookie fetch resolvedUrl) = Props user ->
  exists cookie data,
    authCookie = Some cookie /\ JS.truthy cookie = true
    /\ fetch ("Bearer " +:+ cookie) = Response true (inr data)
    /\ prop "user" data = Some user
    /\ ssr_set_cookie (checkAuthSSR authCookie fetch resolvedUrl) = []
    /\ (String.prefix "/admin" resolvedUrl = true ->
        is_role "admin" (prop "role" user) = true)
    /\ (String.prefix "/manager" resolvedUrl = true ->
        is_role "manager" (prop "role" user) = true
        \/ is_role "admin" (prop "role" user) = true).
Proof.
  unfold checkAuthSSR.
  destruct authCookie as [cookie|]; [|discriminate].
  simpl (truthy_reply _). destruct (JS.truthy cookie) eqn:Hcookie; [|discriminate].
  cbn [negb default from_option id].
  destruct (fetch _) as [e | ok json] eqn:Hfetch; [discriminate |].
  destruct ok; [|discriminate]. cbn [negb].
  destruct json as [e | data]; [discriminate |].
  destruct (member "user" (Some data)) as [e | u] eqn:Hu; [discriminate |].
  destruct (member "role" u) as [e | role] eqn:Hrole; [discriminate |].
  apply member_Some in Hu as (d & [= <-] & _ & ->).
  apply member_Some in Hrole as (j & Hj & _ & ->). rewrite Hj.
  cbv zeta. cbn [default from_option id].
  destruct (String.prefix "/admin" resolvedUrl) eqn:Hadmin;
    destruct (is_role "admin" (prop "role" j)) eqn:Hisadmin;
    destruct (String.prefix "/manager" resolvedUrl) eqn:Hmanager;
    destruct (is_role "manager" (prop "role" j)) eqn:Hismanager;
    cbn [andb negb]; try discriminate;
    intros [= <-]; exists cookie, data; rewrite ?Hisadmin, ?Hismanager;
    repeat split; auto; discriminate.
Qed.

Lemma checkAuthSSR_props_sound_witness :
  let eve := JObj [("id", JNum 9); ("role", JStr "manager")] in
  let fetch := fun _ : string => Response true (inr (JObj [("user", eve)])) in
  ssr_result_of (checkAuthSSR (Some "token") fetch "/manager/ads") = Props eve
  /\ is_role "manager" (prop "role" eve) = true.
Proof.
  intros eve fetch.
  assert (ssr_result_of (checkAuthSSR (Some "token") fetch "/manager/ads") = Props eve)
    as H by reflexivity.
  split; [exact H |].
  destruct (checkAuthSSR_props_sound (Some "token") fetch "/manager/ads" eve H)
    as (cookie & data & _ & _ & _ & _ & _ & _ & Hm).
  destruct (Hm eq_refl) as [Hrole | Hrole]; [exact Hrole | discriminate Hrole].
Defined.

(** X28. [checkAuthSSR] redirects to /login or to /manager and nowhere
    else; it redirects to /manager only a manager who asked for a
    path under /admin, and asked for /manager itself with the same
    cookie that manager gets the props: the redirect does not loop. *)
Theorem checkAuthSSR_redirects (authCookie : option string) (fetch : string -> fetched)
    (resolvedUrl destination : string) :
  ssr_result_of (checkAuthSSR authCookie fetch resolvedUrl) = Redirect destination ->
  destination = "/login"
  \/ (destination = "/manager"
      /\ String.prefix "/admin" resolvedUrl = true
      /\ exists user,
           is_role "manager" (prop "role" user) = true
           /\ ssr_result_of (checkAuthSSR authCookie fetch "/manager") = Props user).
Proof.
  unfold checkAuthSSR.
  destruct (negb (truthy_reply authCookie)); [intros [= <-]; auto |].
  destruct (fetch _) as [e | ok json]; [intros [= <-]; auto |].
  destruct (negb ok); [intros [= <-]; auto |].
  destruct json as [e | data]; [intros [= <-]; auto |].
  destruct (member "user" (Some data)) as [e | u] eqn:Hu; [intros [= <-]; auto |].
  destruct (member "role" u) as [e | role] eqn:Hrole; [intros [= <-]; auto |].
  apply member_Some in Hrole as (j & -> & _ & ->).
  cbv zeta. cbn [default from_option id].
  destruct (String.prefix "/admin" resolvedUrl) eqn:Hadmin;
    destruct (is_role "admin" (prop "role" j)) eqn:Hisadmin;
    destruct (String.prefix "/manager" resolvedUrl) eqn:Hmanager;
    destruct (is_role "manager" (prop "role" j)) eqn:Hismanager;
    cbn [andb negb]; intros [= <-]; auto;
    right; repeat split; exists j; split; auto.
Qed.

Lemma checkAuthSSR_redirects_witness :
  let eve := JObj [("id", JNum 9); ("role", JStr "manager")] in
  let fetch := fun _ : string => Response true (inr (JObj [("user", eve)])) in
  ssr_result_of (checkAuthSSR (Some "token") fetch "/admin/users") = Redirect "/manager"
  /\ exists user, ssr_result_of (checkAuthSSR (Some "token") fetch "/manager") = Props user.
Proof.
  intros eve fetch.
  assert (ssr_result_of (checkAuthSSR (Some "token") fetch "/admin/users")
          = Redirect "/manager") as H by reflexivity.
  split; [exact H |].
  destruct (checkAuthSSR_redirects (Some "token") fetch "/admin/users" "/manager" H)
    as [Hlogin | (_ & _ & user & _ & Hprops)]; [discriminate Hlogin |].
  exists user. exact Hprops.
Defined.

(** ** The manager refresh route *)

Lemma exec_SelectActiveApprovedUserRole (uid : Z) (r : string) (w w1 : world)
    (rows : list user) :
  exec (SelectActiveApprovedUserRole uid r) w = (Fulfilled rows, w1) ->
  rows = filter (fun u => u_id u = uid /\ u_role u = r /\ u_is_active u = true
                          /\ u_is_approved u = true) (users w)
  /\ same_data w w1.
Proof.
  simpl. apply (on_pg_read (fun w0 => filter _ (users w0))).
  intros w0 (_ & _ & _ & _ & _ & Hu). rewrite Hu. reflexivity.
Qed.

(** X29. Whenever the manager refresh route answers 200, the refresh
    assertion that was presented verifies, has a row in the table that
    is not past its expiry, and belongs to an active and approved
    account with the manager role; the response holds no refresh
    assertion, and the table and the accounts are as they were. *)
Theorem manager_refresh_sound (refreshToken : option jwt) (w : world) (body : Json) :
  fst (run (manager_refresh_token refreshToken) w) = Fulfilled (respond 200 body) ->
  exists t decoded row u,
    refreshToken = Some t
    /\ Jwt.verify t JWT_REFRESH_SECRET (clock w) = inr decoded
    /\ row ∈ refresh_tokens w /\ rt_token row = t /\ clock w < rt_expires_at row
    /\ u ∈ users w /\ u_id u = userId decoded /\ u_role u = "manager"
    /\ u_is_active u = true /\ u_is_approved u = true
    /\ prop "refreshToken" body = None
    /\ refresh_tokens (snd (run (manager_refresh_token refreshToken) w)) = refresh_tokens w
    /\ users (snd (run (manager_refresh_token refreshToken) w)) = users w.
Proof.
  unfold manager_refresh_token.
  destruct refreshToken as [t|]; [|simpl; discriminate].
  destruct (no_token (Some t)) eqn:Htoken; [run_simpl; simpl; discriminate |].
  run_simpl.
  destruct (exec (SelectValidRefreshToken t) w) as [[rows | e] w1] eqn:Hrows;
    [|run_simpl; simpl; discriminate].
  apply exec_SelectValidRefreshToken in Hrows as [Hrows Hsame1].
  destruct rows as [|row rows]; [run_simpl; simpl; discriminate |].
  assert (row ∈ filter (fun r => rt_token r = t /\ clock w < rt_expires_at r)
                       (refresh_tokens w)) as Hrow
    by (rewrite <- Hrows; apply list_elem_of_here).
  apply list_elem_of_filter in Hrow as [[Htok Hexp] Hin].
  unfold jwt_verify. run_simpl.
  pose proof Hsame1 as (Hc1 & _). rewrite Hc1.
  destruct (Jwt.verify t JWT_REFRESH_SECRET (clock w)) as [e | decoded] eqn:Hverify.
  { simpl (run (of_sum _) _). cbv iota beta. run_simpl.
    destruct (exec (DeleteRefreshToken _) w1) as [[x | e'] w2]; run_simpl; simpl;
      discriminate. }
  simpl (run (of_sum _) _). cbv iota beta. run_simpl.
  destruct (exec (SelectActiveApprovedUserRole _ _) w1) as [[urows | e] w2] eqn:Hurows.
  2: { run_simpl.
       destruct (exec (DeleteRefreshToken _) w2) as [[x | e'] w3]; run_simpl; simpl;
         discriminate. }
  apply exec_SelectActiveApprovedUserRole in Hurows as [Hurows Hsame2].
  destruct urows as [|u urows]; [run_simpl; simpl; discriminate |].
  assert (u ∈ filter (fun u => u_id u = userId decoded /\ u_role u = "manager"
                               /\ u_is_active u = true /\ u_is_approved u = true)
                     (users w1)) as Hu
    by (rewrite <- Hurows; apply list_elem_of_here).
  apply list_elem_of_filter in Hu as [(Hid & Hrole & Hactive & Happroved) Hinu].
  pose proof (same_data_trans _ _ _ Hsame1 Hsame2) as (_ & _ & _ & _ & Hrt2 & Hu2).
  destruct Hsame1 as (_ & _ & _ & _ & _ & Hu1). rewrite Hu1 in Hinu.
  unfold jwt_sign. run_simpl.
  assert (refresh_tokens (snd (exec (SET (session_key
            (Jwt.sign (u_id u) (Some "manager") JWT_SECRET Jwt.m15 (clock w2)))
            (JSON.stringify (JObj [("userId", JNum (u_id u)); ("role", JStr "manager")]))
            (Some 900)) w2)) = refresh_tokens w2
          /\ users (snd (exec (SET (session_key
            (Jwt.sign (u_id u) (Some "manager") JWT_SECRET Jwt.m15 (clock w2)))
            (JSON.stringify (JObj [("userId", JNum (u_id u)); ("role", JStr "manager")]))
            (Some 900)) w2)) = users w2) as [Hrt3 Hu3].
  { simpl. unfold on_redis. destruct (redis_faults w2) as [|[] fs];
      try destruct (Redis.set _ _ _ _ _); split; reflexivity. }
  destruct (exec (SET _ _ _) w2) as [[y | e] w3]; simpl in Hrt3, Hu3.
  2: { run_simpl.
       destruct (exec (DeleteRefreshToken _) w3) as [[x | e'] w4]; run_simpl; simpl;
         discriminate. }
  run_simpl. simpl. intros [= <-].
  exists t, decoded, row, u. repeat split; try assumption; congruence.
Qed.

Lemma manager_refresh_sound_witness :
  let rt := Jwt.sign 9 (Some "manager") JWT_REFRESH_SECRET Jwt.d7 1000 in
  let row := RefreshToken 9 rt (1000 + Jwt.d7) in
  let w := later 3600 [] [] (set_refresh_tokens [row] sample_world) in
  let r := run (manager_refresh_token (Some rt)) w in
  (exists body, fst r = Fulfilled (respond 200 body))
  /\ refresh_tokens (snd r) = [row].
Proof.
  intros rt row w r.
  assert (exists body, fst r = Fulfilled (respond 200 body)) as [body Hbody]
    by (eexists; vm_compute; reflexivity).
  split; [eauto |].
  destruct (manager_refresh_sound (Some rt) w body Hbody)
    as (_ & _ & _ & _ & _ & _ & _ & _ & _ & _ & _ & _ & _ & _ & _ & Hkeep & _).
  exact Hkeep.
Defined.

(** X30. A cache failure costs a manager the refresh assertion.  When
    the database is up and the write of the new session record is
    rejected, the manager refresh route lands in the catch meant for a
    bad assertion: for a refresh assertion that verifies, with a valid
    row and a manager account, the row is deleted and the answer is 401
    "Invalid refresh token". *)
Theorem cache_failure_deletes_manager_refresh_token (t : jwt) (decoded : claims)
    (row : refresh_token) (u : user) (w : world) (fs : list bool) :
  Jwt.verify t JWT_REFRESH_SECRET (clock w) = inr decoded ->
  row ∈ refresh_tokens w -> rt_token row = t -> clock w < rt_expires_at row ->
  u ∈ users w -> u_id u = userId decoded -> u_role u = "manager" ->
  u_is_active u = true -> u_is_approved u = true ->
  pg_faults w = [] -> redis_faults w = true :: fs ->
  fst (run (manager_refresh_token (Some t)) w)
  = Fulfilled (respond 401 (message_body "Invalid refresh token"))
  /\ forall r, r ∈ refresh_tokens (snd (run (manager_refresh_token (Some t)) w)) ->
               rt_token r <> t.
Proof.
  intros Hverify Hin Htok Hexp Hinu Hid Hrole Hactive Happroved Hpf Hrf.
  pose proof (verify_not_empty t JWT_REFRESH_SECRET (clock w) decoded Hverify) as Ht.
  unfold manager_refresh_token. rewrite Ht. run_simpl.
  simpl (exec (SelectValidRefreshToken t) w). rewrite on_pg_ok by exact Hpf.
  cbn [fst snd].
  destruct (filter_head_elem (fun r => rt_token r = t /\ clock w < rt_expires_at r)
              (refresh_tokens w) row Hin) as (row' & rows & -> & _ & _); [auto |].
  unfold jwt_verify. run_simpl. rewrite Hverify.
  simpl (run (of_sum _) _). cbv iota beta. run_simpl.
  simpl (exec (SelectActiveApprovedUserRole _ _) w). rewrite on_pg_ok by exact Hpf.
  cbn [fst snd].
  destruct (filter_head_elem
              (fun x => u_id x = userId decoded /\ u_role x = "manager"
                        /\ u_is_active x = true /\ u_is_approved x = true)
              (users w) u Hinu) as (u' & urows & -> & _ & _); [auto |].
  unfold jwt_sign. run_simpl.
  simpl (exec (SET _ _ _) w). unfold on_redis. rewrite Hrf. cbv iota beta. run_simpl.
  simpl (exec (DeleteRefreshToken t) _). rewrite on_pg_ok by (simpl; exact Hpf).
  cbn [fst snd]. run_simpl. split; [reflexivity |].
  simpl. intros r Hr. apply list_elem_of_filter in Hr as [Hne _]. exact Hne.
Qed.

Lemma cache_failure_deletes_manager_refresh_token_witness :
  let rt := Jwt.sign 9 (Some "manager") JWT_REFRESH_SECRET Jwt.d7 1000 in
  let row := RefreshToken 9 rt (1000 + Jwt.d7) in
  let w := set_redis_faults [true] (set_refresh_tokens [row] sample_world) in
  let r := run (manager_refresh_token (Some rt)) w in
  fst r = Fulfilled (respond 401 (message_body "Invalid refresh token"))
  /\ refresh_tokens (snd r) = [].
Proof.
  intros rt row w r.
  assert (row ∈ refresh_tokens w) as Hin by apply list_elem_of_here.
  assert (User 9 "eve@example.org" "tr0ub4dor" "Eve" "Hopper" "manager" false true true
          ∈ users w) as Hinu by (do 2 apply list_elem_of_further; apply list_elem_of_here).
  destruct (cache_failure_deletes_manager_refresh_token rt
              (Claims 9 (Some "manager") 1000 (1000 + Jwt.d7)) row _ w []
              eq_refl Hin eq_refl ltac:(vm_compute; reflexivity) Hinu
              eq_refl eq_refl eq_refl eq_refl eq_refl eq_refl) as [H401 _].
  split; [exact H401 | vm_compute; reflexivity].
Defined.
